(** * Address-space arithmetic of the virtual-network gap report

    A shallow embedding of [main.py]: the gap finder [find_vnet_gaps], the
    address counter [count_ip_addresses], the range summarizer
    [ip_range_to_cidr] and the sum of counts that the report stores as
    ["address_count"], together with the part of CPython 3.11's [ipaddress]
    module those functions call.

    Conventions.
    - A Python [str] is a Rocq [string]; every test the code makes on the
      characters of a string looks at ASCII characters only.
    - A Python [int] is a [Z]; the bit operations are those of [Z], which
      agree with Python's on negative numbers as well.
    - A computation that can raise is a [result]; [try]/[except] is
      [catch_if]. *)

From Stdlib Require Import ZArith List String Ascii Bool Lia Permutation.
From Stdlib Require DecimalString HexadecimalString.
Import ListNotations.

Local Open Scope string_scope.
Local Open Scope Z_scope.

(** ** Exceptions and results *)

(** The exception classes the code can meet.  [AddressValueError] and
    [NetmaskValueError] are the two subclasses of [ValueError] that
    [ipaddress] declares. *)
Inductive exn_class : Type :=
| ValueError
| AddressValueError
| NetmaskValueError
| TypeError.

(** The text of an exception.  The library builds most of its messages
    around [repr] of the offending text; [repr] is kept symbolic. *)
Inductive message : Type :=
| Msg (text : string)
| MsgRepr (before arg after : string)
| MsgIn (inner : message) (arg : string).

Record exn : Type := Exn { exn_cls : exn_class; exn_msg : message }.

Inductive result (A : Type) : Type :=
| Ok (a : A)
| Raise (e : exn).

Arguments Ok {A} a.
Arguments Raise {A} e.

Definition bind {A B : Type} (c : result A) (k : A -> result B) : result B :=
  match c with
  | Ok a => k a
  | Raise e => Raise e
  end.

Declare Scope result_scope.
Delimit Scope result_scope with result.
Notation "x <- c ;; k" := (bind c (fun x => k))
  (at level 61, c at next level, right associativity) : result_scope.
Notation "' p <- c ;; k" := (bind c (fun x => let p := x in k))
  (at level 61, p pattern, c at next level, right associativity) : result_scope.
Local Open Scope result_scope.

(** [isinstance(e, ValueError)]. *)
Definition is_ValueError (e : exn) : bool :=
  match exn_cls e with
  | TypeError => false
  | _ => true
  end.

(** [isinstance(e, AddressValueError)]. *)
Definition is_AddressValueError (e : exn) : bool :=
  match exn_cls e with
  | AddressValueError => true
  | _ => false
  end.

(** [isinstance(e, NetmaskValueError)]. *)
Definition is_NetmaskValueError (e : exn) : bool :=
  match exn_cls e with
  | NetmaskValueError => true
  | _ => false
  end.

(** [isinstance(e, (AddressValueError, NetmaskValueError))]. *)
Definition is_Address_or_Netmask (e : exn) : bool :=
  is_AddressValueError e || is_NetmaskValueError e.

(** [try: c  except <handles> as e: handler e]. *)
Definition catch_if {A : Type} (handles : exn -> bool) (c : result A)
  (handler : exn -> result A) : result A :=
  match c with
  | Ok a => Ok a
  | Raise e => if handles e then handler e else Raise e
  end.

(** A list comprehension whose element expression can raise: the elements
    are evaluated from left to right and the first exception ends it. *)
Fixpoint mapM {A B : Type} (f : A -> result B) (l : list A) : result (list B) :=
  match l with
  | [] => Ok []
  | x :: l' => y <- f x ;; ys <- mapM f l' ;; Ok (y :: ys)
  end.

(** ** Python strings and integers *)

Definition is_empty (s : string) : bool :=
  match s with
  | EmptyString => true
  | _ => false
  end.

(** [c in s]. *)
Fixpoint contains_char (c : ascii) (s : string) : bool :=
  match s with
  | EmptyString => false
  | String d s' => Ascii.eqb c d || contains_char c s'
  end.

(** [s.split(sep)] for a non-empty separator.  [skip] counts the characters
    of a separator just matched that are still to be passed over; [cur] is
    the piece being read. *)
Fixpoint split_from (sep s : string) (skip : nat) (cur : string) : list string :=
  match s with
  | EmptyString => [cur]
  | String c s' =>
      match skip with
      | S k => split_from sep s' k cur
      | O =>
          if prefix sep s
          then cur :: split_from sep s' (String.length sep - 1) ""
          else split_from sep s' 0 (cur ++ String c "")
      end
  end.

Definition split (sep s : string) : list string := split_from sep s 0 "".

(** [s.partition(c)] for a one-character separator: the text before the
    first [c], whether [c] was found, and the text after it. *)
Fixpoint partition_char (c : ascii) (s : string) : string * bool * string :=
  match s with
  | EmptyString => ("", false, "")
  | String d s' =>
      if Ascii.eqb c d then ("", true, s')
      else let '(a, found, b) := partition_char c s' in (String d a, found, b)
  end.

(** [sep.join(parts)]. *)
Fixpoint join (sep : string) (parts : list string) : string :=
  match parts with
  | [] => ""
  | [p] => p
  | p :: rest => p ++ sep ++ join sep rest
  end.

Definition is_decimal_digit (c : ascii) : bool :=
  (48 <=? Z.of_N (N_of_ascii c)) && (Z.of_N (N_of_ascii c) <=? 57).

Definition is_hex_digit (c : ascii) : bool :=
  let n := Z.of_N (N_of_ascii c) in
  ((48 <=? n) && (n <=? 57)) || ((65 <=? n) && (n <=? 70))
  || ((97 <=? n) && (n <=? 102)).

Fixpoint all_chars (p : ascii -> bool) (s : string) : bool :=
  match s with
  | EmptyString => true
  | String c s' => p c && all_chars p s'
  end.

(** [s.isascii() and s.isdigit()]: non-empty and made of the ten ASCII
    digits. *)
Definition isascii_isdigit (s : string) : bool :=
  negb (is_empty s) && all_chars is_decimal_digit s.

Definition hex_digit_value (c : ascii) : Z :=
  let n := Z.of_N (N_of_ascii c) in
  if n <=? 57 then n - 48 else if n <=? 70 then n - 55 else n - 87.

Fixpoint int_of_digits (base : Z) (acc : Z) (s : string) : Z :=
  match s with
  | EmptyString => acc
  | String c s' => int_of_digits base (base * acc + hex_digit_value c) s'
  end.

(** [int(s, 10)] and [int(s, 16)] on a non-empty string of digits of that
    base. *)
Definition int_base10 (s : string) : Z := int_of_digits 10 0 s.
Definition int_base16 (s : string) : Z := int_of_digits 16 0 s.

(** [str(n)] for an integer. *)
Definition str_int (n : Z) : string :=
  DecimalString.NilZero.string_of_int (Z.to_int n).

(** ['%x' % n] for [0 <= n]. *)
Definition hex_int (n : Z) : string :=
  HexadecimalString.NilZero.string_of_uint (N.to_hex_uint (Z.to_N n)).

(** [n.bit_length()]. *)
Definition bit_length (n : Z) : Z :=
  if n =? 0 then 0 else Z.log2 (Z.abs n) + 1.

(** ** The [ipaddress] module (CPython 3.11)

    Only what [main.py] reaches: parsing and printing of addresses and
    networks, the comparisons of addresses, [overlaps], [num_addresses] and
    [summarize_address_range]. *)

Module ipaddress.

Inductive version : Type := IPv4 | IPv6.

Definition version_eqb (v w : version) : bool :=
  match v, w with
  | IPv4, IPv4 | IPv6, IPv6 => true
  | _, _ => false
  end.

(** [_version], [_max_prefixlen] and [_ALL_ONES] of the two families. *)
Definition version_number (v : version) : Z :=
  match v with IPv4 => 4 | IPv6 => 6 end.

Definition max_prefixlen (v : version) : Z :=
  match v with IPv4 => 32 | IPv6 => 128 end.

Definition ALL_ONES (v : version) : Z := 2 ^ max_prefixlen v - 1.

(** An [IPv4Address] or [IPv6Address] object: its class, [_ip] and, for
    IPv6, [_scope_id] (always [None] for IPv4). *)
Record address : Type := Address {
  addr_version : version;
  addr_ip : Z;
  addr_scope_id : option string
}.

(** An [IPv4Network] or [IPv6Network] object.  Its netmask is determined by
    [_prefixlen] and is recomputed where it is needed. *)
Record network : Type := Network {
  network_address : address;
  prefixlen : Z
}.

Definition net_version (n : network) : version :=
  addr_version (network_address n).

Definition count_righthand_zero_bits (number bits : Z) : Z :=
  if number =? 0 then bits
  else Z.min bits (bit_length (Z.land (Z.lnot number) (number - 1))).

Definition check_int_address (v : version) (n : Z) : result unit :=
  if n <? 0 then
    Raise (Exn AddressValueError
      (Msg (str_int n ++ " (< 0) is not permitted as an IPv"
            ++ str_int (version_number v) ++ " address")))
  else if n >? ALL_ONES v then
    Raise (Exn AddressValueError
      (Msg (str_int n ++ " (>= 2**" ++ str_int (max_prefixlen v)
            ++ ") is not permitted as an IPv"
            ++ str_int (version_number v) ++ " address")))
  else Ok tt.

(** [IPv4Address(n)] and [IPv6Address(n)] for an integer [n]. *)
Definition address_of_int (v : version) (n : Z) : result address :=
  _ <- check_int_address v n ;;
  Ok (Address v n None).

(** *** IPv4 text *)

Definition parse_octet (octet_str : string) : result Z :=
  if is_empty octet_str then
    Raise (Exn ValueError (Msg "Empty octet not permitted"))
  else if negb (isascii_isdigit octet_str) then
    Raise (Exn ValueError (MsgRepr "Only decimal digits permitted in " octet_str ""))
  else if Z.of_nat (String.length octet_str) >? 3 then
    Raise (Exn ValueError (MsgRepr "At most 3 characters permitted in " octet_str ""))
  else if negb (String.eqb octet_str "0")
          && match octet_str with String "0" _ => true | _ => false end then
    Raise (Exn ValueError (MsgRepr "Leading zeros are not permitted in " octet_str ""))
  else
    let octet_int := int_base10 octet_str in
    if octet_int >? 255 then
      Raise (Exn ValueError
        (Msg ("Octet " ++ str_int octet_int ++ " (> 255) not permitted")))
    else Ok octet_int.

(** [int.from_bytes(bs, 'big')]. *)
Definition int_from_bytes (bs : list Z) : Z :=
  fold_left (fun acc b => 256 * acc + b) bs 0.

Definition ip_int_from_string_v4 (ip_str : string) : result Z :=
  if is_empty ip_str then
    Raise (Exn AddressValueError (Msg "Address cannot be empty"))
  else
    let octets := split "." ip_str in
    if negb (Nat.eqb (List.length octets) 4) then
      Raise (Exn AddressValueError (MsgRepr "Expected 4 octets in " ip_str ""))
    else
      catch_if is_ValueError
        (bs <- mapM parse_octet octets ;; Ok (int_from_bytes bs))
        (fun exc => Raise (Exn AddressValueError (MsgIn (exn_msg exc) ip_str))).

(** [IPv4Address(addr_str)] for a string. *)
Definition IPv4Address_of_str (addr_str : string) : result address :=
  if contains_char "/" addr_str then
    Raise (Exn AddressValueError (MsgRepr "Unexpected '/' in " addr_str ""))
  else
    n <- ip_int_from_string_v4 addr_str ;;
    Ok (Address IPv4 n None).

(** [ip_int.to_bytes(4, 'big')]. *)
Definition to_bytes4 (ip_int : Z) : list Z :=
  [Z.land (Z.shiftr ip_int 24) 255; Z.land (Z.shiftr ip_int 16) 255;
   Z.land (Z.shiftr ip_int 8) 255; Z.land ip_int 255].

Definition string_from_ip_int_v4 (ip_int : Z) : string :=
  join "." (map str_int (to_bytes4 ip_int)).

(** *** IPv6 text *)

Definition HEXTET_COUNT : Z := 8.

Definition parse_hextet (hextet_str : string) : result Z :=
  if negb (all_chars is_hex_digit hextet_str) then
    Raise (Exn ValueError (MsgRepr "Only hex digits permitted in " hextet_str ""))
  else if Z.of_nat (String.length hextet_str) >? 4 then
    Raise (Exn ValueError (MsgRepr "At most 4 characters permitted in " hextet_str ""))
  else if is_empty hextet_str then
    Raise (Exn ValueError (Msg "invalid literal for int() with base 16: ''"))
  else Ok (int_base16 hextet_str).

(** The scan [for i in range(1, len(parts) - 1)] for the one empty part that
    stands for ["::"]; [mid] is what remains of [parts[1:-1]] from index
    [i] on. *)
Fixpoint find_skip_index (ip_str : string) (i : Z) (mid : list string)
  (skip_index : option Z) : result (option Z) :=
  match mid with
  | [] => Ok skip_index
  | p :: mid' =>
      if is_empty p then
        match skip_index with
        | Some _ =>
            Raise (Exn AddressValueError
              (MsgRepr "At most one '::' permitted in " ip_str ""))
        | None => find_skip_index ip_str (i + 1) mid' (Some i)
        end
      else find_skip_index ip_str (i + 1) mid' skip_index
  end.

(** [for p in ps: ip_int <<= 16; ip_int |= parse_hextet(p)]. *)
Fixpoint shift_in_hextets (ip_int : Z) (ps : list string) : result Z :=
  match ps with
  | [] => Ok ip_int
  | p :: ps' =>
      h <- parse_hextet p ;;
      shift_in_hextets (Z.lor (Z.shiftl ip_int 16) h) ps'
  end.

Definition first_part (parts : list string) : string := hd "" parts.
Definition last_part (parts : list string) : string := last parts "".

Definition ip_int_from_string_v6 (ip_str : string) : result Z :=
  if is_empty ip_str then
    Raise (Exn AddressValueError (Msg "Address cannot be empty"))
  else
    let parts := split ":" ip_str in
    if Z.of_nat (List.length parts) <? 3 then
      Raise (Exn AddressValueError (MsgRepr "At least 3 parts expected in " ip_str ""))
    else
      parts <-
        (if contains_char "." (last_part parts) then
           ipv4 <- catch_if is_AddressValueError
                     (IPv4Address_of_str (last_part parts))
                     (fun exc =>
                        Raise (Exn AddressValueError (MsgIn (exn_msg exc) ip_str))) ;;
           let ipv4_int := addr_ip ipv4 in
           Ok (removelast parts
                 ++ [hex_int (Z.land (Z.shiftr ipv4_int 16) 65535);
                     hex_int (Z.land ipv4_int 65535)])%list
         else Ok parts) ;;
      let len := Z.of_nat (List.length parts) in
      if len >? HEXTET_COUNT + 1 then
        Raise (Exn AddressValueError (MsgRepr "At most 8 colons permitted in " ip_str ""))
      else
        skip_index <- find_skip_index ip_str 1 (removelast (tl parts)) None ;;
        '(parts_hi, parts_lo, parts_skipped) <-
          match skip_index with
          | Some skip_index =>
              let parts_hi := skip_index in
              let parts_lo := len - skip_index - 1 in
              parts_hi <-
                (if is_empty (first_part parts) then
                   if negb (parts_hi - 1 =? 0) then
                     Raise (Exn AddressValueError
                       (MsgRepr "Leading ':' only permitted as part of '::' in " ip_str ""))
                   else Ok (parts_hi - 1)
                 else Ok parts_hi) ;;
              parts_lo <-
                (if is_empty (last_part parts) then
                   if negb (parts_lo - 1 =? 0) then
                     Raise (Exn AddressValueError
                       (MsgRepr "Trailing ':' only permitted as part of '::' in " ip_str ""))
                   else Ok (parts_lo - 1)
                 else Ok parts_lo) ;;
              let parts_skipped := HEXTET_COUNT - (parts_hi + parts_lo) in
              if parts_skipped <? 1 then
                Raise (Exn AddressValueError
                  (MsgRepr "Expected at most 7 other parts with '::' in " ip_str ""))
              else Ok (parts_hi, parts_lo, parts_skipped)
          | None =>
              if negb (len =? HEXTET_COUNT) then
                Raise (Exn AddressValueError
                  (MsgRepr "Exactly 8 parts expected without '::' in " ip_str ""))
              else if is_empty (first_part parts) then
                Raise (Exn AddressValueError
                  (MsgRepr "Leading ':' only permitted as part of '::' in " ip_str ""))
              else if is_empty (last_part parts) then
                Raise (Exn AddressValueError
                  (MsgRepr "Trailing ':' only permitted as part of '::' in " ip_str ""))
              else Ok (len, 0, 0)
          end ;;
        catch_if is_ValueError
          (ip_int <- shift_in_hextets 0 (firstn (Z.to_nat parts_hi) parts) ;;
           let ip_int := Z.shiftl ip_int (16 * parts_skipped) in
           shift_in_hextets ip_int (skipn (Z.to_nat (len - parts_lo)) parts))
          (fun exc => Raise (Exn AddressValueError (MsgIn (exn_msg exc) ip_str))).

Definition double_quote : string := String (ascii_of_nat 34) EmptyString.

Definition split_scope_id (ip_str : string) : result (string * option string) :=
  let '(addr, sep, scope_id) := partition_char "%" ip_str in
  if negb sep then Ok (addr, None)
  else if is_empty scope_id || contains_char "%" scope_id then
    Raise (Exn AddressValueError
      (MsgRepr ("Invalid IPv6 address: " ++ double_quote) ip_str double_quote))
  else Ok (addr, Some scope_id).

(** [IPv6Address(addr_str)] for a string. *)
Definition IPv6Address_of_str (addr_str : string) : result address :=
  if contains_char "/" addr_str then
    Raise (Exn AddressValueError (MsgRepr "Unexpected '/' in " addr_str ""))
  else
    '(addr, scope_id) <- split_scope_id addr_str ;;
    n <- ip_int_from_string_v6 addr ;;
    Ok (Address IPv6 n scope_id).

(** [_compress_hextets]: the scan for the longest run of ["0"] hextets.
    The state is [(best_doublecolon_start, best_doublecolon_len,
    doublecolon_start, doublecolon_len)]. *)
Fixpoint best_doublecolon (index : Z) (hextets : list string)
  (st : Z * Z * Z * Z) : Z * Z :=
  let '(best_start, best_len, cur_start, cur_len) := st in
  match hextets with
  | [] => (best_start, best_len)
  | hextet :: rest =>
      if String.eqb hextet "0" then
        let cur_len := cur_len + 1 in
        let cur_start := if cur_start =? -1 then index else cur_start in
        if cur_len >? best_len
        then best_doublecolon (index + 1) rest (cur_start, cur_len, cur_start, cur_len)
        else best_doublecolon (index + 1) rest (best_start, best_len, cur_start, cur_len)
      else best_doublecolon (index + 1) rest (best_start, best_len, -1, 0)
  end.

Definition compress_hextets (hextets : list string) : list string :=
  let '(best_start, best_len) := best_doublecolon 0 hextets (-1, 0, -1, 0) in
  if best_len >? 1 then
    let best_end := best_start + best_len in
    let hextets :=
      if best_end =? Z.of_nat (List.length hextets)
      then (hextets ++ [""])%list else hextets in
    let hextets :=
      (firstn (Z.to_nat best_start) hextets ++ [""]
       ++ skipn (Z.to_nat best_end) hextets)%list in
    if best_start =? 0 then "" :: hextets else hextets
  else hextets.

(** The eight hextets of ['%032x' % ip_int], each printed with ['%x']. *)
Definition hextets_of_int (ip_int : Z) : list string :=
  map (fun i => hex_int (Z.land (Z.shiftr ip_int (16 * (7 - i))) 65535))
      [0; 1; 2; 3; 4; 5; 6; 7].

Definition string_from_ip_int_v6 (ip_int : Z) : string :=
  join ":" (compress_hextets (hextets_of_int ip_int)).

(** [str(a)] for an address. *)
Definition str_address (a : address) : string :=
  match addr_version a with
  | IPv4 => string_from_ip_int_v4 (addr_ip a)
  | IPv6 =>
      let ip_str := string_from_ip_int_v6 (addr_ip a) in
      match addr_scope_id a with
      | Some scope => if is_empty scope then ip_str else ip_str ++ "%" ++ scope
      | None => ip_str
      end
  end.

(** *** Comparison and arithmetic of addresses

    [_BaseAddress] defines [__eq__] and [__lt__]; [functools.total_ordering]
    derives [>] as [not a < b and a != b] and [<=] as [a < b or a == b]. *)

Definition scope_eqb (s t : option string) : bool :=
  match s, t with
  | None, None => true
  | Some x, Some y => String.eqb x y
  | _, _ => false
  end.

Definition addr_eq (a b : address) : bool :=
  (addr_ip a =? addr_ip b)
  && version_eqb (addr_version a) (addr_version b)
  && match addr_version a with
     | IPv4 => true
     | IPv6 => scope_eqb (addr_scope_id a) (addr_scope_id b)
     end.

Definition addr_lt (a b : address) : result bool :=
  if negb (version_eqb (addr_version a) (addr_version b)) then
    Raise (Exn TypeError
      (Msg (str_address a ++ " and " ++ str_address b
            ++ " are not of the same version")))
  else Ok (addr_ip a <? addr_ip b).

Definition addr_gt (a b : address) : result bool :=
  lt <- addr_lt a b ;; Ok (negb lt && negb (addr_eq a b)).

Definition addr_le (a b : address) : result bool :=
  lt <- addr_lt a b ;; Ok (lt || addr_eq a b).

(** [a + n] and [a - n]: [self.__class__(int(self) + n)]. *)
Definition addr_add (a : address) (n : Z) : result address :=
  address_of_int (addr_version a) (addr_ip a + n).

Definition addr_sub (a : address) (n : Z) : result address :=
  address_of_int (addr_version a) (addr_ip a - n).

(** *** Networks *)

Definition ip_int_from_prefix (v : version) (prefixlen : Z) : Z :=
  Z.lxor (ALL_ONES v) (Z.shiftr (ALL_ONES v) prefixlen).

Definition report_invalid_netmask {A : Type} (netmask_str : string) : result A :=
  Raise (Exn NetmaskValueError (MsgRepr "" netmask_str " is not a valid netmask")).

Definition prefix_from_prefix_string (v : version) (prefixlen_str : string) : result Z :=
  if negb (isascii_isdigit prefixlen_str) then report_invalid_netmask prefixlen_str
  else
    let prefixlen := int_base10 prefixlen_str in
    if negb ((0 <=? prefixlen) && (prefixlen <=? max_prefixlen v))
    then report_invalid_netmask prefixlen_str
    else Ok prefixlen.

Definition prefix_from_ip_int (v : version) (ip_int : Z) : result Z :=
  let trailing_zeroes := count_righthand_zero_bits ip_int (max_prefixlen v) in
  let prefixlen := max_prefixlen v - trailing_zeroes in
  let leading_ones := Z.shiftr ip_int trailing_zeroes in
  let all_ones := Z.shiftl 1 prefixlen - 1 in
  if negb (leading_ones =? all_ones) then
    Raise (Exn ValueError
      (MsgRepr "Netmask pattern " (str_int ip_int) " mixes zeroes & ones"))
  else Ok prefixlen.

(** Only the IPv4 classes reach [_prefix_from_ip_string]. *)
Definition prefix_from_ip_string (ip_str : string) : result Z :=
  ip_int <- catch_if is_AddressValueError (ip_int_from_string_v4 ip_str)
              (fun _ => report_invalid_netmask ip_str) ;;
  catch_if is_ValueError (prefix_from_ip_int IPv4 ip_int)
    (fun _ =>
       let ip_int := Z.lxor ip_int (ALL_ONES IPv4) in
       catch_if is_ValueError (prefix_from_ip_int IPv4 ip_int)
         (fun _ => report_invalid_netmask ip_str)).

(** The argument of a network constructor: text, or the pair
    [(address, prefixlen)] of integers that [summarize_address_range]
    passes. *)
Inductive network_arg : Type :=
| FromStr (text : string)
| FromPair (ip_int : Z) (prefixlen : Z).

(** The address and the mask [_split_addr_prefix] hands back. *)
Inductive addr_part : Type := AddrStr (s : string) | AddrInt (n : Z).
Inductive mask_part : Type := MaskStr (s : string) | MaskInt (n : Z).

Definition split_optional_netmask (address : string) : result (list string) :=
  let addr := split "/" address in
  if Z.of_nat (List.length addr) >? 2 then
    Raise (Exn AddressValueError (MsgRepr "Only one '/' permitted in " address ""))
  else Ok addr.

Definition split_addr_prefix (v : version) (arg : network_arg)
  : result (addr_part * mask_part) :=
  match arg with
  | FromPair n p => Ok (AddrInt n, MaskInt p)
  | FromStr text =>
      address <- split_optional_netmask text ;;
      match address with
      | [a; m] => Ok (AddrStr a, MaskStr m)
      | _ => Ok (AddrStr (hd "" address), MaskInt (max_prefixlen v))
      end
  end.

Definition make_netmask (v : version) (arg : mask_part) : result Z :=
  match arg with
  | MaskInt prefixlen =>
      if negb ((0 <=? prefixlen) && (prefixlen <=? max_prefixlen v))
      then Raise (Exn NetmaskValueError
             (Msg (str_int prefixlen ++ " is not a valid netmask")))
      else Ok prefixlen
  | MaskStr s =>
      match v with
      | IPv4 =>
          catch_if is_NetmaskValueError (prefix_from_prefix_string IPv4 s)
            (fun _ => prefix_from_ip_string s)
      | IPv6 => prefix_from_prefix_string IPv6 s
      end
  end.

Definition address_of_part (v : version) (a : addr_part) : result address :=
  match a with
  | AddrInt n => address_of_int v n
  | AddrStr s =>
      match v with
      | IPv4 => IPv4Address_of_str s
      | IPv6 => IPv6Address_of_str s
      end
  end.

Definition netmask_int (n : network) : Z :=
  ip_int_from_prefix (net_version n) (prefixlen n).

(** [str(n)] for a network: ['%s/%d' % (network_address, prefixlen)]. *)
Definition str_network (n : network) : string :=
  str_address (network_address n) ++ "/" ++ str_int (prefixlen n).

(** [IPv4Network(arg, strict)] and [IPv6Network(arg, strict)]. *)
Definition network_init (v : version) (arg : network_arg) (strict : bool)
  : result network :=
  '(addr, mask) <- split_addr_prefix v arg ;;
  network_address <- address_of_part v addr ;;
  prefixlen <- make_netmask v mask ;;
  let packed := addr_ip network_address in
  let netmask := ip_int_from_prefix v prefixlen in
  if negb (Z.land packed netmask =? packed) then
    if strict then
      Raise (Exn ValueError
        (Msg (str_network (Network network_address prefixlen)
              ++ " has host bits set")))
    else
      network_address <- address_of_int v (Z.land packed netmask) ;;
      Ok (Network network_address prefixlen)
  else Ok (Network network_address prefixlen).

(** [ip_network(address, strict)] for a string. *)
Definition ip_network (address : string) (strict : bool) : result network :=
  catch_if is_Address_or_Netmask (network_init IPv4 (FromStr address) strict)
    (fun _ =>
       catch_if is_Address_or_Netmask (network_init IPv6 (FromStr address) strict)
         (fun _ =>
            Raise (Exn ValueError
              (MsgRepr "" address " does not appear to be an IPv4 or IPv6 network")))).

(** [ip_address(address)] for a string and for an integer. *)
Definition ip_address_of_str (text : string) : result address :=
  catch_if is_Address_or_Netmask (IPv4Address_of_str text)
    (fun _ =>
       catch_if is_Address_or_Netmask (IPv6Address_of_str text)
         (fun _ =>
            Raise (Exn ValueError
              (MsgRepr "" text " does not appear to be an IPv4 or IPv6 address")))).

Definition ip_address_of_int (n : Z) : result address :=
  catch_if is_Address_or_Netmask (address_of_int IPv4 n)
    (fun _ =>
       catch_if is_Address_or_Netmask (address_of_int IPv6 n)
         (fun _ =>
            Raise (Exn ValueError
              (Msg (str_int n ++ " does not appear to be an IPv4 or IPv6 address"))))).

(** [hostmask], [broadcast_address] and [num_addresses].  The address
    objects are built without the range check of [_address_class]: it
    passes for every network the constructors return (lemma
    [broadcast_in_range]). *)
Definition hostmask_int (n : network) : Z :=
  Z.lxor (netmask_int n) (ALL_ONES (net_version n)).

Definition broadcast_address (n : network) : address :=
  Address (net_version n)
    (Z.lor (addr_ip (network_address n)) (hostmask_int n)) None.

Definition num_addresses (n : network) : Z :=
  addr_ip (broadcast_address n) - addr_ip (network_address n) + 1.

(** [a in n] for an address [a]. *)
Definition contains (n : network) (a : address) : bool :=
  if negb (version_eqb (net_version n) (addr_version a)) then false
  else Z.land (addr_ip a) (netmask_int n) =? addr_ip (network_address n).

Definition overlaps (self other : network) : bool :=
  contains other (network_address self)
  || (contains other (broadcast_address self)
      || (contains self (network_address other)
          || contains self (broadcast_address other))).

(** *** [summarize_address_range] *)

(** Enough iterations for the [while] loop of [summarize_address_range]
    (lemma [summarize_loop_terminates]). *)
Definition loop_fuel (v : version) : nat := Z.to_nat (2 * max_prefixlen v + 1).

(** The [while first_int <= last_int] loop; the networks it yields are
    collected in a list.  [None] only when [fuel] iterations did not end
    it. *)
Fixpoint summarize_loop (fuel : nat) (v : version) (first_int last_int : Z)
  : option (result (list network)) :=
  if first_int <=? last_int then
    match fuel with
    | O => None
    | S fuel' =>
        let ip_bits := max_prefixlen v in
        let nbits := Z.min (count_righthand_zero_bits first_int ip_bits)
                           (bit_length (last_int - first_int + 1) - 1) in
        match network_init v (FromPair first_int (ip_bits - nbits)) true with
        | Raise e => Some (Raise e)
        | Ok net =>
            let first_int := first_int + Z.shiftl 1 nbits in
            if first_int - 1 =? ALL_ONES v then Some (Ok [net])
            else
              match summarize_loop fuel' v first_int last_int with
              | Some (Ok nets) => Some (Ok (net :: nets))
              | Some (Raise e) => Some (Raise e)
              | None => None
              end
        end
    end
  else Some (Ok []).

Definition summarize_address_range (first last : address) : result (list network) :=
  if negb (version_eqb (addr_version first) (addr_version last)) then
    Raise (Exn TypeError
      (Msg (str_address first ++ " and " ++ str_address last
            ++ " are not of the same version")))
  else
    gt <- addr_gt first last ;;
    if gt then
      Raise (Exn ValueError (Msg "last IP address must be greater than first"))
    else
      match summarize_loop (loop_fuel (addr_version first)) (addr_version first)
              (addr_ip first) (addr_ip last) with
      | Some r => r
      | None => Ok []
      end.

End ipaddress.

(** ** The program: [main.py] *)

Import ipaddress.

(** One element of the list [ip_range_to_cidr] returns: the text [str(net)]
    of a block, or the text [f"Error: {e}"] built from the message of the
    exception [e]. *)
Inductive cidr_entry : Type :=
| Cidr (text : string)
| ErrorEntry (e : message).

(** [{"gap": ..., "cidr": ...}]. *)
Record gap_record : Type := GapRecord {
  gap : string;
  cidr : list cidr_entry
}.

(** The dictionaries [find_vnet_gaps] reads and writes.  A key that
    [.get(key, [])] looks up may be absent; the keys the function does not
    touch are kept as they are. *)
Record subnet : Type := Subnet {
  subnet_name : string;
  subnet_address_prefixes : option (list string);
  subnet_address_count : Z
}.

Record vnet : Type := Vnet {
  vnet_name : string;
  vnet_location : string;
  address_prefixes : option (list string);
  address_count : Z;
  subnets : option (list subnet);
  gaps : list gap_record
}.

(** [d.get(key, [])]. *)
Definition get_or_empty {A : Type} (o : option (list A)) : list A :=
  match o with
  | Some l => l
  | None => []
  end.

Definition ip_range_to_cidr (start_ip end_ip : string) : result (list cidr_entry) :=
  catch_if is_ValueError
    (start <- ip_address_of_str start_ip ;;
     let start_int := addr_ip start in
     end_ <- ip_address_of_str end_ip ;;
     let end_int := addr_ip end_ in
     if start_int >? end_int then
       Raise (Exn ValueError (Msg "Start IP must be less than or equal to end IP."))
     else
       first <- ip_address_of_int start_int ;;
       last <- ip_address_of_int end_int ;;
       nets <- summarize_address_range first last ;;
       Ok (map (fun net => Cidr (str_network net)) nets))
    (fun e => Ok [ErrorEntry (exn_msg e)]).

(** [count_ip_addresses]: what it prints, and what it returns. *)
Definition count_ip_addresses (cidr : string) : list string * result Z :=
  match ip_network cidr true with
  | Ok ip_network => ([], Ok (num_addresses ip_network))
  | Raise e =>
      if is_ValueError e then (["Invalid CIDR block: " ++ cidr], Ok 0)
      else ([], Raise e)
  end.

(** An uncovered interval [(first, last)]; the program keeps it as the text
    [f"{first} - {last}"], which is [gap_text] of it. *)
Definition interval : Type := (address * address)%type.

Definition gap_text (iv : interval) : string :=
  str_address (fst iv) ++ " - " ++ str_address (snd iv).

(** [relevant_subnets.sort(key=lambda x: x.network_address)]: a stable sort
    by [<] on the keys.  The subnets sorted all overlap one address space, so
    they are of its family (lemma [overlaps_same_version]) and [<] compares
    the integers of their network addresses. *)
Fixpoint insert_by_network_address (x : network) (l : list network) : list network :=
  match l with
  | [] => [x]
  | y :: l' =>
      if addr_ip (network_address y) <? addr_ip (network_address x)
      then y :: insert_by_network_address x l'
      else x :: y :: l'
  end.

Fixpoint sort_by_network_address (l : list network) : list network :=
  match l with
  | [] => []
  | x :: l' => insert_by_network_address x (sort_by_network_address l')
  end.

(** One turn of [for subnet in relevant_subnets]. *)
Definition sweep_step (st : address * list interval) (subnet : network)
  : result (address * list interval) :=
  let '(current_address, gaps) := st in
  gt <- addr_gt (network_address subnet) current_address ;;
  gaps <-
    (if gt then
       before <- addr_sub (network_address subnet) 1 ;;
       Ok (gaps ++ [(current_address, before)])%list
     else Ok gaps) ;;
  current_address <- addr_add (broadcast_address subnet) 1 ;;
  Ok (current_address, gaps).

Fixpoint sweep (st : address * list interval) (relevant_subnets : list network)
  : result (address * list interval) :=
  match relevant_subnets with
  | [] => Ok st
  | subnet :: rest => st' <- sweep_step st subnet ;; sweep st' rest
  end.

(** The body of [for vnet_space in address_spaces]: it appends to [gaps]. *)
Definition space_gaps (subnets : list network) (gaps : list interval)
  (vnet_space : network) : result (list interval) :=
  let relevant_subnets := filter (fun s => overlaps vnet_space s) subnets in
  let relevant_subnets := sort_by_network_address relevant_subnets in
  '(current_address, gaps) <- sweep (network_address vnet_space, gaps) relevant_subnets ;;
  le <- addr_le current_address (broadcast_address vnet_space) ;;
  if le then Ok (gaps ++ [(current_address, broadcast_address vnet_space)])%list
  else Ok gaps.

Fixpoint all_space_gaps (subnets : list network) (gaps : list interval)
  (address_spaces : list network) : result (list interval) :=
  match address_spaces with
  | [] => Ok gaps
  | vnet_space :: rest =>
      gaps <- space_gaps subnets gaps vnet_space ;;
      all_space_gaps subnets gaps rest
  end.

(** The record of one gap text: the pieces of [gap.split(" - ")] are
    unpacked into the two arguments of [ip_range_to_cidr], and any other
    number of pieces is a [TypeError] of the call. *)
Definition gap_record_of (gap : string) : result gap_record :=
  match split " - " gap with
  | [start_ip; end_ip] =>
      cidr <- ip_range_to_cidr start_ip end_ip ;;
      Ok (GapRecord gap cidr)
  | [_] =>
      Raise (Exn TypeError
        (Msg "ip_range_to_cidr() missing 1 required positional argument: 'end_ip'"))
  | parts =>
      Raise (Exn TypeError
        (Msg ("ip_range_to_cidr() takes 2 positional arguments but "
              ++ str_int (Z.of_nat (List.length parts)) ++ " were given")))
  end.

(** Lines 43 to 64: from the parsed address spaces and subnets of one
    virtual network to its gap records. *)
Definition vnet_gaps (address_spaces subnets : list network) : result (list gap_record) :=
  gaps <- all_space_gaps subnets [] address_spaces ;;
  mapM gap_record_of (map gap_text gaps).

(** The body of [for vnet in vnets]. *)
Definition find_gaps_of_vnet (v : vnet) : result vnet :=
  address_spaces <-
    mapM (fun cidr => ip_network cidr false) (get_or_empty (address_prefixes v)) ;;
  subnet_networks <-
    mapM (fun subnet_cidr => ip_network subnet_cidr false)
      (flat_map (fun s => get_or_empty (subnet_address_prefixes s))
         (get_or_empty (subnets v))) ;;
  records <- vnet_gaps address_spaces subnet_networks ;;
  Ok (Vnet (vnet_name v) (vnet_location v) (address_prefixes v) (address_count v)
        (subnets v) records).

Definition find_vnet_gaps (vnets : list vnet) : result (list vnet) :=
  mapM find_gaps_of_vnet vnets.

(** The gap finder on one container and its sub-ranges: [find_vnet_gaps] on
    a virtual network with the one address space [container]. *)
Definition find_gaps (container : network) (sub_ranges : list network)
  : result (list gap_record) :=
  vnet_gaps [container] sub_ranges.

(** [sum(count_ip_addresses(cidr) for cidr in prefixes)], the
    ["address_count"] the report computes for a virtual network and for
    each of its subnets: the lines printed on the way, and the sum.
    [sum] starts from 0 and adds the counts from left to right. *)
Fixpoint sum_count_ip_addresses_from (total : Z) (prefixes : list string)
  : list string * result Z :=
  match prefixes with
  | [] => ([], Ok total)
  | cidr :: rest =>
      let '(printed, r) := count_ip_addresses cidr in
      match r with
      | Ok n =>
          let '(printed', r') := sum_count_ip_addresses_from (total + n) rest in
          ((printed ++ printed')%list, r')
      | Raise e => (printed, Raise e)
      end
  end.

Definition sum_count_ip_addresses (prefixes : list string) : list string * result Z :=
  sum_count_ip_addresses_from 0 prefixes.

(** * Notions of the statements

    What the theorems below speak of: the invariant of the objects the
    constructors build, the intervals of networks and gaps, and the
    properties of a summary and of a sweep. *)

(** ** Exceptions *)

(** Every exception the computation [r] can raise satisfies [P]. *)
Definition raises_only (P : exn -> bool) {A : Type} (r : result A) : Prop :=
  match r with
  | Ok _ => True
  | Raise e => P e = true
  end.

(** ** Networks as intervals *)

(** The first and last address of a network, as integers, and the number of
    its host bits. *)
Definition first_int (n : network) : Z := addr_ip (network_address n).
Definition last_int (n : network) : Z := addr_ip (broadcast_address n).
Definition host_bits (n : network) : Z := max_prefixlen (net_version n) - prefixlen n.

(** The invariant of an address object: [_ip] fits the family's width, and
    only an IPv6 address has a scope. *)
Definition wf_addressb (a : address) : bool :=
  (0 <=? addr_ip a) && (addr_ip a <=? ALL_ONES (addr_version a))
  && match addr_version a, addr_scope_id a with
     | IPv4, Some _ => false
     | _, _ => true
     end.

(** The invariant of a network object: a prefix length within the width,
    and a network address with its host bits cleared. *)
Definition wf_networkb (n : network) : bool :=
  wf_addressb (network_address n)
  && (0 <=? prefixlen n) && (prefixlen n <=? max_prefixlen (net_version n))
  && (first_int n mod 2 ^ host_bits n =? 0).

Definition wf_address (a : address) : Prop := wf_addressb a = true.
Definition wf_network (n : network) : Prop := wf_networkb n = true.

(** A prefix in the sense of the specification, (family, address, length),
    is a network whose address carries no IPv6 zone identifier. *)
Definition unscoped (n : network) : Prop :=
  addr_scope_id (network_address n) = None.

(** A sub-range the gap finder is to ignore for a container: of the other
    family, or with an interval that does not meet the container's. *)
Definition ignored (container s : network) : bool :=
  negb (version_eqb (net_version container) (net_version s))
  || (last_int container <? first_int s)
  || (last_int s <? first_int container).

(** ** Summaries *)

(** The number of trailing zero bits of a positive number. *)
Fixpoint pos_trailing_zeros (p : positive) : Z :=
  match p with
  | xO q => 1 + pos_trailing_zeros q
  | _ => 0
  end.

(** A block of the summary of a range that ends at [l]: a network of family
    [v] without zone identifier that ends within the range, such that no
    larger aligned block with the same first address does. *)
Definition greatest_block (v : version) (l : Z) (n : network) : Prop :=
  wf_network n /\ net_version n = v /\ unscoped n /\ last_int n <= l
  /\ forall h, host_bits n < h <= max_prefixlen v ->
       first_int n mod 2 ^ h <> 0 \/ l < first_int n + 2 ^ h - 1.

(** [summarizes v l f nets]: [nets] are greatest blocks, the first starts
    at [f], each next one starts right after the one before, and the last
    ends at [l]. *)
Inductive summarizes (v : version) (l : Z) : Z -> list network -> Prop :=
| summarizes_nil f : l < f -> summarizes v l f []
| summarizes_cons f n rest :
    f <= l -> first_int n = f -> greatest_block v l n ->
    summarizes v l (last_int n + 1) rest ->
    summarizes v l f (n :: rest).

(** The number of host bits the loop chooses for the block at [f]. *)
Definition loop_nbits (v : version) (f l : Z) : Z :=
  Z.min (count_righthand_zero_bits f (max_prefixlen v))
        (bit_length (l - f + 1) - 1).

(** A bound on the iterations left at [f]: while the alignment of [f] is
    what limits a block, each block is aligned higher than the one before;
    once the rest of the range limits it, each rest is shorter by at least
    one bit. *)
Definition steps_bound (v : version) (f l : Z) : Z :=
  if l <? f then 0
  else
    let c := count_righthand_zero_bits f (max_prefixlen v) in
    let k := Z.log2 (l - f + 1) in
    if k <=? c then k + 1 else 2 * max_prefixlen v + 1 - c.

(** The blocks cover exactly the addresses from [f] to [l]. *)
Definition exactly_covers (nets : list network) (f l : Z) : Prop :=
  forall x,
    (exists n, In n nets /\ first_int n <= x <= last_int n) <-> f <= x <= l.

(** The blocks are in ascending order and no two of them share an
    address. *)
Definition ascending_disjoint (nets : list network) : Prop :=
  ForallOrdPairs (fun a b => last_int a < first_int b) nets.

(** [c] is a single CIDR block that covers exactly what the neighbours [a]
    and [b] cover together. *)
Definition merged_block (a b c : network) : Prop :=
  wf_network c /\ net_version c = net_version a
  /\ first_int c = first_int a /\ last_int c = last_int b.

(** No two neighbours of the list can be replaced by one CIDR block. *)
Definition no_adjacent_merge (nets : list network) : Prop :=
  forall pre a b post c,
    nets = (pre ++ a :: b :: post)%list -> ~ merged_block a b c.

(** ** Sweeps *)

(** The address with integer [x] lies in the gap [iv], in the network
    [n]. *)
Definition in_interval (x : Z) (iv : interval) : Prop :=
  addr_ip (fst iv) <= x <= addr_ip (snd iv).

Definition in_network (x : Z) (n : network) : Prop :=
  first_int n <= x <= last_int n.

(** The networks [a] and [b] share no address. *)
Definition disjoint_networks (a b : network) : Prop :=
  last_int a < first_int b \/ last_int b < first_int a.

(** What the sweep needs of a subnet it meets: of the cursor's family,
    without zone identifier, overlapping the container [c], and not ending
    at the last address of the family. *)
Definition sweepable (v : version) (c s : network) : Prop :=
  wf_network s /\ net_version s = v /\ unscoped s
  /\ last_int s < ALL_ONES v
  /\ first_int s <= last_int c /\ first_int c <= last_int s.

(** The state of the sweep at cursor [u], after the subnets [processed]:
    the gaps emitted so far lie in the container below the cursor, and
    below the cursor an address of the container is in a gap exactly when
    no processed subnet holds it. *)
Definition sweep_inv (v : version) (c : network) (u : Z)
  (gaps : list interval) (processed : list network) : Prop :=
  first_int c <= u
  /\ Forall (fun iv =>
               addr_version (fst iv) = v /\ addr_version (snd iv) = v
               /\ first_int c <= addr_ip (fst iv) <= addr_ip (snd iv)
               /\ addr_ip (snd iv) < u /\ addr_ip (snd iv) <= last_int c) gaps
  /\ Forall (fun s => last_int s < u) processed
  /\ forall x, first_int c <= x < u ->
       ((exists iv, In iv gaps /\ in_interval x iv)
        <-> ~ exists s, In s processed /\ in_network x s).

(** ** Gap records *)

(** A record that summarizes the gap [iv]: its text is the text of the gap,
    and its blocks are those of networks of the family [v] that cover
    exactly the gap, in ascending order, with no two neighbours that could
    be merged. *)
Definition summarized_gap (v : version) (iv : interval) (r : gap_record) : Prop :=
  gap r = gap_text iv
  /\ exists nets,
       cidr r = map (fun net => Cidr (str_network net)) nets
       /\ Forall (fun n => wf_network n /\ net_version n = v /\ unscoped n) nets
       /\ exactly_covers nets (addr_ip (fst iv)) (addr_ip (snd iv))
       /\ ascending_disjoint nets
       /\ no_adjacent_merge nets.

(** ** Texts *)

(** What the round trip needs of the decimal text of one octet: it parses
    back to the octet, and holds no dot, no blank and no slash. *)
Definition octet_text_ok (b : Z) : bool :=
  match parse_octet (str_int b) with
  | Ok n => n =? b
  | Raise _ => false
  end
  && negb (contains_char "." (str_int b))
  && negb (contains_char " " (str_int b))
  && negb (contains_char "/" (str_int b)).

(** ** The sweep, computed *)

(** What [sweep] computes from the state [st] on subnets of the cursor's
    family [v], as long as no address leaves the family's range: after a
    subnet the cursor is the address after its last, and a gap is emitted
    before a subnet that starts above the cursor. *)
Fixpoint swept (v : version) (st : address * list interval) (l : list network)
  : address * list interval :=
  match l with
  | [] => st
  | s :: rest =>
      swept v
        (Address v (last_int s + 1) None,
         if addr_ip (fst st) <? first_int s
         then (snd st ++ [(fst st, Address v (first_int s - 1) None)])%list
         else snd st)
        rest
  end.


Definition sum_Z (l : list Z) : Z := fold_right Z.add 0 l.

(** At least one address lies between the gap [a] and the gap [b] after
    it. *)
Definition separated (a b : interval) : Prop :=
  addr_ip (snd a) + 1 < addr_ip (fst b).

(** The gaps [space_gaps] leaves for the address space [c], started without
    gaps: those of the sweep over the subnets that overlap [c], in the
    order of their first addresses, and the gap from the last cursor to the
    end of [c] if the cursor has not passed it. *)
Definition space_gaps_of (c : network) (subs : list network) : list interval :=
  let st := swept (net_version c) (network_address c, [])
              (sort_by_network_address (filter (fun s => overlaps c s) subs)) in
  if addr_ip (fst st) <=? last_int c
  then (snd st ++ [(fst st, broadcast_address c)])%list
  else snd st.

(** A gap of the address space [c]: two addresses of its family without
    zone identifier, the first not above the last, both within [c]. *)
Definition gap_within (c : network) (iv : interval) : Prop :=
  addr_version (fst iv) = net_version c /\ addr_version (snd iv) = net_version c
  /\ addr_scope_id (fst iv) = None /\ addr_scope_id (snd iv) = None
  /\ first_int c <= addr_ip (fst iv)
  /\ addr_ip (fst iv) <= addr_ip (snd iv)
  /\ addr_ip (snd iv) <= last_int c.

(** ** Texts of prefixes *)

(** What the round trip needs of the decimal text of one prefix length of
    the family [v]: [_make_netmask] reads it back as the length, and it
    holds no slash. *)
Definition prefix_text_ok (v : version) (p : Z) : bool :=
  match make_netmask v (MaskStr (str_int p)) with
  | Ok q => q =? p
  | Raise _ => false
  end
  && negb (contains_char "/" (str_int p)).

(** What the address counter counts for a text, and whether it prints its
    line for it. *)
Definition counted (cidr : string) : Z :=
  match ip_network cidr true with
  | Ok n => num_addresses n
  | Raise _ => 0
  end.

Definition rejected (cidr : string) : bool :=
  match ip_network cidr true with
  | Ok _ => false
  | Raise _ => true
  end.

(** What the round trip needs of the hexadecimal text of one hextet: it
    parses back to the hextet, is not empty, is ["0"] for 0 only, and holds
    none of the characters that separate the parts of a text. *)
Definition hextet_text_ok (h : Z) : bool :=
  match parse_hextet (hex_int h) with
  | Ok n => n =? h
  | Raise _ => false
  end
  && negb (is_empty (hex_int h))
  && Bool.eqb (String.eqb (hex_int h) "0") (h =? 0)
  && negb (contains_char ":" (hex_int h))
  && negb (contains_char "." (hex_int h))
  && negb (contains_char " " (hex_int h))
  && negb (contains_char "/" (hex_int h))
  && negb (contains_char "%" (hex_int h)).

(** [p] holds of the [count] integers from [start] on. *)
Fixpoint forall_from (p : Z -> bool) (start : Z) (count : nat) : bool :=
  match count with
  | O => true
  | S k => p start && forall_from p (start + 1) k
  end.

(** The integer that hextets spell after [acc], the first hextet being the
    most significant: what [shift_in_hextets] computes on their texts. *)
Definition hextets_value (acc : Z) (ds : list Z) : Z :=
  fold_left (fun a d => a * 2 ^ 16 + d) ds acc.

(** The eight hextets of a 128-bit integer. *)
Definition hextet_digits (n : Z) : list Z :=
  map (fun i => Z.land (Z.shiftr n (16 * (7 - i))) 65535) [0; 1; 2; 3; 4; 5; 6; 7].

(** A run of ["0"] hextets in [hextets], [len] of them from index [start]
    on, as [best_doublecolon] reports it; a report with [len <= 1] is not
    used. *)
Definition zero_run (hextets : list string) (run : Z * Z) : Prop :=
  let '(start, len) := run in
  len <= 1
  \/ (0 <= start /\ 0 <= len /\ start + len <= Z.of_nat (List.length hextets)
      /\ Forall (fun h => h = "0")
           (firstn (Z.to_nat len) (skipn (Z.to_nat start) hextets))).

(** ** Families and integers *)

(** The addresses of [c] keep their family when [ip_range_to_cidr] turns
    them into integers and back: [c] is an IPv4 network, or an IPv6 network
    that starts at 2^32 or above. *)
Definition keeps_family (c : network) : Prop :=
  net_version c = IPv4 \/ ALL_ONES IPv4 < first_int c.

(** * Properties *)

(** ** Which exceptions a computation can raise *)

Section RaisesOnly.

Variable P : exn -> bool.

Lemma raises_only_bind {A B : Type} (c : result A) (k : A -> result B) :
  raises_only P c -> (forall a, c = Ok a -> raises_only P (k a)) ->
  raises_only P (bind c k).
Proof.
  destruct c as [a|e]; simpl; intros Hc Hk; [apply Hk; reflexivity | exact Hc].
Qed.

Lemma raises_only_catch {A : Type} (h : exn -> bool) (c : result A)
  (handler : exn -> result A) :
  raises_only P c -> (forall e, raises_only P (handler e)) ->
  raises_only P (catch_if h c handler).
Proof.
  destruct c as [a|e]; simpl; intros Hc Hh; [exact I|].
  destruct (h e); [apply Hh | exact Hc].
Qed.

Lemma raises_only_mapM {A B : Type} (f : A -> result B) (l : list A) :
  (forall x, raises_only P (f x)) -> raises_only P (mapM f l).
Proof.
  intros Hf. induction l as [|x l IH]; simpl; [exact I|].
  apply raises_only_bind; [apply Hf|]. intros y _.
  apply raises_only_bind; [exact IH|]. intros ys _. exact I.
Qed.

End RaisesOnly.

(** Reads a goal [raises_only P c] off the shape of [c]. *)
Ltac raises_step :=
  match goal with
  | |- raises_only _ (Ok _) => exact I
  | |- raises_only _ (Raise _) => reflexivity
  | |- raises_only _ (report_invalid_netmask _) => reflexivity
  | |- raises_only _ (bind _ _) => apply raises_only_bind; [|intros ? ?]
  | |- raises_only _ (catch_if _ _ _) => apply raises_only_catch; [|intros ?]
  | |- raises_only _ (mapM _ _) => apply raises_only_mapM; intros ?
  | |- raises_only _ (if ?b then _ else _) => destruct b
  | |- raises_only _ (match ?x with _ => _ end) => destruct x
  | |- raises_only _ (let '(_, _) := ?x in _) => destruct x
  end.

Ltac raises_tac := repeat raises_step; auto.

Lemma check_int_address_raises v n : raises_only is_ValueError (check_int_address v n).
Proof. unfold check_int_address. raises_tac. Qed.

Lemma address_of_int_raises v n : raises_only is_ValueError (address_of_int v n).
Proof. unfold address_of_int. raises_tac. apply check_int_address_raises. Qed.

Lemma parse_octet_raises s : raises_only is_ValueError (parse_octet s).
Proof. unfold parse_octet. raises_tac. Qed.

Lemma ip_int_from_string_v4_raises s :
  raises_only is_ValueError (ip_int_from_string_v4 s).
Proof. unfold ip_int_from_string_v4. raises_tac. apply parse_octet_raises. Qed.

Lemma IPv4Address_of_str_raises s : raises_only is_ValueError (IPv4Address_of_str s).
Proof. unfold IPv4Address_of_str. raises_tac. apply ip_int_from_string_v4_raises. Qed.

Lemma parse_hextet_raises s : raises_only is_ValueError (parse_hextet s).
Proof. unfold parse_hextet. raises_tac. Qed.

Lemma find_skip_index_raises ip_str mid : forall i o,
  raises_only is_ValueError (find_skip_index ip_str i mid o).
Proof.
  induction mid as [|p mid IH]; intros i o; simpl; [exact I|].
  destruct (is_empty p); [destruct o; [reflexivity|]|]; apply IH.
Qed.

Lemma shift_in_hextets_raises ps : forall acc,
  raises_only is_ValueError (shift_in_hextets acc ps).
Proof.
  induction ps as [|p ps IH]; intros acc; simpl; [exact I|].
  apply raises_only_bind; [apply parse_hextet_raises|]. intros h _. apply IH.
Qed.

Lemma ip_int_from_string_v6_raises s :
  raises_only is_ValueError (ip_int_from_string_v6 s).
Proof.
  unfold ip_int_from_string_v6. raises_tac;
    try apply IPv4Address_of_str_raises;
    try apply find_skip_index_raises;
    try apply shift_in_hextets_raises.
Qed.

Lemma split_scope_id_raises s : raises_only is_ValueError (split_scope_id s).
Proof. unfold split_scope_id. raises_tac. Qed.

Lemma IPv6Address_of_str_raises s : raises_only is_ValueError (IPv6Address_of_str s).
Proof.
  unfold IPv6Address_of_str. raises_tac.
  - apply split_scope_id_raises.
  - apply ip_int_from_string_v6_raises.
Qed.

Lemma prefix_from_prefix_string_raises v s :
  raises_only is_ValueError (prefix_from_prefix_string v s).
Proof. unfold prefix_from_prefix_string. raises_tac. Qed.

Lemma prefix_from_ip_int_raises v n : raises_only is_ValueError (prefix_from_ip_int v n).
Proof. unfold prefix_from_ip_int. raises_tac. Qed.

Lemma prefix_from_ip_string_raises s :
  raises_only is_ValueError (prefix_from_ip_string s).
Proof.
  unfold prefix_from_ip_string. raises_tac;
    try apply ip_int_from_string_v4_raises; apply prefix_from_ip_int_raises.
Qed.

Lemma make_netmask_raises v m : raises_only is_ValueError (make_netmask v m).
Proof.
  unfold make_netmask. raises_tac;
    try apply prefix_from_prefix_string_raises; apply prefix_from_ip_string_raises.
Qed.

Lemma network_init_raises v arg strict :
  raises_only is_ValueError (network_init v arg strict).
Proof.
  unfold network_init, split_addr_prefix, split_optional_netmask, address_of_part.
  raises_tac;
    try apply address_of_int_raises; try apply IPv4Address_of_str_raises;
    try apply IPv6Address_of_str_raises; try apply make_netmask_raises.
Qed.

(** Whatever [ip_network] raises on a string is a [ValueError]. *)
Lemma ip_network_raises s strict : raises_only is_ValueError (ip_network s strict).
Proof. unfold ip_network. raises_tac; apply network_init_raises. Qed.

Lemma ip_address_of_str_raises s : raises_only is_ValueError (ip_address_of_str s).
Proof.
  unfold ip_address_of_str. raises_tac;
    [apply IPv4Address_of_str_raises | apply IPv6Address_of_str_raises].
Qed.

(** ** Netmask arithmetic *)

Lemma ALL_ONES_ones v : ALL_ONES v = Z.ones (max_prefixlen v).
Proof. unfold ALL_ONES. rewrite Z.ones_equiv. lia. Qed.

Lemma max_prefixlen_pos v : 0 < max_prefixlen v.
Proof. destruct v; simpl; lia. Qed.

Lemma testbit_above (a n i : Z) :
  0 <= a < 2 ^ n -> n <= i -> Z.testbit a i = false.
Proof.
  intros [Ha Hlt] Hi.
  destruct (Z.eq_dec a 0) as [->|Hnz]; [apply Z.bits_0|].
  apply Z.bits_above_log2; [exact Ha|].
  assert (Z.log2 a < n) by (apply Z.log2_lt_pow2; lia). lia.
Qed.

Lemma shiftr_ones (n p : Z) :
  0 <= p <= n -> Z.shiftr (Z.ones n) p = Z.ones (n - p).
Proof.
  intros Hp. apply Z.bits_inj'. intros i Hi.
  rewrite Z.shiftr_spec by exact Hi.
  rewrite !Z.testbit_ones_nonneg by lia.
  destruct (Z.ltb_spec (i + p) n), (Z.ltb_spec i (n - p)); lia || reflexivity.
Qed.

(** The netmask of a prefix length clears the host bits. *)
Lemma land_netmask v p a :
  0 <= p <= max_prefixlen v -> 0 <= a <= ALL_ONES v ->
  Z.land a (ip_int_from_prefix v p) = a - a mod 2 ^ (max_prefixlen v - p).
Proof.
  intros Hp Ha. unfold ip_int_from_prefix.
  rewrite ALL_ONES_ones in *. rewrite shiftr_ones by exact Hp.
  set (B := max_prefixlen v) in *. set (h := B - p).
  assert (Hh : 0 <= h <= B) by (unfold h; lia).
  assert (Hlt : 0 <= a < 2 ^ B) by (rewrite Z.ones_equiv in Ha; lia).
  transitivity (Z.ldiff a (Z.ones h)).
  - apply Z.bits_inj'. intros i Hi.
    rewrite Z.land_spec, Z.ldiff_spec, Z.lxor_spec.
    rewrite !Z.testbit_ones_nonneg by lia.
    destruct (Z.ltb_spec i B) as [HiB|HiB].
    + destruct (i <? h); simpl; reflexivity.
    + rewrite (testbit_above a B i) by lia. reflexivity.
  - rewrite Z.ldiff_ones_r by lia.
    rewrite Z.shiftr_div_pow2, Z.shiftl_mul_pow2 by lia.
    pose proof (Z.div_mod a (2 ^ h)) as Hdm.
    assert (0 < 2 ^ h) by (apply Z.pow_pos_nonneg; lia). lia.
Qed.

Lemma hostmask_ones v p :
  0 <= p <= max_prefixlen v ->
  Z.lxor (ip_int_from_prefix v p) (ALL_ONES v) = Z.ones (max_prefixlen v - p).
Proof.
  intros Hp. unfold ip_int_from_prefix.
  rewrite ALL_ONES_ones. rewrite shiftr_ones by exact Hp.
  apply Z.bits_inj'. intros i Hi.
  rewrite !Z.lxor_spec, !Z.testbit_ones_nonneg by lia.
  destruct (Z.ltb_spec i (max_prefixlen v)), (Z.ltb_spec i (max_prefixlen v - p));
    simpl; reflexivity || lia.
Qed.

Lemma lor_ones_aligned (a h : Z) :
  0 <= h -> a mod 2 ^ h = 0 -> Z.lor a (Z.ones h) = a + 2 ^ h - 1.
Proof.
  intros Hh Hal.
  pose proof (Z.add_lor_land a (Z.ones h)) as H.
  rewrite Z.land_ones in H by exact Hh. rewrite Hal in H.
  rewrite Z.ones_equiv in *. lia.
Qed.

Lemma aligned_block_mem (a h x : Z) :
  0 <= h -> a mod 2 ^ h = 0 ->
  (x - x mod 2 ^ h = a <-> a <= x <= a + 2 ^ h - 1).
Proof.
  intros Hh Hal.
  assert (Hpos : 0 < 2 ^ h) by (apply Z.pow_pos_nonneg; lia).
  pose proof (Z.mod_pos_bound x (2 ^ h) Hpos) as Hx.
  split; [lia|]. intros Hr.
  apply Z.mod_divide in Hal; [|lia]. destruct Hal as [q ->].
  assert (Hq : x / 2 ^ h = q).
  { symmetry. apply Z.div_unique with (r := x - q * 2 ^ h); lia. }
  pose proof (Z.div_mod x (2 ^ h)) as Hdm. rewrite Hq in Hdm. lia.
Qed.

(** ** What the constructors build *)

Lemma wf_address_range a :
  wf_address a -> 0 <= addr_ip a <= ALL_ONES (addr_version a).
Proof.
  unfold wf_address, wf_addressb. intros H.
  apply andb_prop in H as [H _]. apply andb_prop in H as [H1 H2]. lia.
Qed.

Lemma wf_network_facts n :
  wf_network n ->
  wf_address (network_address n)
  /\ 0 <= prefixlen n <= max_prefixlen (net_version n)
  /\ first_int n mod 2 ^ host_bits n = 0.
Proof.
  unfold wf_network, wf_networkb. intros H.
  apply andb_prop in H as [H H4]. apply andb_prop in H as [H H3].
  apply andb_prop in H as [H1 H2]. repeat split; try lia; exact H1.
Qed.

Lemma wf_network_range n :
  wf_network n ->
  0 <= host_bits n <= max_prefixlen (net_version n)
  /\ 0 <= first_int n
  /\ first_int n + 2 ^ host_bits n - 1 <= ALL_ONES (net_version n).
Proof.
  intros H. destruct (wf_network_facts n H) as (Ha & Hp & Hal).
  apply wf_address_range in Ha. fold (first_int n) (net_version n) in Ha.
  unfold host_bits in *. set (B := max_prefixlen (net_version n)) in *.
  set (h := B - prefixlen n) in *.
  assert (Hh : 0 <= h <= B) by (unfold h; lia).
  repeat split; try lia.
  unfold ALL_ONES in *. fold B in Ha |- *.
  assert (Hpos : 0 < 2 ^ h) by (apply Z.pow_pos_nonneg; lia).
  apply Z.mod_divide in Hal; [|lia]. destruct Hal as [q Hq].
  assert (HB : 2 ^ B = 2 ^ (B - h) * 2 ^ h)
    by (rewrite <- Z.pow_add_r by lia; f_equal; lia).
  assert (Hq' : q < 2 ^ (B - h)) by nia.
  nia.
Qed.

Lemma last_int_eq n :
  wf_network n -> last_int n = first_int n + 2 ^ host_bits n - 1.
Proof.
  intros H. destruct (wf_network_facts n H) as (_ & Hp & Hal).
  unfold last_int, broadcast_address, hostmask_int, netmask_int. simpl.
  rewrite hostmask_ones by exact Hp.
  apply lor_ones_aligned; [unfold host_bits in *; lia | exact Hal].
Qed.

(** [num_addresses] is two to the number of host bits. *)
Lemma num_addresses_eq n :
  wf_network n -> num_addresses n = 2 ^ (max_prefixlen (net_version n) - prefixlen n).
Proof.
  intros H. unfold num_addresses. fold (last_int n) (first_int n).
  rewrite last_int_eq by exact H. unfold host_bits. lia.
Qed.

(** Membership of an address in a network is membership in the interval
    from its first to its last address. *)
Lemma contains_spec n a :
  wf_network n -> wf_address a ->
  contains n a = true <->
  net_version n = addr_version a /\ first_int n <= addr_ip a <= last_int n.
Proof.
  intros Hn Ha. rewrite last_int_eq by exact Hn.
  destruct (wf_network_facts n Hn) as (_ & Hp & Hal).
  apply wf_address_range in Ha.
  unfold contains.
  destruct (version_eqb (net_version n) (addr_version a)) eqn:Ev; simpl.
  - assert (Hv : net_version n = addr_version a)
      by (destruct (net_version n), (addr_version a); simpl in Ev; congruence).
    unfold netmask_int. rewrite land_netmask; [|exact Hp|rewrite Hv; exact Ha].
    fold (host_bits n) (first_int n). rewrite Z.eqb_eq.
    rewrite aligned_block_mem; [|unfold host_bits; lia|exact Hal]. tauto.
  - split; [discriminate|]. intros [Hv _]. rewrite Hv in Ev.
    destruct (addr_version a); discriminate.
Qed.

Lemma version_eqb_eq v w : version_eqb v w = true <-> v = w.
Proof. destruct v, w; simpl; split; congruence. Qed.

Lemma wf_broadcast n : wf_network n -> wf_address (broadcast_address n).
Proof.
  intros H. pose proof (last_int_eq n H) as Hl.
  destruct (wf_network_range n H) as (Hh & H0 & Hmax).
  unfold wf_address, wf_addressb. fold (last_int n).
  assert (0 < 2 ^ host_bits n) by (apply Z.pow_pos_nonneg; lia).
  unfold broadcast_address at 1 2; simpl.
  replace (0 <=? last_int n) with true by (symmetry; apply Z.leb_le; lia).
  replace (last_int n <=? ALL_ONES (net_version n)) with true
    by (symmetry; apply Z.leb_le; lia).
  destruct (net_version n); reflexivity.
Qed.

(** Two networks overlap exactly when they are of one family and their
    intervals meet. *)
Lemma overlaps_spec n m :
  wf_network n -> wf_network m ->
  overlaps n m = true <->
  net_version n = net_version m
  /\ first_int n <= last_int m /\ first_int m <= last_int n.
Proof.
  intros Hn Hm.
  pose proof (last_int_eq n Hn) as Hln. pose proof (last_int_eq m Hm) as Hlm.
  destruct (wf_network_range n Hn) as (Hhn & _ & _).
  destruct (wf_network_range m Hm) as (Hhm & _ & _).
  assert (0 < 2 ^ host_bits n) by (apply Z.pow_pos_nonneg; lia).
  assert (0 < 2 ^ host_bits m) by (apply Z.pow_pos_nonneg; lia).
  destruct (wf_network_facts n Hn) as (Han & _ & _).
  destruct (wf_network_facts m Hm) as (Ham & _ & _).
  unfold overlaps. rewrite !orb_true_iff.
  rewrite !contains_spec by auto using wf_broadcast.
  unfold last_int, first_int in *. unfold net_version in *.
  change (addr_version (broadcast_address n)) with (addr_version (network_address n)).
  change (addr_version (broadcast_address m)) with (addr_version (network_address m)).
  split.
  - intros [H1|[H1|[H1|H1]]]; destruct H1 as [Hv Hr]; (split; [congruence|lia]).
  - intros (Hv & H1 & H2).
    destruct (Z_le_gt_dec (addr_ip (network_address m)) (addr_ip (network_address n))).
    + left. split; [congruence|lia].
    + right. right. left. split; [congruence|lia].
Qed.

Lemma overlaps_same_version n m :
  wf_network n -> wf_network m -> overlaps n m = true -> net_version m = net_version n.
Proof. intros Hn Hm H. apply overlaps_spec in H; auto. symmetry. tauto. Qed.

(** ** Inversion of [bind] and [catch_if] *)

Lemma bind_Ok {A B : Type} (c : result A) (k : A -> result B) (b : B) :
  bind c k = Ok b -> exists a, c = Ok a /\ k a = Ok b.
Proof. destruct c as [a|e]; simpl; [eauto | discriminate]. Qed.

Lemma catch_if_Ok {A : Type} (h : exn -> bool) (c : result A)
  (handler : exn -> result A) (a : A) :
  catch_if h c handler = Ok a ->
  c = Ok a \/ exists e, c = Raise e /\ h e = true /\ handler e = Ok a.
Proof.
  destruct c as [x|e]; simpl; [auto|].
  destruct (h e) eqn:E; [eauto | discriminate].
Qed.

Lemma mapM_Ok {A B : Type} (f : A -> result B) (l : list A) (ys : list B) :
  mapM f l = Ok ys -> Forall2 (fun x y => f x = Ok y) l ys.
Proof.
  revert ys. induction l as [|x l IH]; simpl; intros ys H.
  - injection H as <-. constructor.
  - apply bind_Ok in H as (y & Hy & H). apply bind_Ok in H as (ys' & Hys & H).
    injection H as <-. constructor; auto.
Qed.

(** ** The integers the parsers return *)

Lemma decimal_digit_value c :
  is_decimal_digit c = true -> 0 <= hex_digit_value c <= 9.
Proof.
  unfold is_decimal_digit, hex_digit_value. intros H.
  apply andb_prop in H as [H1 H2]. apply Z.leb_le in H1, H2.
  rewrite (proj2 (Z.leb_le _ 57)) by exact H2. lia.
Qed.

Lemma hex_digit_value_range c :
  is_hex_digit c = true -> 0 <= hex_digit_value c <= 15.
Proof.
  unfold is_hex_digit, hex_digit_value. cbv zeta.
  set (n := Z.of_N (N_of_ascii c)). intros H.
  destruct (Z.leb_spec n 57), (Z.leb_spec n 70), (Z.leb_spec 48 n),
    (Z.leb_spec 65 n), (Z.leb_spec 97 n), (Z.leb_spec n 102);
    simpl in H; try discriminate; lia.
Qed.

Lemma int_of_digits_range (base : Z) (p : ascii -> bool) :
  0 < base ->
  (forall c, p c = true -> 0 <= hex_digit_value c <= base - 1) ->
  forall s acc, all_chars p s = true -> 0 <= acc ->
  acc * base ^ Z.of_nat (String.length s) <= int_of_digits base acc s
    < (acc + 1) * base ^ Z.of_nat (String.length s).
Proof.
  intros Hb Hp. induction s as [|c s IH]; intros acc Hall Hacc.
  - simpl. lia.
  - simpl in Hall. apply andb_prop in Hall as [Hc Hall].
    specialize (Hp c Hc).
    cbn [int_of_digits String.length].
    rewrite Nat2Z.inj_succ, Z.pow_succ_r by lia.
    specialize (IH (base * acc + hex_digit_value c) Hall ltac:(nia)).
    assert (0 < base ^ Z.of_nat (String.length s)) by (apply Z.pow_pos_nonneg; lia).
    nia.
Qed.

Lemma parse_octet_Ok s n : parse_octet s = Ok n -> 0 <= n <= 255.
Proof.
  unfold parse_octet. intros H.
  destruct (is_empty s); [discriminate|].
  destruct (isascii_isdigit s) eqn:Ed; [|discriminate]. simpl in H.
  destruct (Z.of_nat (String.length s) >? 3); [discriminate|].
  match type of H with (if ?b then _ else _) = _ => destruct b end;
    [discriminate|].
  destruct (Z.gtb_spec (int_base10 s) 255) as [|Hle]; [discriminate|].
  injection H as <-. split; [|exact Hle].
  unfold isascii_isdigit in Ed. apply andb_prop in Ed as [_ Ed].
  pose proof (int_of_digits_range 10 is_decimal_digit ltac:(lia)
                decimal_digit_value s 0 Ed ltac:(lia)) as Hr.
  unfold int_base10. lia.
Qed.

Lemma ip_int_from_string_v4_Ok s n :
  ip_int_from_string_v4 s = Ok n -> 0 <= n <= ALL_ONES IPv4.
Proof.
  unfold ip_int_from_string_v4. intros H.
  destruct (is_empty s); [discriminate|].
  destruct (Nat.eqb (List.length (split "." s)) 4) eqn:El; [|discriminate].
  simpl in H. apply catch_if_Ok in H as [H | (e & _ & _ & H)]; [|discriminate].
  apply bind_Ok in H as (bs & Hbs & H). injection H as <-.
  apply mapM_Ok in Hbs. apply Nat.eqb_eq in El.
  destruct Hbs as [|o1 b1 ? ? H1 Hbs]; [discriminate|].
  destruct Hbs as [|o2 b2 ? ? H2 Hbs]; [discriminate|].
  destruct Hbs as [|o3 b3 ? ? H3 Hbs]; [discriminate|].
  destruct Hbs as [|o4 b4 ? ? H4 Hbs]; [discriminate|].
  destruct Hbs; [|discriminate].
  apply parse_octet_Ok in H1, H2, H3, H4.
  unfold int_from_bytes, ALL_ONES. cbn [fold_left max_prefixlen].
  change (2 ^ 32) with 4294967296. lia.
Qed.

Lemma IPv4Address_of_str_Ok s a :
  IPv4Address_of_str s = Ok a -> wf_address a /\ addr_version a = IPv4.
Proof.
  unfold IPv4Address_of_str. intros H.
  destruct (contains_char "/" s); [discriminate|].
  apply bind_Ok in H as (n & Hn & H). injection H as <-.
  apply ip_int_from_string_v4_Ok in Hn.
  split; [|reflexivity]. unfold wf_address, wf_addressb. simpl.
  rewrite (proj2 (Z.leb_le 0 n)), (proj2 (Z.leb_le n _)) by lia. reflexivity.
Qed.

Lemma parse_hextet_Ok s n : parse_hextet s = Ok n -> 0 <= n < 2 ^ 16.
Proof.
  unfold parse_hextet. intros H.
  destruct (all_chars is_hex_digit s) eqn:Eh; [|discriminate]. simpl in H.
  destruct (Z.gtb_spec (Z.of_nat (String.length s)) 4) as [|Hlen]; [discriminate|].
  destruct (is_empty s); [discriminate|]. injection H as <-.
  pose proof (int_of_digits_range 16 is_hex_digit ltac:(lia)
                hex_digit_value_range s 0 Eh ltac:(lia)) as Hr.
  unfold int_base16.
  assert (16 ^ Z.of_nat (String.length s) <= 16 ^ 4)
    by (apply Z.pow_le_mono_r; lia).
  change (2 ^ 16) with (16 ^ 4). lia.
Qed.

Lemma lor_shiftl_16 (acc h : Z) :
  0 <= acc -> 0 <= h < 2 ^ 16 ->
  Z.lor (Z.shiftl acc 16) h = acc * 2 ^ 16 + h.
Proof.
  intros Hacc Hh.
  rewrite <- Z.shiftl_mul_pow2 by lia.
  pose proof (Z.add_lor_land (Z.shiftl acc 16) h) as H.
  assert (Hz : Z.land (Z.shiftl acc 16) h = 0).
  { apply Z.bits_inj'. intros i Hi. rewrite Z.land_spec, Z.bits_0.
    destruct (Z.ltb_spec i 16).
    - rewrite Z.shiftl_spec_low by lia. reflexivity.
    - rewrite (testbit_above h 16 i Hh) by lia. apply andb_false_r. }
  rewrite Hz in H. lia.
Qed.

Lemma shift_in_hextets_Ok ps : forall acc r k,
  shift_in_hextets acc ps = Ok r -> 0 <= k -> 0 <= acc < 2 ^ k ->
  0 <= r < 2 ^ (k + 16 * Z.of_nat (List.length ps)).
Proof.
  induction ps as [|p ps IH]; intros acc r k H Hk Hacc;
    cbn [shift_in_hextets] in H.
  - injection H as <-. simpl. rewrite Z.add_0_r. exact Hacc.
  - apply bind_Ok in H as (h & Hh & H). apply parse_hextet_Ok in Hh.
    rewrite lor_shiftl_16 in H by lia.
    apply IH with (k := k + 16) in H; [| lia |].
    + cbn [List.length]. rewrite Nat2Z.inj_succ.
      replace (k + 16 * Z.succ (Z.of_nat (List.length ps)))
        with (k + 16 + 16 * Z.of_nat (List.length ps)) by lia.
      exact H.
    + rewrite Z.pow_add_r by lia. nia.
Qed.

Lemma find_skip_index_Ok ip_str mid : forall i o r,
  find_skip_index ip_str i mid o = Ok (Some r) ->
  o = Some r \/ i <= r < i + Z.of_nat (List.length mid).
Proof.
  induction mid as [|p mid IH]; intros i o r H; simpl in H.
  - injection H as ->. auto.
  - cbn [List.length]. rewrite Nat2Z.inj_succ.
    destruct (is_empty p).
    + destruct o; [discriminate|].
      apply IH in H as [H|H]; [injection H as <-|]; right; lia.
    + apply IH in H as [H|H]; [auto | right; lia].
Qed.

Lemma hextets_bound (parts : list string) (hi lo skipped n : Z) :
  0 <= hi -> 0 <= lo <= Z.of_nat (List.length parts) -> 0 <= skipped ->
  hi + lo + skipped <= 8 ->
  bind (shift_in_hextets 0 (firstn (Z.to_nat hi) parts))
    (fun ip_int =>
       shift_in_hextets (Z.shiftl ip_int (16 * skipped))
         (skipn (Z.to_nat (Z.of_nat (List.length parts) - lo)) parts)) = Ok n ->
  0 <= n <= ALL_ONES IPv6.
Proof.
  intros Hhi Hlo Hsk Hsum H.
  apply bind_Ok in H as (ip1 & H1 & H2).
  apply shift_in_hextets_Ok with (k := 0) in H1; [|lia|simpl; lia].
  set (l1 := Z.of_nat (List.length (firstn (Z.to_nat hi) parts))) in *.
  assert (Hl1 : 0 <= l1 <= hi).
  { unfold l1. pose proof (firstn_le_length (Z.to_nat hi) parts). lia. }
  apply shift_in_hextets_Ok with (k := 16 * l1 + 16 * skipped) in H2; [|lia|].
  - rewrite length_skipn in H2.
    assert (He : 16 * l1 + 16 * skipped
                 + 16 * Z.of_nat (List.length parts
                                  - Z.to_nat (Z.of_nat (List.length parts) - lo))
                 <= 128) by lia.
    unfold ALL_ONES. simpl max_prefixlen.
    match type of H2 with _ <= _ < 2 ^ ?e =>
      assert (2 ^ e <= 2 ^ 128) by (apply Z.pow_le_mono_r; lia) end.
    lia.
  - rewrite Z.shiftl_mul_pow2 by lia.
    rewrite Z.pow_add_r by lia.
    assert (0 < 2 ^ (16 * skipped)) by (apply Z.pow_pos_nonneg; lia).
    rewrite Z.add_0_l in H1. nia.
Qed.

Lemma ip_int_from_string_v6_Ok s n :
  ip_int_from_string_v6 s = Ok n -> 0 <= n <= ALL_ONES IPv6.
Proof.
  unfold ip_int_from_string_v6. intros H.
  destruct (is_empty s); [discriminate|].
  destruct (Z.ltb_spec (Z.of_nat (List.length (split ":" s))) 3) as [|Hlen0];
    [discriminate|].
  apply bind_Ok in H as (parts & Hparts & H).
  assert (Hlen : 3 <= Z.of_nat (List.length parts)).
  { destruct (contains_char "." (last_part (split ":" s))).
    - apply bind_Ok in Hparts as (ipv4 & _ & Hparts). injection Hparts as <-.
      rewrite length_app, removelast_firstn_len, length_firstn. simpl. lia.
    - injection Hparts as <-. exact Hlen0. }
  clear Hparts Hlen0.
  set (len := Z.of_nat (List.length parts)) in *.
  destruct (len >? HEXTET_COUNT + 1); [discriminate|].
  apply bind_Ok in H as (skip_index & Hskip & H).
  apply bind_Ok in H as ([[hi lo] skipped] & Htriple & H).
  apply catch_if_Ok in H as [H | (e & _ & _ & H)]; [|discriminate].
  assert (Hb : 0 <= hi /\ 0 <= lo <= len /\ 0 <= skipped /\ hi + lo + skipped <= 8).
  { unfold HEXTET_COUNT in *. destruct skip_index as [k|].
    - apply find_skip_index_Ok in Hskip as [Hskip|Hskip]; [discriminate|].
      rewrite removelast_firstn_len, length_firstn in Hskip.
      assert (Hk : 1 <= k <= len - 2).
      { assert (Htl : List.length (tl parts) = Nat.pred (List.length parts))
          by (destruct parts; reflexivity).
        rewrite Htl in Hskip. unfold len in *. lia. }
      apply bind_Ok in Htriple as (hi' & Hhi & Htriple).
      apply bind_Ok in Htriple as (lo' & Hlo & Htriple).
      remember (8 - (hi' + lo')) as sk eqn:Esk in Htriple.
      destruct (Z.ltb_spec sk 1); [discriminate|].
      injection Htriple as <- <- <-.
      assert (0 <= hi' <= k).
      { destruct (is_empty (first_part parts)).
        - destruct (Z.eqb_spec (k - 1) 0); cbn [negb] in Hhi; [|discriminate].
          injection Hhi as <-. lia.
        - injection Hhi as <-. lia. }
      assert (0 <= lo' <= len - k - 1).
      { destruct (is_empty (last_part parts)).
        - destruct (Z.eqb_spec (len - k - 1 - 1) 0); cbn [negb] in Hlo; [|discriminate].
          injection Hlo as <-. lia.
        - injection Hlo as <-. lia. }
      lia.
    - destruct (Z.eqb_spec len 8); cbn [negb] in Htriple; [|discriminate].
      destruct (is_empty (first_part parts)); [discriminate|].
      destruct (is_empty (last_part parts)); [discriminate|].
      injection Htriple as <- <- <-. lia. }
  destruct Hb as (Hhi & Hlo & Hsk & Hsum).
  exact (hextets_bound parts hi lo skipped n Hhi Hlo Hsk Hsum H).
Qed.

Lemma IPv6Address_of_str_Ok s a :
  IPv6Address_of_str s = Ok a -> wf_address a /\ addr_version a = IPv6.
Proof.
  unfold IPv6Address_of_str. intros H.
  destruct (contains_char "/" s); [discriminate|].
  apply bind_Ok in H as ([addr scope] & _ & H).
  apply bind_Ok in H as (n & Hn & H). injection H as <-.
  apply ip_int_from_string_v6_Ok in Hn.
  split; [|reflexivity]. unfold wf_address, wf_addressb. simpl addr_ip.
  simpl addr_version.
  rewrite (proj2 (Z.leb_le 0 n)), (proj2 (Z.leb_le n _)) by lia. reflexivity.
Qed.

Lemma address_of_int_Ok v n a :
  address_of_int v n = Ok a -> a = Address v n None /\ 0 <= n <= ALL_ONES v.
Proof.
  unfold address_of_int, check_int_address. intros H.
  destruct (Z.ltb_spec n 0); [discriminate|].
  destruct (Z.gtb_spec n (ALL_ONES v)); [discriminate|].
  simpl in H. injection H as <-. split; [reflexivity | lia].
Qed.

Lemma address_of_int_in_range v n :
  0 <= n <= ALL_ONES v -> address_of_int v n = Ok (Address v n None).
Proof.
  intros H. unfold address_of_int, check_int_address.
  destruct (Z.ltb_spec n 0); [lia|].
  destruct (Z.gtb_spec n (ALL_ONES v)); [lia|]. reflexivity.
Qed.

Lemma wf_address_intro v n s :
  0 <= n <= ALL_ONES v -> (v = IPv4 -> s = None) -> wf_address (Address v n s).
Proof.
  intros H Hs. unfold wf_address, wf_addressb. simpl.
  rewrite (proj2 (Z.leb_le 0 n)), (proj2 (Z.leb_le n _)) by lia.
  destruct v; [rewrite Hs by reflexivity|]; reflexivity.
Qed.

Lemma address_of_part_Ok v p a :
  address_of_part v p = Ok a -> wf_address a /\ addr_version a = v.
Proof.
  destruct p as [s|n]; simpl.
  - destruct v; [apply IPv4Address_of_str_Ok | apply IPv6Address_of_str_Ok].
  - intros H. apply address_of_int_Ok in H as [-> H].
    split; [apply wf_address_intro; auto | reflexivity].
Qed.

Lemma bit_length_nonneg n : 0 <= bit_length n.
Proof.
  unfold bit_length. destruct (n =? 0); [lia|].
  pose proof (Z.log2_nonneg (Z.abs n)). lia.
Qed.

Lemma count_righthand_zero_bits_range number bits :
  0 <= bits -> 0 <= count_righthand_zero_bits number bits <= bits.
Proof.
  intros Hb. unfold count_righthand_zero_bits.
  destruct (number =? 0); [lia|].
  pose proof (bit_length_nonneg (Z.land (Z.lnot number) (number - 1))). lia.
Qed.

Lemma prefix_from_ip_int_Ok v n p :
  prefix_from_ip_int v n = Ok p -> 0 <= p <= max_prefixlen v.
Proof.
  unfold prefix_from_ip_int. intros H.
  destruct (negb _); [discriminate|]. injection H as <-.
  pose proof (max_prefixlen_pos v).
  pose proof (count_righthand_zero_bits_range n (max_prefixlen v)). lia.
Qed.

Lemma prefix_from_prefix_string_Ok v s p :
  prefix_from_prefix_string v s = Ok p -> 0 <= p <= max_prefixlen v.
Proof.
  unfold prefix_from_prefix_string. intros H.
  destruct (negb (isascii_isdigit s)); [discriminate|].
  destruct (Z.leb_spec 0 (int_base10 s)), (Z.leb_spec (int_base10 s) (max_prefixlen v));
    simpl in H; try discriminate.
  injection H as <-. lia.
Qed.

Lemma make_netmask_Ok v m p :
  make_netmask v m = Ok p -> 0 <= p <= max_prefixlen v.
Proof.
  destruct m as [s|n]; simpl; intros H.
  - destruct v.
    + apply catch_if_Ok in H as [H | (e & _ & _ & H)].
      * exact (prefix_from_prefix_string_Ok IPv4 s p H).
      * unfold prefix_from_ip_string in H.
        apply bind_Ok in H as (ip_int & _ & H).
        apply catch_if_Ok in H as [H | (e1 & _ & _ & H)];
          [exact (prefix_from_ip_int_Ok IPv4 _ p H)|].
        apply catch_if_Ok in H as [H | (e2 & _ & _ & H)];
          [exact (prefix_from_ip_int_Ok IPv4 _ p H) | discriminate].
    + exact (prefix_from_prefix_string_Ok IPv6 s p H).
  - destruct (Z.leb_spec 0 n), (Z.leb_spec n (max_prefixlen v));
      simpl in H; try discriminate.
    injection H as <-. lia.
Qed.

Lemma wf_network_intro a p :
  wf_address a -> 0 <= p <= max_prefixlen (addr_version a) ->
  addr_ip a mod 2 ^ (max_prefixlen (addr_version a) - p) = 0 ->
  wf_network (Network a p).
Proof.
  intros Ha Hp Hal. unfold wf_network, wf_networkb, first_int, host_bits, net_version.
  simpl. rewrite Ha, Hal.
  rewrite (proj2 (Z.leb_le 0 p)), (proj2 (Z.leb_le p _)) by lia. reflexivity.
Qed.

(** A network object that a constructor returns satisfies the invariant. *)
Lemma network_init_Ok v arg strict n :
  network_init v arg strict = Ok n -> wf_network n /\ net_version n = v.
Proof.
  unfold network_init. intros H.
  apply bind_Ok in H as ([addr mask] & _ & H).
  apply bind_Ok in H as (a & Ha & H).
  apply bind_Ok in H as (p & Hp & H).
  apply address_of_part_Ok in Ha as [Ha Hv]. apply make_netmask_Ok in Hp.
  pose proof (wf_address_range a Ha) as Hr. rewrite Hv in Hr.
  pose proof (land_netmask v p (addr_ip a) Hp Hr) as Hland.
  assert (Hpos : 0 < 2 ^ (max_prefixlen v - p)) by (apply Z.pow_pos_nonneg; lia).
  pose proof (Z.mod_pos_bound (addr_ip a) (2 ^ (max_prefixlen v - p)) Hpos) as Hm.
  destruct (Z.eqb_spec (Z.land (addr_ip a) (ip_int_from_prefix v p)) (addr_ip a))
    as [E|E]; cbn [negb] in H.
  - injection H as <-. split; [|exact Hv].
    apply wf_network_intro; rewrite ?Hv; auto. lia.
  - destruct strict; [discriminate|].
    apply bind_Ok in H as (a' & Ha' & H). injection H as <-.
    apply address_of_int_Ok in Ha' as [-> Hr'].
    split; [|reflexivity].
    apply wf_network_intro; simpl; auto.
    + apply wf_address_intro; auto.
    + rewrite Hland.
      rewrite Zminus_mod, Z.mod_mod, Z.sub_diag by lia. apply Z.mod_0_l. lia.
Qed.

Lemma ip_network_Ok s strict n : ip_network s strict = Ok n -> wf_network n.
Proof.
  unfold ip_network. intros H.
  apply catch_if_Ok in H as [H | (e & _ & _ & H)].
  - apply network_init_Ok in H. tauto.
  - apply catch_if_Ok in H as [H | (e' & _ & _ & H)]; [|discriminate].
    apply network_init_Ok in H. tauto.
Qed.

Lemma ip_address_of_str_Ok s a : ip_address_of_str s = Ok a -> wf_address a.
Proof.
  unfold ip_address_of_str. intros H.
  apply catch_if_Ok in H as [H | (e & _ & _ & H)].
  - apply IPv4Address_of_str_Ok in H. tauto.
  - apply catch_if_Ok in H as [H | (e' & _ & _ & H)]; [|discriminate].
    apply IPv6Address_of_str_Ok in H. tauto.
Qed.

(** ** The address counter *)

(** C6, as the code has it.  For every string that [ip_network] rejects,
    the address counter prints ["Invalid CIDR block: "] followed by the
    string and returns 0; it raises nothing. *)
Theorem count_ip_addresses_malformed (cidr : string) (e : exn) :
  ip_network cidr true = Raise e ->
  count_ip_addresses cidr = ((["Invalid CIDR block: " ++ cidr])%string, Ok 0).
Proof.
  intros E. unfold count_ip_addresses.
  pose proof (ip_network_raises cidr true) as Hraise.
  rewrite E in *. simpl in Hraise. rewrite Hraise. reflexivity.
Qed.

Lemma count_ip_addresses_malformed_witness :
  count_ip_addresses "10.0.0.0/33" = (["Invalid CIDR block: 10.0.0.0/33"], Ok 0).
Proof.
  eapply (count_ip_addresses_malformed "10.0.0.0/33"). vm_compute. reflexivity.
Defined.

(** C6 as stated fails: ["10.0.0.0/33"] is malformed (the prefix length
    exceeds the width, and [ip_network] raises on it), yet the address
    counter returns the count 0 and does not raise. *)
Lemma count_ip_addresses_returns_zero_on_malformed :
  (exists e, ip_network "10.0.0.0/33" true = Raise e)
  /\ snd (count_ip_addresses "10.0.0.0/33") = Ok 0
  /\ forall e, snd (count_ip_addresses "10.0.0.0/33") <> Raise e.
Proof.
  split; [eexists; vm_compute; reflexivity|].
  split; [vm_compute; reflexivity|]. intros e. vm_compute. discriminate.
Qed.

(** C7 at ["10.0.0.5/24"], whose host bits are set.  The parser of the gap
    finder ([strict=False]) normalizes it to 10.0.0.0/24, a network of 256
    addresses; the address counter ([strict] left at its default) treats it
    as invalid and returns 0. *)
Theorem host_bits_set_counted_as_zero :
  ip_network "10.0.0.5/24" false = Ok (Network (Address IPv4 167772160 None) 24)
  /\ num_addresses (Network (Address IPv4 167772160 None) 24) = 256
  /\ count_ip_addresses "10.0.0.5/24"
     = (["Invalid CIDR block: 10.0.0.5/24"], Ok 0).
Proof. repeat split; vm_compute; reflexivity. Qed.

(** ** Strict and non-strict parsing *)

Lemma raises_only_catch_all {A : Type} (P h : exn -> bool) (c : result A)
  (handler : exn -> result A) :
  raises_only h c -> (forall e, raises_only P (handler e)) ->
  raises_only P (catch_if h c handler).
Proof.
  destruct c as [a|e]; simpl; intros Hc Hh; [exact I|].
  rewrite Hc. apply Hh.
Qed.

Lemma ip_int_from_string_v4_raises_Address s :
  raises_only is_AddressValueError (ip_int_from_string_v4 s).
Proof.
  unfold ip_int_from_string_v4.
  repeat match goal with
         | |- raises_only _ (catch_if is_ValueError _ _) =>
             apply raises_only_catch_all; [|intros ?; reflexivity]
         | _ => raises_step
         end.
  apply parse_octet_raises.
Qed.

Lemma IPv4Address_of_str_raises_Address s :
  raises_only is_AddressValueError (IPv4Address_of_str s).
Proof.
  unfold IPv4Address_of_str. raises_tac.
  apply ip_int_from_string_v4_raises_Address.
Qed.

Lemma find_skip_index_raises_Address ip_str mid : forall i o,
  raises_only is_AddressValueError (find_skip_index ip_str i mid o).
Proof.
  induction mid as [|p mid IH]; intros i o; simpl; [exact I|].
  destruct (is_empty p); [destruct o; [reflexivity|]|]; apply IH.
Qed.

Lemma IPv6Address_of_str_raises_Address s :
  raises_only is_AddressValueError (IPv6Address_of_str s).
Proof.
  unfold IPv6Address_of_str, split_scope_id, ip_int_from_string_v6.
  repeat match goal with
         | |- raises_only _ (catch_if is_ValueError _ _) =>
             apply raises_only_catch_all; [|intros ?; reflexivity]
         | |- raises_only _ (catch_if is_AddressValueError _ _) =>
             apply raises_only_catch_all; [|intros ?; reflexivity]
         | |- raises_only _ (find_skip_index _ _ _ _) =>
             apply find_skip_index_raises_Address
         | |- raises_only _ (shift_in_hextets _ _) =>
             apply shift_in_hextets_raises
         | |- raises_only _ (IPv4Address_of_str _) =>
             apply IPv4Address_of_str_raises_Address
         | _ => raises_step
         end; auto.
Qed.

Lemma address_of_part_raises_Address v p :
  raises_only is_Address_or_Netmask (address_of_part v p).
Proof.
  assert (Hweak : forall A (r : result A),
            raises_only is_AddressValueError r -> raises_only is_Address_or_Netmask r).
  { intros A [a|e]; simpl; [auto|]. unfold is_Address_or_Netmask. intros ->. reflexivity. }
  destruct p as [s|n]; simpl.
  - destruct v; apply Hweak;
      [apply IPv4Address_of_str_raises_Address | apply IPv6Address_of_str_raises_Address].
  - unfold address_of_int, check_int_address. raises_tac.
Qed.

Lemma make_netmask_raises_Netmask v m :
  raises_only is_Address_or_Netmask (make_netmask v m).
Proof.
  unfold make_netmask, prefix_from_prefix_string, prefix_from_ip_string.
  repeat match goal with
         | |- raises_only _ (catch_if is_ValueError _ _) =>
             apply raises_only_catch_all; [apply prefix_from_ip_int_raises|intros ?]
         | |- raises_only _ (catch_if is_AddressValueError (ip_int_from_string_v4 _) _) =>
             apply raises_only_catch_all;
               [apply ip_int_from_string_v4_raises_Address|intros ?; reflexivity]
         | _ => raises_step
         end; auto.
Qed.

(** Strictness decides one thing only: whether set host bits are an error
    or are cleared. *)
Lemma network_init_strictness v arg :
  match network_init v arg true with
  | Ok n => network_init v arg false = Ok n
  | Raise e =>
      if is_Address_or_Netmask e then network_init v arg false = Raise e
      else (exists text, e = Exn ValueError (Msg text))
           /\ exists n, network_init v arg false = Ok n
  end.
Proof.
  unfold network_init.
  pose proof (network_init_raises v arg) as _.
  assert (Hsplit : raises_only is_Address_or_Netmask (split_addr_prefix v arg)).
  { unfold split_addr_prefix, split_optional_netmask. raises_tac. }
  destruct (split_addr_prefix v arg) as [[addr mask]|e]; cbn [bind];
    [|simpl in Hsplit; rewrite Hsplit; reflexivity].
  pose proof (address_of_part_raises_Address v addr) as Haddr.
  pose proof (address_of_part_Ok v addr) as Hwf.
  destruct (address_of_part v addr) as [a|e]; cbn [bind];
    [|simpl in Haddr; rewrite Haddr; reflexivity].
  pose proof (make_netmask_raises_Netmask v mask) as Hmask.
  pose proof (make_netmask_Ok v mask) as Hp.
  destruct (make_netmask v mask) as [p|e]; cbn [bind];
    [|simpl in Hmask; rewrite Hmask; reflexivity].
  destruct (negb _); [|reflexivity].
  cbn [is_Address_or_Netmask is_AddressValueError is_NetmaskValueError exn_cls orb].
  split; [eexists; reflexivity|].
  destruct (Hwf a eq_refl) as [Ha Hv]. specialize (Hp p eq_refl).
  apply wf_address_range in Ha. rewrite Hv in Ha.
  rewrite address_of_int_in_range.
  - eexists. reflexivity.
  - rewrite land_netmask by assumption.
    assert (Hpos : 0 < 2 ^ (max_prefixlen v - p)) by (apply Z.pow_pos_nonneg; lia).
    pose proof (Z.mod_pos_bound (addr_ip a) (2 ^ (max_prefixlen v - p)) Hpos).
    pose proof (Z.mod_le (addr_ip a) (2 ^ (max_prefixlen v - p)) ltac:(lia) Hpos).
    lia.
Qed.

(** C7, in general.  Whenever the strict parser rejects a string for its
    set host bits (the one [ValueError] of [ip_network] with a plain
    message), the parser of the gap finder accepts the string and returns
    a network with the host bits cleared, and the address counter prints
    it as invalid and returns 0. *)
Theorem host_bits_set_accepted_and_counted_as_zero (cidr text : string) :
  ip_network cidr true = Raise (Exn ValueError (Msg text)) ->
  (exists n, ip_network cidr false = Ok n /\ wf_network n)
  /\ count_ip_addresses cidr = ((["Invalid CIDR block: " ++ cidr])%string, Ok 0).
Proof.
  intros H. split; [|unfold count_ip_addresses; rewrite H; reflexivity].
  assert (Hn : exists n, ip_network cidr false = Ok n).
  { unfold ip_network in *.
    pose proof (network_init_strictness IPv4 (FromStr cidr)) as H4.
    pose proof (network_init_strictness IPv6 (FromStr cidr)) as H6.
    destruct (network_init IPv4 (FromStr cidr) true) as [n4|e4]; [discriminate|].
    cbn [catch_if] in H.
    destruct (is_Address_or_Netmask e4) eqn:E4.
    - rewrite H4. cbn [catch_if]. rewrite E4.
      destruct (network_init IPv6 (FromStr cidr) true) as [n6|e6]; [discriminate|].
      cbn [catch_if] in H.
      destruct (is_Address_or_Netmask e6) eqn:E6; [discriminate|].
      destruct H6 as (_ & n & ->). exists n. reflexivity.
    - destruct H4 as (_ & n & ->). exists n. reflexivity. }
  destruct Hn as (n & Hn). exists n. split; [exact Hn|].
  exact (ip_network_Ok _ _ _ Hn).
Qed.

Lemma host_bits_set_accepted_and_counted_as_zero_witness :
  (exists n, ip_network "10.0.0.5/24" false = Ok n /\ wf_network n)
  /\ count_ip_addresses "10.0.0.5/24"
     = (["Invalid CIDR block: 10.0.0.5/24"], Ok 0).
Proof.
  apply (host_bits_set_accepted_and_counted_as_zero "10.0.0.5/24"
           "10.0.0.5/24 has host bits set").
  vm_compute. reflexivity.
Defined.

(** ** The range summarizer on a reversed range *)

(** C4, as the code has it.  For every pair of well-formed address texts
    whose start is strictly greater than its end, [ip_range_to_cidr] returns
    the one-element list holding the text
    ["Error: Start IP must be less than or equal to end IP."]. *)
Theorem ip_range_to_cidr_reversed (start_ip end_ip : string) (a b : address) :
  ip_address_of_str start_ip = Ok a ->
  ip_address_of_str end_ip = Ok b ->
  addr_ip a > addr_ip b ->
  ip_range_to_cidr start_ip end_ip
  = Ok [ErrorEntry (Msg "Start IP must be less than or equal to end IP.")].
Proof.
  intros Ha Hb Hgt. unfold ip_range_to_cidr. rewrite Ha, Hb. cbn [bind].
  destruct (Z.gtb_spec (addr_ip a) (addr_ip b)); [reflexivity | lia].
Qed.

Lemma ip_range_to_cidr_reversed_witness :
  ip_range_to_cidr "10.0.0.2" "10.0.0.1"
  = Ok [ErrorEntry (Msg "Start IP must be less than or equal to end IP.")].
Proof.
  eapply (ip_range_to_cidr_reversed "10.0.0.2" "10.0.0.1");
    [vm_compute; reflexivity | vm_compute; reflexivity | vm_compute; reflexivity].
Defined.

(** C4 as stated fails: on the reversed range 10.0.0.2 .. 10.0.0.1 the
    summarizer returns an ordinary list and signals no error. *)
Lemma ip_range_to_cidr_reversed_returns_a_list :
  (exists a b, ip_address_of_str "10.0.0.2" = Ok a
               /\ ip_address_of_str "10.0.0.1" = Ok b /\ addr_ip a > addr_ip b)
  /\ (exists l, ip_range_to_cidr "10.0.0.2" "10.0.0.1" = Ok l)
  /\ forall e, ip_range_to_cidr "10.0.0.2" "10.0.0.1" <> Raise e.
Proof.
  split.
  - do 2 eexists. split; [vm_compute; reflexivity|].
    split; [vm_compute; reflexivity | vm_compute; reflexivity].
  - split; [eexists; vm_compute; reflexivity|]. intros e. vm_compute. discriminate.
Qed.

(** ** Example 1 *)

(** C8.  For the container ["10.0.0.0/24"] with the sub-ranges
    ["10.0.0.0/26"] and ["10.0.0.128/26"], the gap finder returns exactly
    two gap records, in ascending order: ["10.0.0.64 - 10.0.0.127"]
    summarized as [["10.0.0.64/26"]], then ["10.0.0.192 - 10.0.0.255"]
    summarized as [["10.0.0.192/26"]]. *)
Theorem example_1 (v : vnet) :
  address_prefixes v = Some ["10.0.0.0/24"] ->
  flat_map (fun s => get_or_empty (subnet_address_prefixes s))
    (get_or_empty (subnets v)) = ["10.0.0.0/26"; "10.0.0.128/26"] ->
  find_vnet_gaps [v]
  = Ok [Vnet (vnet_name v) (vnet_location v) (address_prefixes v)
          (address_count v) (subnets v)
          [GapRecord "10.0.0.64 - 10.0.0.127" [Cidr "10.0.0.64/26"];
           GapRecord "10.0.0.192 - 10.0.0.255" [Cidr "10.0.0.192/26"]]].
Proof.
  intros Hp Hs. unfold find_vnet_gaps, find_gaps_of_vnet. cbn [mapM].
  rewrite Hs, Hp. cbn [get_or_empty].
  replace (mapM (fun cidr => ip_network cidr false) ["10.0.0.0/24"])
    with (Ok [Network (Address IPv4 167772160 None) 24])
    by (vm_compute; reflexivity).
  replace (mapM (fun subnet_cidr => ip_network subnet_cidr false)
             ["10.0.0.0/26"; "10.0.0.128/26"])
    with (Ok [Network (Address IPv4 167772160 None) 26;
              Network (Address IPv4 167772288 None) 26])
    by (vm_compute; reflexivity).
  cbn [bind].
  replace (vnet_gaps [Network (Address IPv4 167772160 None) 24]
             [Network (Address IPv4 167772160 None) 26;
              Network (Address IPv4 167772288 None) 26])
    with (Ok [GapRecord "10.0.0.64 - 10.0.0.127" [Cidr "10.0.0.64/26"];
              GapRecord "10.0.0.192 - 10.0.0.255" [Cidr "10.0.0.192/26"]])
    by (vm_compute; reflexivity).
  reflexivity.
Qed.

Lemma example_1_witness :
  find_vnet_gaps
    [Vnet "vnet-a" "westeurope" (Some ["10.0.0.0/24"]) 256
       (Some [Subnet "front" (Some ["10.0.0.0/26"]) 64;
              Subnet "back" (Some ["10.0.0.128/26"]) 64]) []]
  = Ok [Vnet "vnet-a" "westeurope" (Some ["10.0.0.0/24"]) 256
          (Some [Subnet "front" (Some ["10.0.0.0/26"]) 64;
                 Subnet "back" (Some ["10.0.0.128/26"]) 64])
          [GapRecord "10.0.0.64 - 10.0.0.127" [Cidr "10.0.0.64/26"];
           GapRecord "10.0.0.192 - 10.0.0.255" [Cidr "10.0.0.192/26"]]].
Proof.
  apply (example_1
           (Vnet "vnet-a" "westeurope" (Some ["10.0.0.0/24"]) 256
              (Some [Subnet "front" (Some ["10.0.0.0/26"]) 64;
                     Subnet "back" (Some ["10.0.0.128/26"]) 64]) []));
    reflexivity.
Defined.

(** ** The sweep of the gap finder *)

Lemma ignored_not_overlaps container s :
  wf_network container -> wf_network s ->
  ignored container s = true -> overlaps container s = false.
Proof.
  intros Hc Hs Hi. destruct (overlaps container s) eqn:E; [|reflexivity].
  apply overlaps_spec in E as (Hv & H1 & H2); auto.
  unfold ignored in Hi. rewrite Hv in Hi.
  replace (version_eqb (net_version s) (net_version s)) with true in Hi
    by (destruct (net_version s); reflexivity).
  simpl in Hi. apply orb_prop in Hi as [Hi|Hi]; apply Z.ltb_lt in Hi; lia.
Qed.

Lemma filter_overlaps_keep container (keep : network -> bool) subs :
  wf_network container -> Forall wf_network subs ->
  (forall s, keep s = false -> ignored container s = true) ->
  filter (fun s => overlaps container s) (filter keep subs)
  = filter (fun s => overlaps container s) subs.
Proof.
  intros Hc Hsubs Hkeep. induction Hsubs as [|s subs Hs _ IH]; [reflexivity|].
  simpl. destruct (keep s) eqn:Ek.
  - simpl. rewrite IH. reflexivity.
  - rewrite (ignored_not_overlaps container s Hc Hs (Hkeep s Ek)). exact IH.
Qed.

(** C5.  The gap finder ignores the sub-ranges of another family and the
    sub-ranges that do not overlap the container: removing any of them from
    the list changes neither the gap records returned nor whether the call
    succeeds. *)
Theorem find_gaps_ignores_unrelated (container : network)
  (sub_ranges : list network) (keep : network -> bool) :
  wf_network container -> Forall wf_network sub_ranges ->
  (forall s, keep s = false -> ignored container s = true) ->
  find_gaps container sub_ranges = find_gaps container (filter keep sub_ranges).
Proof.
  intros Hc Hsubs Hkeep.
  unfold find_gaps, vnet_gaps. cbn [all_space_gaps]. unfold space_gaps.
  rewrite (filter_overlaps_keep container keep sub_ranges Hc Hsubs Hkeep).
  reflexivity.
Qed.

Lemma find_gaps_ignores_unrelated_witness :
  find_gaps (Network (Address IPv4 167772160 None) 24)
    [Network (Address IPv4 167772160 None) 26;
     Network (Address IPv6 42540766411282592856903984951653826560 None) 32;
     Network (Address IPv4 3232235776 None) 24;
     Network (Address IPv4 167772288 None) 26]
  = find_gaps (Network (Address IPv4 167772160 None) 24)
      (filter (fun s => negb (ignored (Network (Address IPv4 167772160 None) 24) s))
         [Network (Address IPv4 167772160 None) 26;
          Network (Address IPv6 42540766411282592856903984951653826560 None) 32;
          Network (Address IPv4 3232235776 None) 24;
          Network (Address IPv4 167772288 None) 26]).
Proof.
  apply (find_gaps_ignores_unrelated
           (Network (Address IPv4 167772160 None) 24)
           [Network (Address IPv4 167772160 None) 26;
            Network (Address IPv6 42540766411282592856903984951653826560 None) 32;
            Network (Address IPv4 3232235776 None) 24;
            Network (Address IPv4 167772288 None) 26]
           (fun s => negb (ignored (Network (Address IPv4 167772160 None) 24) s))).
  - reflexivity.
  - repeat constructor.
  - intros s Hs. apply negb_false_iff in Hs. exact Hs.
Defined.

Lemma insert_Forall (P : network -> Prop) x l :
  P x -> Forall P l -> Forall P (insert_by_network_address x l).
Proof.
  intros Hx Hl. induction Hl as [|y l Hy Hl IH]; simpl.
  - constructor; [exact Hx | constructor].
  - destruct (_ <? _); constructor; auto.
Qed.

Lemma sort_Forall (P : network -> Prop) l :
  Forall P l -> Forall P (sort_by_network_address l).
Proof.
  intros Hl. induction Hl as [|x l Hx Hl IH]; simpl; [constructor|].
  apply insert_Forall; assumption.
Qed.

Lemma filter_Forall_both {A : Type} (f : A -> bool) (P : A -> Prop) l :
  Forall P l -> Forall (fun x => P x /\ f x = true) (filter f l).
Proof.
  intros Hl. induction Hl as [|x l Hx Hl IH]; simpl; [constructor|].
  destruct (f x) eqn:E; [constructor; auto | exact IH].
Qed.

Lemma version_eqb_refl v : version_eqb v v = true.
Proof. destruct v; reflexivity. Qed.

Lemma addr_eq_unscoped a b :
  addr_version a = addr_version b ->
  addr_scope_id a = None -> addr_scope_id b = None ->
  addr_eq a b = (addr_ip a =? addr_ip b).
Proof.
  intros Hv Ha Hb. unfold addr_eq. rewrite Hv, version_eqb_refl, Ha, Hb.
  destruct (addr_version b); simpl; rewrite !andb_true_r; reflexivity.
Qed.

Lemma gap_record_of_Ok text r : gap_record_of text = Ok r -> gap r = text.
Proof.
  unfold gap_record_of. intros H.
  destruct (split " - " text) as [|a [|b [|c l]]]; try discriminate.
  apply bind_Ok in H as (cidr & _ & H). injection H as <-. reflexivity.
Qed.

(** ** Overlapping sub-ranges *)

(** Whatever the cursor was, one turn of the sweep leaves it at the address
    after the subnet's last address: the assignment takes no maximum. *)
Lemma sweep_step_cursor cursor gaps subnet cursor' gaps' :
  sweep_step (cursor, gaps) subnet = Ok (cursor', gaps') ->
  cursor' = Address (net_version subnet) (last_int subnet + 1) None.
Proof.
  unfold sweep_step. intros H.
  apply bind_Ok in H as (gt & _ & H). apply bind_Ok in H as (g1 & _ & H).
  apply bind_Ok in H as (c1 & Hc1 & H). injection H as <- _.
  unfold addr_add in Hc1. apply address_of_int_Ok in Hc1 as [-> _]. reflexivity.
Qed.

(** C3 at the container 10.0.0.0/24 with the sub-ranges 10.0.0.0/25 and
    10.0.0.0/26, which the sort leaves in this order.  After the first the
    cursor is 10.0.0.128; after the second it is 10.0.0.64: it has moved
    backward, and is not the maximum of the previous cursor and the address
    after the sub-range's last. *)
Theorem cursor_moves_backward :
  sort_by_network_address
    (filter (fun s => overlaps (Network (Address IPv4 167772160 None) 24) s)
       [Network (Address IPv4 167772160 None) 25;
        Network (Address IPv4 167772160 None) 26])
  = [Network (Address IPv4 167772160 None) 25;
     Network (Address IPv4 167772160 None) 26]
  /\ sweep_step (Address IPv4 167772160 None, [])
       (Network (Address IPv4 167772160 None) 25)
     = Ok (Address IPv4 167772288 None, [])
  /\ sweep_step (Address IPv4 167772288 None, [])
       (Network (Address IPv4 167772160 None) 26)
     = Ok (Address IPv4 167772224 None, [])
  /\ 167772224 < 167772288
  /\ 167772224
     <> Z.max 167772288
          (last_int (Network (Address IPv4 167772160 None) 26) + 1).
Proof.
  repeat split; try (vm_compute; reflexivity). vm_compute. discriminate.
Qed.

(** C1 at the same input.  The gap finder reports the one gap
    10.0.0.64 - 10.0.0.255, and the address 10.0.0.64 of that gap lies in
    the sub-range 10.0.0.0/25: the union of the gaps and the union of the
    sub-ranges overlap. *)
Theorem gap_overlaps_sub_range :
  find_gaps (Network (Address IPv4 167772160 None) 24)
    [Network (Address IPv4 167772160 None) 25;
     Network (Address IPv4 167772160 None) 26]
  = Ok [GapRecord "10.0.0.64 - 10.0.0.255"
          [Cidr "10.0.0.64/26"; Cidr "10.0.0.128/25"]]
  /\ gap_text (Address IPv4 167772224 None, Address IPv4 167772415 None)
     = "10.0.0.64 - 10.0.0.255"
  /\ contains (Network (Address IPv4 167772160 None) 25)
       (Address IPv4 167772224 None) = true.
Proof. repeat split; vm_compute; reflexivity. Qed.

(** ** Trailing zero bits *)

Lemma pos_trailing_zeros_nonneg p : 0 <= pos_trailing_zeros p.
Proof. induction p; cbn [pos_trailing_zeros]; lia. Qed.

Lemma land_lnot_pred (p : positive) :
  Z.land (Z.lnot (Z.pos p)) (Z.pos p - 1) = Z.ones (pos_trailing_zeros p).
Proof.
  induction p as [p IH|p IH|].
  - (* 2p+1 *)
    cbn [pos_trailing_zeros]. change (Z.ones 0) with 0.
    apply Z.bits_inj'. intros i Hi. rewrite Z.land_spec, Z.lnot_spec, Z.bits_0 by lia.
    replace (Z.pos p~1 - 1) with (Z.pos p~1 - 1 + 0) by lia.
    rewrite Pos2Z.inj_xI.
    replace (2 * Z.pos p + 1 - 1 + 0) with (2 * Z.pos p) by lia.
    destruct (Z.eq_dec i 0) as [->|Hnz].
    + rewrite Z.testbit_even_0. apply andb_false_r.
    + replace i with (Z.succ (i - 1)) by lia.
      rewrite Z.testbit_odd_succ, Z.testbit_even_succ by lia.
      apply andb_negb_l.
  - (* 2p *)
    cbn [pos_trailing_zeros].
    pose proof (pos_trailing_zeros_nonneg p) as Hn.
    apply Z.bits_inj'. intros i Hi.
    rewrite Z.land_spec, Z.lnot_spec by lia.
    rewrite Z.testbit_ones_nonneg by lia.
    rewrite Pos2Z.inj_xO.
    replace (2 * Z.pos p - 1) with (2 * (Z.pos p - 1) + 1) by lia.
    destruct (Z.eq_dec i 0) as [->|Hnz].
    + rewrite Z.testbit_even_0, Z.testbit_odd_0. cbn [negb andb].
      symmetry. apply Z.ltb_lt. lia.
    + replace i with (Z.succ (i - 1)) at 1 2 by lia.
      rewrite Z.testbit_odd_succ, Z.testbit_even_succ by lia.
      rewrite <- Z.lnot_spec, <- Z.land_spec by lia.
      rewrite IH, Z.testbit_ones_nonneg by lia.
      destruct (Z.ltb_spec (i - 1) (pos_trailing_zeros p)),
        (Z.ltb_spec i (1 + pos_trailing_zeros p)); lia || reflexivity.
  - reflexivity.
Qed.

Lemma bit_length_ones n : 0 <= n -> bit_length (Z.ones n) = n.
Proof.
  intros Hn. unfold bit_length. rewrite Z.ones_equiv.
  destruct (Z.eq_dec n 0) as [->|Hnz]; [reflexivity|].
  assert (0 < 2 ^ n) by (apply Z.pow_pos_nonneg; lia).
  assert (2 ^ 1 <= 2 ^ n) by (apply Z.pow_le_mono_r; lia).
  change (2 ^ 1) with 2 in *.
  destruct (Z.eqb_spec (Z.pred (2 ^ n)) 0); [lia|].
  rewrite Z.abs_eq by lia. rewrite Z.log2_pred_pow2 by lia. lia.
Qed.

Lemma pos_trailing_zeros_divides p :
  Z.pos p mod 2 ^ pos_trailing_zeros p = 0.
Proof.
  induction p as [p IH|p IH|]; cbn [pos_trailing_zeros];
    try (rewrite Z.pow_0_r; apply Z.mod_1_r).
  pose proof (pos_trailing_zeros_nonneg p) as Hn.
  rewrite Z.pow_add_r, Z.pow_1_r, Pos2Z.inj_xO by lia.
  assert (0 < 2 ^ pos_trailing_zeros p) by (apply Z.pow_pos_nonneg; lia).
  rewrite Z.mul_mod_distr_l by lia. rewrite IH. reflexivity.
Qed.

Lemma pos_trailing_zeros_maximal p :
  Z.pos p mod 2 ^ (pos_trailing_zeros p + 1) <> 0.
Proof.
  induction p as [p IH|p IH|]; cbn [pos_trailing_zeros].
  - rewrite Z.add_0_l, Z.pow_1_r, Pos2Z.inj_xI.
    rewrite Z.add_comm, Z.mul_comm, Z.mod_add by lia. discriminate.
  - pose proof (pos_trailing_zeros_nonneg p) as Hn.
    replace (1 + pos_trailing_zeros p + 1) with (1 + (pos_trailing_zeros p + 1)) by lia.
    rewrite Z.pow_add_r, Z.pow_1_r, Pos2Z.inj_xO by lia.
    assert (0 < 2 ^ (pos_trailing_zeros p + 1)) by (apply Z.pow_pos_nonneg; lia).
    rewrite Z.mul_mod_distr_l by lia. lia.
  - discriminate.
Qed.

(** If [2^j] divides a positive number, it has at least [j] trailing
    zero bits. *)
Lemma pos_trailing_zeros_ge p j :
  0 <= j -> Z.pos p mod 2 ^ j = 0 -> j <= pos_trailing_zeros p.
Proof.
  intros Hj Hdiv. destruct (Z_le_gt_dec j (pos_trailing_zeros p)) as [|Hgt]; [assumption|].
  exfalso. apply (pos_trailing_zeros_maximal p).
  pose proof (pos_trailing_zeros_nonneg p) as Hn.
  apply Z.mod_divide in Hdiv; [|apply Z.pow_nonzero; lia].
  apply Z.mod_divide; [apply Z.pow_nonzero; lia|].
  destruct Hdiv as [q Hq]. exists (q * 2 ^ (j - (pos_trailing_zeros p + 1))).
  rewrite <- Z.mul_assoc, <- Z.pow_add_r by lia.
  replace (j - (pos_trailing_zeros p + 1) + (pos_trailing_zeros p + 1)) with j by lia.
  exact Hq.
Qed.

(** [_count_righthand_zero_bits] on a positive number: the number of its
    trailing zero bits, capped at [bits]. *)
Lemma count_righthand_zero_bits_pos p bits :
  count_righthand_zero_bits (Z.pos p) bits = Z.min bits (pos_trailing_zeros p).
Proof.
  unfold count_righthand_zero_bits. cbn [Z.eqb].
  rewrite land_lnot_pred, bit_length_ones by apply pos_trailing_zeros_nonneg.
  reflexivity.
Qed.

(** Two to the count divides the number; no power up to [bits] above the
    count does, unless the number is 0. *)
Lemma count_righthand_zero_bits_divides number bits :
  0 <= number -> 0 <= bits ->
  number mod 2 ^ count_righthand_zero_bits number bits = 0.
Proof.
  intros Hn Hb. destruct number as [|p|p]; [apply Z.mod_0_l| |lia].
  { pose proof (count_righthand_zero_bits_range 0 bits Hb).
    apply Z.pow_nonzero; lia. }
  rewrite count_righthand_zero_bits_pos.
  pose proof (pos_trailing_zeros_nonneg p) as Ht.
  pose proof (pos_trailing_zeros_divides p) as Hd.
  apply Z.mod_divide in Hd; [|apply Z.pow_nonzero; lia].
  apply Z.mod_divide; [apply Z.pow_nonzero; lia|].
  destruct Hd as [q Hq].
  exists (q * 2 ^ (pos_trailing_zeros p - Z.min bits (pos_trailing_zeros p))).
  rewrite <- Z.mul_assoc, <- Z.pow_add_r by lia.
  replace (pos_trailing_zeros p - Z.min bits (pos_trailing_zeros p)
           + Z.min bits (pos_trailing_zeros p)) with (pos_trailing_zeros p) by lia.
  exact Hq.
Qed.

Lemma count_righthand_zero_bits_maximal number bits h :
  0 < number -> count_righthand_zero_bits number bits < h <= bits ->
  number mod 2 ^ h <> 0.
Proof.
  intros Hn Hh Hdiv. destruct number as [|p|p]; try lia.
  rewrite count_righthand_zero_bits_pos in Hh.
  pose proof (pos_trailing_zeros_nonneg p) as Ht.
  apply pos_trailing_zeros_ge in Hdiv; lia.
Qed.

Lemma count_righthand_zero_bits_ge number bits j :
  0 <= number -> 0 <= j <= bits -> number mod 2 ^ j = 0 ->
  j <= count_righthand_zero_bits number bits.
Proof.
  intros Hn Hj Hdiv. destruct number as [|p|p]; try lia.
  - unfold count_righthand_zero_bits. simpl. lia.
  - rewrite count_righthand_zero_bits_pos.
    apply pos_trailing_zeros_ge in Hdiv; lia.
Qed.

(** ** The loop of [summarize_address_range] *)

Lemma network_init_pair v f p n :
  network_init v (FromPair f p) true = Ok n -> n = Network (Address v f None) p.
Proof.
  unfold network_init. cbn [split_addr_prefix bind address_of_part make_netmask].
  intros H. apply bind_Ok in H as (a & Ha & H).
  apply address_of_int_Ok in Ha as [-> _].
  apply bind_Ok in H as (p' & Hp & H).
  destruct (negb _) in Hp; [discriminate|]. injection Hp as <-.
  cbn [addr_ip] in H. destruct (negb _) in H; [discriminate|].
  injection H as <-. reflexivity.
Qed.

Lemma network_init_pair_Ok v f p :
  0 <= f <= ALL_ONES v -> 0 <= p <= max_prefixlen v ->
  f mod 2 ^ (max_prefixlen v - p) = 0 ->
  network_init v (FromPair f p) true = Ok (Network (Address v f None) p).
Proof.
  intros Hf Hp Hal. unfold network_init.
  cbn [split_addr_prefix bind address_of_part make_netmask].
  rewrite address_of_int_in_range by exact Hf. cbn [bind].
  rewrite (proj2 (Z.leb_le 0 p)), (proj2 (Z.leb_le p _)) by lia.
  cbn [andb negb bind addr_ip].
  rewrite land_netmask by assumption. rewrite Hal, Z.sub_0_r, Z.eqb_refl.
  reflexivity.
Qed.

Lemma bit_length_log2 n : 0 < n -> bit_length n - 1 = Z.log2 n.
Proof.
  intros Hn. unfold bit_length. destruct (Z.eqb_spec n 0); [lia|].
  rewrite Z.abs_eq by lia. lia.
Qed.

Lemma loop_nbits_range v f l :
  f <= l -> 0 <= loop_nbits v f l <= max_prefixlen v.
Proof.
  intros Hfl. unfold loop_nbits. rewrite bit_length_log2 by lia.
  pose proof (max_prefixlen_pos v).
  pose proof (count_righthand_zero_bits_range f (max_prefixlen v)).
  pose proof (Z.log2_nonneg (l - f + 1)). lia.
Qed.

Lemma host_bits_pair v f p :
  host_bits (Network (Address v f None) p) = max_prefixlen v - p.
Proof. reflexivity. Qed.

(** The network the loop builds at [f] is a greatest block of the range. *)
Lemma loop_block v f l net :
  f <= l ->
  network_init v (FromPair f (max_prefixlen v - loop_nbits v f l)) true = Ok net ->
  first_int net = f /\ greatest_block v l net
  /\ last_int net = f + 2 ^ loop_nbits v f l - 1.
Proof.
  intros Hfl H. pose proof (network_init_Ok _ _ _ _ H) as [Hwf Hv].
  apply network_init_pair in H. subst net.
  pose proof (loop_nbits_range v f l Hfl) as Hn.
  pose proof (last_int_eq _ Hwf) as Hlast.
  rewrite host_bits_pair in Hlast.
  replace (max_prefixlen v - (max_prefixlen v - loop_nbits v f l))
    with (loop_nbits v f l) in Hlast by lia.
  change (first_int (Network (Address v f None) (max_prefixlen v - loop_nbits v f l)))
    with f in *.
  destruct (wf_network_range _ Hwf) as (_ & Hf0 & _).
  change (first_int (Network (Address v f None) (max_prefixlen v - loop_nbits v f l)))
    with f in Hf0.
  split; [reflexivity|]. split; [|exact Hlast].
  pose proof (Z.log2_spec (l - f + 1) ltac:(lia)) as Hlog.
  pose proof (Z.log2_nonneg (l - f + 1)) as Hlog0.
  assert (Hk : loop_nbits v f l <= Z.log2 (l - f + 1)).
  { unfold loop_nbits. rewrite bit_length_log2 by lia. lia. }
  assert (Hpow : 2 ^ loop_nbits v f l <= 2 ^ Z.log2 (l - f + 1))
    by (apply Z.pow_le_mono_r; lia).
  repeat split; auto.
  - rewrite Hlast. lia.
  - intros h Hh. rewrite host_bits_pair in Hh.
    unfold first_int. cbn [network_address addr_ip].
    replace (max_prefixlen v - (max_prefixlen v - loop_nbits v f l))
      with (loop_nbits v f l) in Hh by lia.
    destruct (Z_le_gt_dec (Z.log2 (l - f + 1))
                (count_righthand_zero_bits f (max_prefixlen v))) as [Hc|Hc].
    + right.
      assert (2 ^ Z.succ (Z.log2 (l - f + 1)) <= 2 ^ h).
      { apply Z.pow_le_mono_r; [lia|]. unfold loop_nbits in Hh.
        rewrite bit_length_log2 in Hh by lia. lia. }
      lia.
    + left. unfold loop_nbits in Hh. rewrite bit_length_log2 in Hh by lia.
      destruct (Z.eq_dec f 0) as [->|Hnz].
      * unfold count_righthand_zero_bits in Hh, Hc. simpl in Hh, Hc. lia.
      * apply count_righthand_zero_bits_maximal with (bits := max_prefixlen v); lia.
Qed.

Lemma shiftl_1 n : 0 <= n -> Z.shiftl 1 n = 2 ^ n.
Proof. intros Hn. rewrite Z.shiftl_mul_pow2 by exact Hn. lia. Qed.

(** What the loop returns is a chain of greatest blocks from [f] to [l]. *)
Lemma summarize_loop_sound v l : forall fuel f nets,
  l <= ALL_ONES v ->
  summarize_loop fuel v f l = Some (Ok nets) -> summarizes v l f nets.
Proof.
  induction fuel as [|fuel IH]; intros f nets Hl H; cbn [summarize_loop] in H;
    destruct (Z.leb_spec f l) as [Hfl|Hfl];
    try discriminate;
    try (injection H as <-; constructor; lia).
  fold (loop_nbits v f l) in H.
  destruct (network_init v (FromPair f (max_prefixlen v - loop_nbits v f l)) true)
    as [net|e] eqn:Enet; [|discriminate].
  destruct (loop_block v f l net Hfl Enet) as (Hfirst & Hblock & Hlast).
  pose proof (loop_nbits_range v f l Hfl) as Hn.
  rewrite shiftl_1 in H by lia.
  replace (f + 2 ^ loop_nbits v f l) with (last_int net + 1) in H by lia.
  destruct (Z.eqb_spec (last_int net + 1 - 1) (ALL_ONES v)) as [Hmax|Hmax].
  - injection H as <-. apply summarizes_cons; auto. constructor. lia.
  - destruct (summarize_loop fuel v (last_int net + 1) l) as [[rest|e]|] eqn:Erest;
      try discriminate.
    injection H as <-. apply summarizes_cons; auto.
Qed.

(** On a range within the family's width the loop raises nothing. *)
Lemma summarize_loop_no_raise v l : forall fuel f e,
  0 <= f -> l <= ALL_ONES v -> summarize_loop fuel v f l <> Some (Raise e).
Proof.
  induction fuel as [|fuel IH]; intros f e Hf Hl H; cbn [summarize_loop] in H;
    destruct (Z.leb_spec f l) as [Hfl|Hfl]; try discriminate.
  fold (loop_nbits v f l) in H.
  pose proof (loop_nbits_range v f l Hfl) as Hn.
  assert (Hal : f mod 2 ^ loop_nbits v f l = 0).
  { pose proof (count_righthand_zero_bits_divides f (max_prefixlen v) Hf
                  ltac:(pose proof (max_prefixlen_pos v); lia)) as Hd.
    apply Z.mod_divide in Hd;
      [|apply Z.pow_nonzero;
        [lia | apply count_righthand_zero_bits_range;
               pose proof (max_prefixlen_pos v); lia]].
    apply Z.mod_divide; [apply Z.pow_nonzero; lia|].
    destruct Hd as [q Hq].
    pose proof (count_righthand_zero_bits_range f (max_prefixlen v)
                  ltac:(pose proof (max_prefixlen_pos v); lia)) as Hc.
    assert (Hle : loop_nbits v f l <= count_righthand_zero_bits f (max_prefixlen v))
      by (unfold loop_nbits; lia).
    exists (q * 2 ^ (count_righthand_zero_bits f (max_prefixlen v) - loop_nbits v f l)).
    rewrite <- Z.mul_assoc, <- Z.pow_add_r by lia.
    replace (count_righthand_zero_bits f (max_prefixlen v) - loop_nbits v f l
             + loop_nbits v f l)
      with (count_righthand_zero_bits f (max_prefixlen v)) by lia.
    exact Hq. }
  rewrite network_init_pair_Ok in H;
    [| lia | lia
     | replace (max_prefixlen v - (max_prefixlen v - loop_nbits v f l))
         with (loop_nbits v f l) by lia; exact Hal].
  destruct (_ =? _) in H; [discriminate|].
  destruct (summarize_loop fuel v (f + Z.shiftl 1 (loop_nbits v f l)) l)
    as [[rest|e']|] eqn:Erest; try discriminate.
  injection H as ->. revert Erest. apply IH; [|exact Hl].
  rewrite shiftl_1 by lia.
  assert (0 < 2 ^ loop_nbits v f l) by (apply Z.pow_pos_nonneg; lia). lia.
Qed.

(** *** The loop ends within [loop_fuel] iterations *)

Lemma log2_range_le (v : version) (f l : Z) :
  0 <= f <= l -> l <= ALL_ONES v -> Z.log2 (l - f + 1) <= max_prefixlen v.
Proof.
  intros Hf Hl. unfold ALL_ONES in Hl.
  pose proof (max_prefixlen_pos v).
  transitivity (Z.log2 (2 ^ max_prefixlen v));
    [apply Z.log2_le_mono; lia | rewrite Z.log2_pow2; lia].
Qed.

Lemma steps_bound_le v f l :
  0 <= f -> l <= ALL_ONES v -> steps_bound v f l <= 2 * max_prefixlen v + 1.
Proof.
  intros Hf Hl. unfold steps_bound. pose proof (max_prefixlen_pos v) as HB.
  destruct (Z.ltb_spec l f); [lia|]. cbv zeta.
  pose proof (log2_range_le v f l ltac:(lia) Hl).
  pose proof (count_righthand_zero_bits_range f (max_prefixlen v) ltac:(lia)).
  destruct (Z.leb_spec (Z.log2 (l - f + 1))
              (count_righthand_zero_bits f (max_prefixlen v))); lia.
Qed.

Lemma mod_pow2_add (f n : Z) :
  0 <= n -> f mod 2 ^ n = 0 -> (f + 2 ^ n) mod 2 ^ n = 0.
Proof.
  intros Hn Hf. assert (0 < 2 ^ n) by (apply Z.pow_pos_nonneg; lia).
  replace (f + 2 ^ n) with (f + 1 * 2 ^ n) by lia.
  rewrite Z.mod_add by lia. exact Hf.
Qed.

(** Adding [2^c] to a multiple of [2^c] that is no multiple of [2^(c+1)]
    gives a multiple of [2^(c+1)]. *)
Lemma mod_pow2_carry (f c : Z) :
  0 <= c -> f mod 2 ^ c = 0 -> f mod 2 ^ (c + 1) <> 0 ->
  (f + 2 ^ c) mod 2 ^ (c + 1) = 0.
Proof.
  intros Hc Hdiv Hnot.
  assert (Hpos : 0 < 2 ^ c) by (apply Z.pow_pos_nonneg; lia).
  assert (Hp : 2 ^ (c + 1) = 2 * 2 ^ c) by (rewrite Z.pow_add_r by lia; lia).
  apply Z.mod_divide in Hdiv; [|lia]. destruct Hdiv as [m Hm].
  destruct (Z.Even_or_Odd m) as [[m' Hm']|[m' Hm']].
  - exfalso. apply Hnot. apply Z.mod_divide; [lia|]. exists m'. nia.
  - apply Z.mod_divide; [lia|]. exists (m' + 1). nia.
Qed.

Lemma steps_bound_decreases v f l :
  0 <= f <= l -> l <= ALL_ONES v ->
  f + 2 ^ loop_nbits v f l - 1 <> ALL_ONES v ->
  steps_bound v (f + 2 ^ loop_nbits v f l) l + 1 <= steps_bound v f l.
Proof.
  intros Hf Hl Hbreak.
  pose proof (max_prefixlen_pos v) as HB.
  pose proof (loop_nbits_range v f l ltac:(lia)) as Hn.
  pose proof (log2_range_le v f l Hf Hl) as HkB.
  pose proof (Z.log2_nonneg (l - f + 1)) as Hk0.
  pose proof (Z.log2_spec (l - f + 1) ltac:(lia)) as Hlog.
  pose proof (count_righthand_zero_bits_range f (max_prefixlen v) ltac:(lia)) as Hc.
  pose proof (count_righthand_zero_bits_divides f (max_prefixlen v)
                ltac:(lia) ltac:(lia)) as Hdiv.
  assert (Hpos : 0 < 2 ^ loop_nbits v f l) by (apply Z.pow_pos_nonneg; lia).
  unfold steps_bound at 2. destruct (Z.ltb_spec l f); [lia|]. cbv zeta.
  unfold steps_bound.
  destruct (Z.ltb_spec l (f + 2 ^ loop_nbits v f l)) as [|Hrest].
  { destruct (Z.leb_spec (Z.log2 (l - f + 1))
                (count_righthand_zero_bits f (max_prefixlen v))); lia. }
  cbv zeta.
  set (f' := f + 2 ^ loop_nbits v f l) in *.
  pose proof (count_righthand_zero_bits_range f' (max_prefixlen v) ltac:(lia)) as Hc'.
  pose proof (Z.log2_nonneg (l - f' + 1)) as Hk0'.
  assert (Hnb : loop_nbits v f l
                = Z.min (count_righthand_zero_bits f (max_prefixlen v))
                        (Z.log2 (l - f + 1))).
  { unfold loop_nbits. rewrite bit_length_log2 by lia. reflexivity. }
  destruct (Z.leb_spec (Z.log2 (l - f + 1))
              (count_righthand_zero_bits f (max_prefixlen v))) as [Hphase|Hphase].
  - (* the rest of the range limits the block *)
    assert (Hnk : loop_nbits v f l = Z.log2 (l - f + 1)) by lia.
    assert (Hk' : Z.log2 (l - f' + 1) < Z.log2 (l - f + 1)).
    { apply Z.log2_lt_pow2; [unfold f'; lia|].
      unfold f'. rewrite Hnk. rewrite Z.pow_succ_r in Hlog by lia. lia. }
    assert (Hc'k : Z.log2 (l - f + 1) <= count_righthand_zero_bits f' (max_prefixlen v)).
    { apply count_righthand_zero_bits_ge; [unfold f'; lia | lia |].
      unfold f'. rewrite Hnk. apply mod_pow2_add; [lia|].
      apply Z.mod_divide in Hdiv; [|apply Z.pow_nonzero; lia].
      apply Z.mod_divide; [apply Z.pow_nonzero; lia|].
      destruct Hdiv as [q Hq].
      exists (q * 2 ^ (count_righthand_zero_bits f (max_prefixlen v)
                       - Z.log2 (l - f + 1))).
      rewrite <- Z.mul_assoc, <- Z.pow_add_r by lia.
      replace (count_righthand_zero_bits f (max_prefixlen v) - Z.log2 (l - f + 1)
               + Z.log2 (l - f + 1))
        with (count_righthand_zero_bits f (max_prefixlen v)) by lia.
      exact Hq. }
    destruct (Z.leb_spec (Z.log2 (l - f' + 1))
                (count_righthand_zero_bits f' (max_prefixlen v))); lia.
  - (* the alignment of [f] limits the block *)
    assert (Hnc : loop_nbits v f l = count_righthand_zero_bits f (max_prefixlen v))
      by lia.
    assert (Hfpos : 0 < f).
    { destruct (Z.eq_dec f 0) as [->|]; [|lia].
      unfold count_righthand_zero_bits in Hphase. simpl in Hphase. lia. }
    assert (Hk' : Z.log2 (l - f' + 1) <= Z.log2 (l - f + 1))
      by (apply Z.log2_le_mono; unfold f'; lia).
    assert (Hc'c : count_righthand_zero_bits f (max_prefixlen v) + 1
                   <= count_righthand_zero_bits f' (max_prefixlen v)).
    { apply count_righthand_zero_bits_ge; [unfold f'; lia | lia |].
      unfold f'. rewrite Hnc. apply mod_pow2_carry; [lia | exact Hdiv |].
      apply count_righthand_zero_bits_maximal with (bits := max_prefixlen v); lia. }
    destruct (Z.leb_spec (Z.log2 (l - f' + 1))
                (count_righthand_zero_bits f' (max_prefixlen v))); lia.
Qed.

Lemma summarize_loop_fuel v l : forall fuel f,
  l <= ALL_ONES v -> steps_bound v f l <= Z.of_nat fuel ->
  summarize_loop fuel v f l <> None.
Proof.
  induction fuel as [|fuel IH]; intros f Hl Hb; cbn [summarize_loop];
    destruct (Z.leb_spec f l) as [Hfl|Hfl]; try discriminate.
  - exfalso. unfold steps_bound in Hb. destruct (Z.ltb_spec l f); [lia|].
    cbv zeta in Hb. pose proof (max_prefixlen_pos v).
    pose proof (Z.log2_nonneg (l - f + 1)).
    pose proof (count_righthand_zero_bits_range f (max_prefixlen v) ltac:(lia)).
    destruct (Z.leb_spec (Z.log2 (l - f + 1))
                (count_righthand_zero_bits f (max_prefixlen v))); lia.
  - fold (loop_nbits v f l).
    destruct (network_init v (FromPair f (max_prefixlen v - loop_nbits v f l)) true)
      as [net|e] eqn:Enet; [|discriminate].
    pose proof (network_init_Ok _ _ _ _ Enet) as [Hwf _].
    apply network_init_pair in Enet. subst net.
    destruct (wf_network_range _ Hwf) as (_ & Hf0 & _).
    change (first_int _) with f in Hf0.
    pose proof (loop_nbits_range v f l Hfl) as Hn.
    rewrite shiftl_1 by lia.
    destruct (Z.eqb_spec (f + 2 ^ loop_nbits v f l - 1) (ALL_ONES v)) as [|Hbreak];
      [discriminate|].
    pose proof (steps_bound_decreases v f l ltac:(lia) Hl Hbreak) as Hdec.
    specialize (IH (f + 2 ^ loop_nbits v f l) Hl ltac:(lia)).
    destruct (summarize_loop fuel v (f + 2 ^ loop_nbits v f l) l) as [[rest|e]|];
      [discriminate | discriminate | contradiction].
Qed.

(** The [while] loop ends: [loop_fuel] iterations are enough for every
    range within the family's width. *)
Lemma summarize_loop_terminates v f l :
  0 <= f -> l <= ALL_ONES v -> summarize_loop (loop_fuel v) v f l <> None.
Proof.
  intros Hf Hl. apply summarize_loop_fuel; [exact Hl|].
  pose proof (steps_bound_le v f l Hf Hl). pose proof (max_prefixlen_pos v).
  unfold loop_fuel. lia.
Qed.

(** [summarize_address_range] on two addresses of one family without zone
    identifier, the first not above the last: it returns, and what it
    returns is the chain of greatest blocks of the range. *)
Lemma summarize_address_range_Ok first last :
  wf_address first -> wf_address last ->
  addr_version first = addr_version last ->
  addr_scope_id first = None -> addr_scope_id last = None ->
  addr_ip first <= addr_ip last ->
  exists nets,
    summarize_address_range first last = Ok nets
    /\ summarizes (addr_version first) (addr_ip last) (addr_ip first) nets.
Proof.
  intros Hwf1 Hwf2 Hv Hs1 Hs2 Hle.
  apply wf_address_range in Hwf1, Hwf2. rewrite <- Hv in Hwf2.
  unfold summarize_address_range, addr_gt, addr_lt.
  rewrite Hv, version_eqb_refl. cbn [negb bind].
  rewrite addr_eq_unscoped by assumption.
  replace (negb (addr_ip first <? addr_ip last)
           && negb (addr_ip first =? addr_ip last))%bool with false.
  2:{ destruct (Z.ltb_spec (addr_ip first) (addr_ip last)),
        (Z.eqb_spec (addr_ip first) (addr_ip last)); simpl; try reflexivity; lia. }
  rewrite <- Hv.
  pose proof (summarize_loop_terminates (addr_version first) (addr_ip first)
                (addr_ip last) ltac:(lia) ltac:(lia)) as Hterm.
  destruct (summarize_loop (loop_fuel (addr_version first)) (addr_version first)
              (addr_ip first) (addr_ip last)) as [[nets|e]|] eqn:E.
  - exists nets. split; [reflexivity|].
    apply summarize_loop_sound in E; [exact E | lia].
  - exfalso. revert E. apply summarize_loop_no_raise; lia.
  - contradiction.
Qed.

(** *** What a chain of greatest blocks gives *)

Lemma wf_first_le_last n : wf_network n -> first_int n <= last_int n.
Proof.
  intros H. rewrite (last_int_eq n H).
  destruct (wf_network_range n H) as (Hh & _ & _).
  assert (0 < 2 ^ host_bits n) by (apply Z.pow_pos_nonneg; lia). lia.
Qed.

Lemma summarizes_bounds v l f nets :
  summarizes v l f nets ->
  Forall (fun n => f <= first_int n /\ last_int n <= l) nets.
Proof.
  induction 1 as [f Hf | f n rest Hfl Hfirst Hblock Hrest IH]; constructor.
  - destruct Hblock as (_ & _ & _ & Hlast & _). lia.
  - destruct Hblock as (Hwf & _).
    pose proof (wf_first_le_last n Hwf).
    eapply Forall_impl; [|exact IH]. simpl. intros m [H1 H2]. lia.
Qed.

Lemma summarizes_blocks v l f nets :
  summarizes v l f nets ->
  Forall (fun n => wf_network n /\ net_version n = v /\ unscoped n) nets.
Proof.
  induction 1 as [f Hf | f n rest Hfl Hfirst Hblock Hrest IH]; constructor; auto.
  destruct Hblock as (Hwf & Hv & Hu & _). auto.
Qed.

Lemma summarizes_covers v l f nets :
  summarizes v l f nets -> exactly_covers nets f l.
Proof.
  induction 1 as [f Hf | f n rest Hfl Hfirst Hblock Hrest IH]; intros x.
  - split; [intros (n & [] & _) | lia].
  - destruct Hblock as (Hwf & _ & _ & Hlast & _).
    pose proof (wf_first_le_last n Hwf) as Hle.
    specialize (IH x). split.
    + intros (m & [<-|Hin] & Hx); [lia|].
      assert (last_int n + 1 <= x <= l) by (apply IH; eauto). lia.
    + intros Hx. destruct (Z_le_gt_dec x (last_int n)).
      * exists n. split; [left; reflexivity | lia].
      * destruct (proj2 IH ltac:(lia)) as (m & Hin & Hm).
        exists m. split; [right; exact Hin | exact Hm].
Qed.

Lemma summarizes_disjoint v l f nets :
  summarizes v l f nets -> ascending_disjoint nets.
Proof.
  induction 1 as [f Hf | f n rest Hfl Hfirst Hblock Hrest IH]; constructor; auto.
  apply summarizes_bounds in Hrest.
  eapply Forall_impl; [|exact Hrest]. simpl. intros m [H1 _]. lia.
Qed.

Lemma summarizes_no_merge v l f nets :
  summarizes v l f nets -> no_adjacent_merge nets.
Proof.
  induction 1 as [f Hf | f n rest Hfl Hfirst Hblock Hrest IH];
    intros pre a b post c Heq Hm.
  - destruct pre; discriminate.
  - destruct pre as [|x pre]; simpl in Heq; injection Heq as -> ->.
    + (* the neighbours are the first two blocks *)
      inversion Hrest as [|f' b' rest' Hfl' Hfirst' Hblock' Hrest']; subst.
      destruct Hblock as (Hwfa & Hva & _ & _ & Hmax).
      destruct Hblock' as (Hwfb & _ & _ & Hlastb & _).
      destruct Hm as (Hwfc & Hvc & Hfc & Hlc).
      pose proof (wf_first_le_last b Hwfb) as Hb.
      pose proof (last_int_eq a Hwfa) as Hla.
      pose proof (last_int_eq c Hwfc) as Hlc'.
      destruct (wf_network_range a Hwfa) as (Hha & _ & _).
      destruct (wf_network_range c Hwfc) as (Hhc & _ & _).
      destruct (wf_network_facts c Hwfc) as (_ & _ & Halc).
      assert (Hlt : host_bits a < host_bits c).
      { destruct (Z_lt_ge_dec (host_bits a) (host_bits c)) as [|Hge]; [assumption|].
        assert (2 ^ host_bits c <= 2 ^ host_bits a)
          by (apply Z.pow_le_mono_r; lia). lia. }
      rewrite Hvc, Hva in Hhc.
      destruct (Hmax (host_bits c) ltac:(lia)) as [Hnot|Hbeyond].
      * apply Hnot. rewrite <- Hfc. exact Halc.
      * lia.
    + eapply IH; [reflexivity | exact Hm].
Qed.

Lemma ip_address_of_int_v4 n :
  0 <= n <= ALL_ONES IPv4 -> ip_address_of_int n = Ok (Address IPv4 n None).
Proof.
  intros H. unfold ip_address_of_int.
  rewrite address_of_int_in_range by exact H. reflexivity.
Qed.

Lemma ip_address_of_int_v6 n :
  ALL_ONES IPv4 < n <= ALL_ONES IPv6 ->
  ip_address_of_int n = Ok (Address IPv6 n None).
Proof.
  intros H. unfold ip_address_of_int, address_of_int at 1, check_int_address.
  destruct (Z.ltb_spec n 0); [unfold ALL_ONES in H; simpl in H; lia|].
  destruct (Z.gtb_spec n (ALL_ONES IPv4)); [|lia].
  cbn [bind catch_if is_Address_or_Netmask is_AddressValueError exn_cls orb].
  rewrite address_of_int_in_range by (unfold ALL_ONES in *; simpl in *; lia).
  reflexivity.
Qed.

Lemma ALL_ONES_le_v6 v : ALL_ONES v <= ALL_ONES IPv6.
Proof. destruct v; unfold ALL_ONES; simpl; lia. Qed.

(** The part of [ip_range_to_cidr] after the two texts are read: the
    integers [a <= b] go back to addresses of the family [v], and the
    summary of the range is a chain of greatest blocks. *)
Lemma summarize_ints (a b : Z) (v : version) :
  0 <= a <= b -> b <= ALL_ONES IPv6 ->
  (v = IPv4 /\ b <= ALL_ONES IPv4) \/ (v = IPv6 /\ ALL_ONES IPv4 < a) ->
  exists nets,
    bind (ip_address_of_int a) (fun first =>
      bind (ip_address_of_int b) (fun last =>
        bind (summarize_address_range first last) (fun nets =>
          Ok (map (fun net => Cidr (str_network net)) nets))))
    = Ok (map (fun net => Cidr (str_network net)) nets)
    /\ summarizes v b a nets.
Proof.
  intros Hab Hb Hv.
  assert (Hints : ip_address_of_int a = Ok (Address v a None)
                  /\ ip_address_of_int b = Ok (Address v b None)
                  /\ b <= ALL_ONES v).
  { destruct Hv as [[-> Hv]|[-> Hv]].
    - rewrite !ip_address_of_int_v4 by lia. auto.
    - rewrite !ip_address_of_int_v6 by lia. repeat split; lia. }
  destruct Hints as (-> & -> & Hmax). cbn [bind].
  destruct (summarize_address_range_Ok (Address v a None) (Address v b None))
    as (nets & -> & Hs);
    try reflexivity; try (apply wf_address_intro; auto; simpl; lia);
    [simpl; lia|].
  simpl in Hs. exists nets. cbn [bind]. auto.
Qed.

(** Where [ip_range_to_cidr] summarizes as the specification says: on
    every range of IPv4 addresses, and on every range of IPv6 addresses
    that starts at 2^32 or above.  The blocks returned are of the family of
    the range, cover exactly the range, are in ascending order without a
    shared address, and no two neighbours can be merged. *)
Theorem ip_range_to_cidr_summary (start_ip end_ip : string) (a b : address)
  (v : version) :
  ip_address_of_str start_ip = Ok a ->
  ip_address_of_str end_ip = Ok b ->
  addr_ip a <= addr_ip b ->
  (v = IPv4 /\ addr_ip b <= ALL_ONES IPv4)
  \/ (v = IPv6 /\ ALL_ONES IPv4 < addr_ip a) ->
  exists nets,
    ip_range_to_cidr start_ip end_ip
    = Ok (map (fun net => Cidr (str_network net)) nets)
    /\ Forall (fun n => wf_network n /\ net_version n = v /\ unscoped n) nets
    /\ exactly_covers nets (addr_ip a) (addr_ip b)
    /\ ascending_disjoint nets
    /\ no_adjacent_merge nets.
Proof.
  intros Ha Hb Hle Hv. unfold ip_range_to_cidr. rewrite Ha, Hb. cbn [bind].
  apply ip_address_of_str_Ok, wf_address_range in Ha, Hb.
  pose proof (ALL_ONES_le_v6 (addr_version a)).
  pose proof (ALL_ONES_le_v6 (addr_version b)).
  destruct (Z.gtb_spec (addr_ip a) (addr_ip b)); [lia|].
  destruct (summarize_ints (addr_ip a) (addr_ip b) v ltac:(lia) ltac:(lia) Hv)
    as (nets & -> & Hs).
  exists nets. cbn [catch_if].
  split; [reflexivity|].
  split; [exact (summarizes_blocks _ _ _ _ Hs)|].
  split; [exact (summarizes_covers _ _ _ _ Hs)|].
  split; [exact (summarizes_disjoint _ _ _ _ Hs)|].
  exact (summarizes_no_merge _ _ _ _ Hs).
Qed.

Lemma ip_range_to_cidr_summary_witness :
  exists nets,
    ip_range_to_cidr "192.168.1.5" "192.168.1.10"
    = Ok (map (fun net => Cidr (str_network net)) nets)
    /\ Forall (fun n => wf_network n /\ net_version n = IPv4 /\ unscoped n) nets
    /\ exactly_covers nets 3232235781 3232235786
    /\ ascending_disjoint nets
    /\ no_adjacent_merge nets.
Proof.
  apply (ip_range_to_cidr_summary "192.168.1.5" "192.168.1.10"
           (Address IPv4 3232235781 None) (Address IPv4 3232235786 None) IPv4).
  - vm_compute. reflexivity.
  - vm_compute. reflexivity.
  - vm_compute. discriminate.
  - left. split; [reflexivity | vm_compute; discriminate].
Defined.

(** ** The range summarizer on IPv6 addresses below 2^32 *)

(** C2 at the IPv6 range from [::] to [::1:0:0].  [ip_range_to_cidr] turns
    both ends into integers and back into addresses; the integer 0 comes
    back as the IPv4 address 0.0.0.0 and 2^32 as an IPv6 address, so
    [summarize_address_range] raises [TypeError], which the function does
    not catch.  On the IPv6 range from [::1] to [::2] it returns IPv4
    blocks. *)
Theorem ip_range_to_cidr_low_ipv6 :
  ip_address_of_str "::" = Ok (Address IPv6 0 None)
  /\ ip_address_of_str "::1:0:0" = Ok (Address IPv6 4294967296 None)
  /\ ip_range_to_cidr "::" "::1:0:0"
     = Raise (Exn TypeError
                (Msg "0.0.0.0 and ::1:0:0 are not of the same version"))
  /\ ip_range_to_cidr "::1" "::2" = Ok [Cidr "0.0.0.1/32"; Cidr "0.0.0.2/32"].
Proof. repeat split; vm_compute; reflexivity. Qed.

(** ** Coverage when the sub-ranges do not overlap one another *)

(** One turn of the sweep, computed. *)
Lemma sweep_step_eq v c cursor gaps s :
  addr_version cursor = v -> addr_scope_id cursor = None ->
  0 <= addr_ip cursor -> sweepable v c s ->
  sweep_step (cursor, gaps) s
  = Ok (Address v (last_int s + 1) None,
        if addr_ip cursor <? first_int s
        then (gaps ++ [(cursor, Address v (first_int s - 1) None)])%list
        else gaps).
Proof.
  intros Hv Hs Hu (Hwf & Hsv & Hsu & Hmax & _ & _).
  destruct (wf_network_range s Hwf) as (_ & Hf0 & _).
  pose proof (wf_first_le_last s Hwf) as Hfl.
  destruct (wf_network_facts s Hwf) as (Hwa & _ & _).
  apply wf_address_range in Hwa. fold (first_int s) (net_version s) in Hwa.
  rewrite Hsv in Hwa.
  unfold sweep_step, addr_gt, addr_lt. unfold net_version in Hsv.
  rewrite Hsv, Hv, version_eqb_refl. cbn [negb bind].
  rewrite addr_eq_unscoped by (auto; congruence).
  fold (first_int s).
  unfold addr_add, addr_sub. fold (last_int s) (first_int s).
  change (addr_version (broadcast_address s)) with (addr_version (network_address s)).
  rewrite Hsv.
  rewrite (address_of_int_in_range v (last_int s + 1)) by lia.
  destruct (Z.ltb_spec (addr_ip cursor) (first_int s)) as [Hlt|Hge].
  - replace (first_int s <? addr_ip cursor) with false
      by (symmetry; apply Z.ltb_ge; lia).
    replace (first_int s =? addr_ip cursor) with false
      by (symmetry; apply Z.eqb_neq; lia).
    cbn [negb andb].
    rewrite (address_of_int_in_range v (first_int s - 1)) by lia.
    reflexivity.
  - destruct (Z.ltb_spec (first_int s) (addr_ip cursor)),
      (Z.eqb_spec (first_int s) (addr_ip cursor)); cbn [negb andb bind];
      try reflexivity; lia.
Qed.

Lemma sweep_inv_step v c cursor gaps processed s :
  wf_network c ->
  addr_version cursor = v -> sweepable v c s ->
  sweep_inv v c (addr_ip cursor) gaps processed ->
  addr_ip cursor <= first_int s \/ first_int c = addr_ip cursor ->
  sweep_inv v c (last_int s + 1)
    (if addr_ip cursor <? first_int s
     then (gaps ++ [(cursor, Address v (first_int s - 1) None)])%list
     else gaps)
    (processed ++ [s])%list.
Proof.
  intros Hc Hcv Hsw (Hu & Hgaps & Hproc & Hpart) Hhead.
  destruct Hsw as (Hwf & Hsv & Hsu & Hmax & Hs1 & Hs2).
  pose proof (wf_first_le_last s Hwf) as Hfl.
  assert (Hgaps0 : first_int c = addr_ip cursor -> gaps = []).
  { intros E. destruct gaps as [|iv gaps]; [reflexivity|].
    inversion Hgaps as [|? ? (_ & _ & H1 & H2 & _) _]; subst. lia. }
  unfold sweep_inv. split; [lia|]. split; [|split].
  - (* the gaps *)
    destruct (Z.ltb_spec (addr_ip cursor) (first_int s)) as [Hlt|Hge].
    + apply Forall_app. split.
      * eapply Forall_impl; [|exact Hgaps]. simpl.
        intros iv (H1 & H2 & H3 & H4 & H5). repeat split; auto; lia.
      * constructor; [|constructor]. simpl. repeat split; auto; lia.
    + eapply Forall_impl; [|exact Hgaps]. simpl.
      intros iv (H1 & H2 & H3 & H4 & H5). repeat split; auto; lia.
  - (* the processed subnets *)
    apply Forall_app. split.
    + eapply Forall_impl; [|exact Hproc]. simpl. intros t Ht.
      destruct Hhead as [Hh|Hh]; [lia|].
      (* cursor at the start of the container *) lia.
    + constructor; [lia | constructor].
  - (* the partition below the new cursor *)
    intros x Hx. split.
    + intros (iv & Hin & Hiv) (t & Ht & Htx).
      apply in_app_or in Ht as [Ht|[<-|[]]].
      * (* an earlier subnet holds x: then x is below the old cursor *)
        rewrite Forall_forall in Hproc. specialize (Hproc t Ht).
        unfold in_network in Htx.
        assert (Hxu : first_int c <= x < addr_ip cursor) by lia.
        destruct (Z.ltb_spec (addr_ip cursor) (first_int s)).
        -- apply in_app_or in Hin as [Hin|[<-|[]]].
           ++ apply (proj1 (Hpart x Hxu)); eauto.
           ++ unfold in_interval in Hiv. simpl in Hiv. lia.
        -- apply (proj1 (Hpart x Hxu)); eauto.
      * (* s holds x *)
        unfold in_network in Htx.
        destruct (Z.ltb_spec (addr_ip cursor) (first_int s)).
        -- apply in_app_or in Hin as [Hin|[<-|[]]].
           ++ rewrite Forall_forall in Hgaps.
              destruct (Hgaps iv Hin) as (_ & _ & _ & H4 & _).
              unfold in_interval in Hiv. lia.
           ++ unfold in_interval in Hiv. simpl in Hiv. lia.
        -- rewrite Forall_forall in Hgaps.
           destruct (Hgaps iv Hin) as (_ & _ & H3 & H4 & _).
           unfold in_interval in Hiv.
           destruct Hhead as [Hh|Hh]; [lia|].
           rewrite (Hgaps0 Hh) in Hin. destruct Hin.
    + intros Hnone.
      destruct (Z_lt_ge_dec x (addr_ip cursor)) as [Hxu|Hxu].
      * (* below the old cursor *)
        destruct (proj2 (Hpart x ltac:(lia))) as (iv & Hin & Hiv).
        { intros (t & Ht & Htx). apply Hnone. exists t.
          split; [apply in_or_app; left; exact Ht | exact Htx]. }
        exists iv. split; [|exact Hiv].
        destruct (_ <? _); [apply in_or_app; left|]; exact Hin.
      * (* from the old cursor on: s does not hold x, so x is before s *)
        assert (Hxs : x < first_int s).
        { destruct (Z_lt_ge_dec x (first_int s)); [assumption|].
          exfalso. apply Hnone. exists s.
          split; [apply in_or_app; right; left; reflexivity|].
          unfold in_network. lia. }
        destruct (Z.ltb_spec (addr_ip cursor) (first_int s)); [|lia].
        exists (cursor, Address v (first_int s - 1) None).
        split; [apply in_or_app; right; left; reflexivity|].
        unfold in_interval. simpl. lia.
Qed.

Lemma insert_In x l y :
  In y (insert_by_network_address x l) <-> y = x \/ In y l.
Proof.
  induction l as [|z l IH]; simpl.
  - split; [intros [H|[]] | intros [H|[]]]; auto.
  - destruct (_ <? _); simpl; [rewrite IH|];
      split; intros H; repeat destruct H as [H|H]; auto.
Qed.

Lemma sort_In l y : In y (sort_by_network_address l) <-> In y l.
Proof.
  induction l as [|x l IH]; simpl; [reflexivity|].
  rewrite insert_In, IH. split; intros [H|H]; auto.
Qed.

Lemma insert_ascending x l :
  wf_network x -> Forall wf_network l ->
  Forall (disjoint_networks x) l -> ascending_disjoint l ->
  ascending_disjoint (insert_by_network_address x l).
Proof.
  intros Hx Hwf Hd Ha. unfold ascending_disjoint in *.
  pose proof (wf_first_le_last x Hx) as Hxle.
  induction Ha as [|y l Hy Ha IH]; simpl.
  - constructor; constructor.
  - inversion Hwf as [|? ? Hwy Hwl]; subst.
    inversion Hd as [|? ? Hdy Hdl]; subst.
    pose proof (wf_first_le_last y Hwy) as Hyle.
    fold (first_int y) (first_int x).
    destruct (Z.ltb_spec (first_int y) (first_int x)) as [Hlt|Hge].
    + constructor; [|apply IH; assumption].
      apply Forall_forall. intros b Hb. apply (proj1 (insert_In _ _ _)) in Hb as [->|Hb].
      * destruct Hdy; lia.
      * rewrite Forall_forall in Hy. apply Hy. exact Hb.
    + constructor; [|constructor; assumption].
      assert (Hxy : last_int x < first_int y) by (destruct Hdy; lia).
      constructor; [exact Hxy|].
      eapply Forall_impl; [|exact Hy]. simpl. intros b Hb. lia.
Qed.

Lemma sort_ascending l :
  Forall wf_network l -> ForallOrdPairs disjoint_networks l ->
  ascending_disjoint (sort_by_network_address l).
Proof.
  intros Hwf Hd. induction Hd as [|x l Hx Hd IH]; simpl; [constructor|].
  inversion Hwf as [|? ? Hwx Hwl]; subst.
  apply insert_ascending; auto.
  - apply sort_Forall. exact Hwl.
  - apply Forall_forall. intros y Hy. apply (proj1 (sort_In _ _)) in Hy.
    rewrite Forall_forall in Hx. apply Hx. exact Hy.
Qed.

Lemma sweep_cover v c : wf_network c ->
  forall rest cursor gaps processed,
  addr_version cursor = v -> addr_scope_id cursor = None ->
  Forall (sweepable v c) rest -> ascending_disjoint rest ->
  sweep_inv v c (addr_ip cursor) gaps processed ->
  Forall (fun s => addr_ip cursor <= first_int s) rest
  \/ first_int c = addr_ip cursor ->
  exists cursor' gaps',
    sweep (cursor, gaps) rest = Ok (cursor', gaps')
    /\ addr_version cursor' = v /\ addr_scope_id cursor' = None
    /\ sweep_inv v c (addr_ip cursor') gaps' (processed ++ rest)%list.
Proof.
  intros Hc. destruct (wf_network_range c Hc) as (_ & Hc0 & _).
  induction rest as [|s rest IH]; intros cursor gaps processed Hv Hs Hsw Ha Hinv Hhead.
  - exists cursor, gaps. rewrite app_nil_r. simpl. auto.
  - inversion Hsw as [|? ? Hs1 Hsw']; subst.
    inversion Ha as [|? ? Hlt Ha']; subst.
    assert (Hu : 0 <= addr_ip cursor) by (destruct Hinv as (H & _); lia).
    cbn [sweep]. rewrite (sweep_step_eq _ c cursor gaps s eq_refl Hs Hu Hs1).
    cbn [bind].
    assert (Hhead' : addr_ip cursor <= first_int s \/ first_int c = addr_ip cursor).
    { destruct Hhead as [Hh|Hh]; [left; inversion Hh; assumption | right; exact Hh]. }
    pose proof (sweep_inv_step _ c cursor gaps processed s Hc eq_refl Hs1 Hinv Hhead')
      as Hinv'.
    destruct (IH (Address (addr_version cursor) (last_int s + 1) None) _
                (processed ++ [s])%list eq_refl eq_refl Hsw' Ha' Hinv')
      as (cursor' & gaps' & Hsweep & Hv' & Hs' & Hfinal).
    { left. eapply Forall_impl; [|exact Hlt]. simpl. intros t Ht. lia. }
    exists cursor', gaps'. rewrite <- app_assoc in Hfinal. simpl in Hfinal.
    auto.
Qed.

(** One pass of [space_gaps], started without gaps, when the sub-ranges
    that overlap the address space do not overlap one another and none of
    them ends at the last address of the family. *)
Lemma space_gaps_cover (container : network) (sub_ranges : list network) :
  wf_network container -> unscoped container ->
  Forall wf_network sub_ranges ->
  Forall unscoped (filter (fun s => overlaps container s) sub_ranges) ->
  ForallOrdPairs disjoint_networks
    (filter (fun s => overlaps container s) sub_ranges) ->
  Forall (fun s => last_int s < ALL_ONES (net_version container))
    (filter (fun s => overlaps container s) sub_ranges) ->
  exists gaps,
    space_gaps sub_ranges [] container = Ok gaps
    /\ Forall (fun iv =>
                 addr_version (fst iv) = net_version container
                 /\ addr_version (snd iv) = net_version container
                 /\ first_int container <= addr_ip (fst iv)
                 /\ addr_ip (fst iv) <= addr_ip (snd iv)
                 /\ addr_ip (snd iv) <= last_int container) gaps
    /\ forall x, first_int container <= x <= last_int container ->
         ((exists iv, In iv gaps /\ in_interval x iv)
          <-> ~ exists s, In s sub_ranges /\ overlaps container s = true
                          /\ in_network x s).
Proof.
  intros Hc Hcu Hwf Hun Hdis Hmax.
  set (v := net_version container).
  set (R := filter (fun s => overlaps container s) sub_ranges) in *.
  assert (HR : Forall (fun s => wf_network s /\ unscoped s
                                /\ overlaps container s = true) R).
  { apply (filter_Forall_both (fun s => overlaps container s)) in Hwf.
    fold R in Hwf. rewrite Forall_forall in *.
    intros s Hs. destruct (Hwf s Hs). auto. }
  assert (Hsw : Forall (sweepable v container) (sort_by_network_address R)).
  { apply sort_Forall. apply Forall_forall. intros s Hs.
    rewrite Forall_forall in HR, Hmax.
    destruct (HR s Hs) as (Hws & Hus & Ho). specialize (Hmax s Hs).
    apply overlaps_spec in Ho as (Hv & H1 & H2); auto.
    unfold sweepable. repeat split; auto. }
  assert (Hasc : ascending_disjoint (sort_by_network_address R)).
  { apply sort_ascending; [|exact Hdis].
    eapply Forall_impl; [|exact HR]. simpl. tauto. }
  assert (Hinit : sweep_inv v container (addr_ip (network_address container)) [] []).
  { unfold sweep_inv. fold (first_int container).
    repeat split; try constructor; try lia. }
  destruct (sweep_cover v container Hc (sort_by_network_address R)
              (network_address container) [] [] eq_refl Hcu Hsw Hasc Hinit
              ltac:(right; reflexivity))
    as (cursor & gaps & Hsweep & Hv & Hs & Hu & Hgaps & Hproc & Hpart).
  simpl app in *.
  unfold space_gaps. fold R. rewrite Hsweep. cbn [bind].
  unfold addr_le, addr_lt.
  change (addr_version (broadcast_address container)) with v.
  rewrite Hv, version_eqb_refl. cbn [negb bind].
  rewrite addr_eq_unscoped by (auto; rewrite Hv; reflexivity).
  fold (last_int container).
  assert (Hcover : forall x,
            (exists s, In s (sort_by_network_address R) /\ in_network x s)
            <-> (exists s, In s sub_ranges /\ overlaps container s = true
                           /\ in_network x s)).
  { intros x. split.
    - intros (s & Hin & Hx). apply (proj1 (sort_In _ _)) in Hin. unfold R in Hin.
      apply (proj1 (filter_In _ _ _)) in Hin as [Hin Ho]. eauto.
    - intros (s & Hin & Ho & Hx). exists s. split; [|exact Hx].
      apply (proj2 (sort_In _ _)). unfold R. apply (proj2 (filter_In _ _ _)). auto. }
  assert (Hle : ((addr_ip cursor <? last_int container)
                 || (addr_ip cursor =? last_int container))%bool
                = (addr_ip cursor <=? last_int container)).
  { destruct (Z.ltb_spec (addr_ip cursor) (last_int container)),
      (Z.eqb_spec (addr_ip cursor) (last_int container)),
      (Z.leb_spec (addr_ip cursor) (last_int container)); simpl;
      lia || reflexivity. }
  rewrite Hle. clear Hle.
  destruct (Z.leb_spec (addr_ip cursor) (last_int container)) as [Hle|Hgt].
  - exists (gaps ++ [(cursor, broadcast_address container)])%list.
    split; [reflexivity|]. split.
    + apply Forall_app. split.
      * eapply Forall_impl; [|exact Hgaps]. simpl.
        intros iv (H1 & H2 & H3 & _ & H5). repeat split; auto; lia.
      * constructor; [|constructor]. cbn [fst snd].
        fold (last_int container). repeat split; auto; lia.
    + intros x Hx. rewrite <- Hcover.
      destruct (Z_lt_ge_dec x (addr_ip cursor)) as [Hxu|Hxu].
      * rewrite <- (Hpart x ltac:(lia)). split.
        -- intros (iv & Hin & Hiv). apply in_app_or in Hin as [Hin|[<-|[]]].
           ++ eauto.
           ++ unfold in_interval in Hiv. cbn [fst snd] in Hiv. lia.
        -- intros (iv & Hin & Hiv). exists iv.
           split; [apply in_or_app; left; exact Hin | exact Hiv].
      * split.
        -- intros _ (s & Hin & Hs'). rewrite Forall_forall in Hproc.
           specialize (Hproc s Hin). unfold in_network in Hs'. lia.
        -- intros _. exists (cursor, broadcast_address container).
           split; [apply in_or_app; right; left; reflexivity|].
           unfold in_interval. cbn [fst snd]. fold (last_int container). lia.
  - exists gaps. split; [reflexivity|]. split.
    + eapply Forall_impl; [|exact Hgaps]. simpl.
      intros iv (H1 & H2 & H3 & _ & H5). repeat split; auto; lia.
    + intros x Hx. rewrite <- Hcover. apply Hpart. lia.
Qed.

(** The gaps of one address space without zone identifier, when the
    sub-ranges that overlap it carry no zone identifier either, do not
    overlap one another and none of them ends at the last address of the
    family: the sweep succeeds, every gap lies in the container, and an
    address of the container is in a gap exactly when no sub-range holds
    it. *)
Theorem space_gaps_partition (container : network) (sub_ranges : list network) :
  wf_network container -> unscoped container ->
  Forall wf_network sub_ranges ->
  Forall unscoped (filter (fun s => overlaps container s) sub_ranges) ->
  ForallOrdPairs disjoint_networks
    (filter (fun s => overlaps container s) sub_ranges) ->
  Forall (fun s => last_int s < ALL_ONES (net_version container))
    (filter (fun s => overlaps container s) sub_ranges) ->
  exists gaps,
    all_space_gaps sub_ranges [] [container] = Ok gaps
    /\ Forall (fun iv =>
                 addr_version (fst iv) = net_version container
                 /\ addr_version (snd iv) = net_version container
                 /\ first_int container <= addr_ip (fst iv)
                 /\ addr_ip (fst iv) <= addr_ip (snd iv)
                 /\ addr_ip (snd iv) <= last_int container) gaps
    /\ forall x, first_int container <= x <= last_int container ->
         ((exists iv, In iv gaps /\ in_interval x iv)
          <-> ~ exists s, In s sub_ranges /\ overlaps container s = true
                          /\ in_network x s).
Proof.
  intros Hc Hcu Hwf Hun Hdis Hmax.
  destruct (space_gaps_cover container sub_ranges Hc Hcu Hwf Hun Hdis Hmax)
    as (gaps & Hgaps & Hin & Hpart).
  exists gaps. cbn [all_space_gaps]. rewrite Hgaps. cbn [bind]. auto.
Qed.

(** The partition on Example 1: the sub-ranges 10.0.0.0/26 and
    10.0.0.128/26 of 10.0.0.0/24 do not overlap one another. *)
Example space_gaps_partition_example_1 :
  exists gaps,
    all_space_gaps
      [Network (Address IPv4 167772160 None) 26;
       Network (Address IPv4 167772288 None) 26] []
      [Network (Address IPv4 167772160 None) 24] = Ok gaps
    /\ Forall (fun iv =>
                 addr_version (fst iv) = IPv4 /\ addr_version (snd iv) = IPv4
                 /\ 167772160 <= addr_ip (fst iv)
                 /\ addr_ip (fst iv) <= addr_ip (snd iv)
                 /\ addr_ip (snd iv) <= 167772415) gaps
    /\ forall x, 167772160 <= x <= 167772415 ->
         ((exists iv, In iv gaps /\ in_interval x iv)
          <-> ~ exists s,
                In s [Network (Address IPv4 167772160 None) 26;
                      Network (Address IPv4 167772288 None) 26]
                /\ overlaps (Network (Address IPv4 167772160 None) 24) s = true
                /\ in_network x s).
Proof.
  apply (space_gaps_partition
           (Network (Address IPv4 167772160 None) 24)
           [Network (Address IPv4 167772160 None) 26;
            Network (Address IPv4 167772288 None) 26]).
  - reflexivity.
  - reflexivity.
  - repeat constructor.
  - repeat constructor.
  - repeat constructor.
  - repeat constructor.
Defined.

(** A sub-range that ends at the last address of its family: the cursor
    would pass that address, and the gap finder raises. *)
Remark sub_range_at_the_last_address :
  find_gaps (Network (Address IPv4 4294967040 None) 24)
    [Network (Address IPv4 4294967168 None) 25]
  = Raise (Exn AddressValueError
             (Msg "4294967296 (>= 2**32) is not permitted as an IPv4 address")).
Proof. vm_compute. reflexivity. Qed.

(** C10 at the container fe80::/64 with the sub-range fe80::%eth0/64.  The
    network address of the sub-range, which carries a zone identifier,
    compares as greater than the cursor fe80::, the same address without
    one, so the guard of the sweep lets a gap through that runs from the
    cursor to the address before the sub-range: its first address fe80::
    is above its last, fe7f:ffff:ffff:ffff:ffff:ffff:ffff:ffff, and the
    record describes an empty interval.  [ip_range_to_cidr] answers such a
    range with its error text for a start above the end. *)
Theorem inverted_gap_record :
  find_vnet_gaps
    [Vnet "vnet" "westeurope" (Some ["fe80::/64"]) 0
       (Some [Subnet "subnet" (Some ["fe80::%eth0/64"]) 0]) []]
  = Ok [Vnet "vnet" "westeurope" (Some ["fe80::/64"]) 0
          (Some [Subnet "subnet" (Some ["fe80::%eth0/64"]) 0])
          [GapRecord "fe80:: - fe7f:ffff:ffff:ffff:ffff:ffff:ffff:ffff"
             [ErrorEntry
                (Msg "Start IP must be less than or equal to end IP.")]]]
  /\ ip_network "fe80::/64" false
     = Ok (Network (Address IPv6 338288524927261089654018896841347694592 None) 64)
  /\ ip_network "fe80::%eth0/64" false
     = Ok (Network (Address IPv6 338288524927261089654018896841347694592
                      (Some "eth0")) 64)
  /\ split " - " "fe80:: - fe7f:ffff:ffff:ffff:ffff:ffff:ffff:ffff"
     = ["fe80::"; "fe7f:ffff:ffff:ffff:ffff:ffff:ffff:ffff"]
  /\ ip_address_of_str "fe80::"
     = Ok (Address IPv6 338288524927261089654018896841347694592 None)
  /\ ip_address_of_str "fe7f:ffff:ffff:ffff:ffff:ffff:ffff:ffff"
     = Ok (Address IPv6 338288524927261089654018896841347694591 None)
  /\ 338288524927261089654018896841347694591
     < 338288524927261089654018896841347694592.
Proof. repeat split; vm_compute; reflexivity. Qed.


(** ** IPv4 text read back *)

Lemma append_nil_r (s : string) : (s ++ "")%string = s.
Proof. induction s as [|c s IH]; simpl; [reflexivity | rewrite IH; reflexivity]. Qed.

Lemma append_assoc (a b c : string) :
  ((a ++ b) ++ c)%string = (a ++ (b ++ c))%string.
Proof. induction a as [|d a IH]; simpl; [reflexivity | rewrite IH; reflexivity]. Qed.

Lemma prefix_app (a b : string) : prefix a (a ++ b) = true.
Proof.
  induction a as [|c a IH]; simpl; [destruct b; reflexivity|].
  destruct (ascii_dec c c); [exact IH | contradiction].
Qed.

Lemma prefix_char_neq (c d : ascii) (sep' s : string) :
  c <> d -> prefix (String c sep') (String d s) = false.
Proof. intros H. simpl. destruct (ascii_dec c d); [contradiction | reflexivity]. Qed.

Lemma contains_char_cons (c d : ascii) (s : string) :
  contains_char c (String d s) = false -> c <> d /\ contains_char c s = false.
Proof.
  simpl. intros H. apply orb_false_elim in H as [H1 H2].
  split; [|exact H2]. intros ->. rewrite Ascii.eqb_refl in H1. discriminate.
Qed.

Lemma contains_char_app (c : ascii) (a b : string) :
  contains_char c (a ++ b) = (contains_char c a || contains_char c b)%bool.
Proof.
  induction a as [|d a IH]; simpl; [reflexivity|].
  rewrite IH. apply orb_assoc.
Qed.

(** The characters of a separator just matched are passed over. *)
Lemma split_from_skip (sep a rest cur : string) :
  split_from sep (a ++ rest) (String.length a) cur = split_from sep rest 0 cur.
Proof.
  induction a as [|d a IH]; simpl; [destruct rest; reflexivity | exact IH].
Qed.

(** Splitting at a separator whose first character does not occur in the
    piece [p]: [p] is read whole, up to the separator or to the end. *)
Lemma split_from_piece (c : ascii) (sep' p : string) : forall cur,
  contains_char c p = false ->
  split_from (String c sep') p 0 cur = [(cur ++ p)%string].
Proof.
  induction p as [|d p IH]; intros cur Hp.
  - simpl. rewrite append_nil_r. reflexivity.
  - apply contains_char_cons in Hp as [Hne Hp].
    cbn [split_from]. rewrite prefix_char_neq by exact Hne.
    rewrite IH by exact Hp. rewrite append_assoc. reflexivity.
Qed.

Lemma split_from_piece_sep (c : ascii) (sep' p rest : string) : forall cur,
  contains_char c p = false ->
  split_from (String c sep') (p ++ String c sep' ++ rest) 0 cur
  = (cur ++ p)%string :: split_from (String c sep') rest 0 "".
Proof.
  induction p as [|d p IH]; intros cur Hp.
  - rewrite append_nil_r. cbn [append split_from].
    change (String c (sep' ++ rest)) with (String c sep' ++ rest)%string.
    rewrite prefix_app. cbn [String.length].
    f_equal. replace (S (String.length sep') - 1)%nat with (String.length sep')
      by (rewrite Nat.sub_1_r; reflexivity).
    apply split_from_skip.
  - apply contains_char_cons in Hp as [Hne Hp].
    cbn [append split_from]. rewrite prefix_char_neq by exact Hne.
    rewrite IH by exact Hp. rewrite append_assoc. reflexivity.
Qed.

Lemma octets_text_ok :
  forallb octet_text_ok (map Z.of_nat (seq 0 256)) = true.
Proof. vm_compute. reflexivity. Qed.

Lemma octet_text_ok_all (b : Z) : 0 <= b <= 255 -> octet_text_ok b = true.
Proof.
  intros Hb. pose proof octets_text_ok as H. rewrite forallb_forall in H.
  apply H. rewrite <- (Z2Nat.id b) by lia. apply in_map. apply in_seq. lia.
Qed.

Lemma octet_text_facts (b : Z) :
  0 <= b <= 255 ->
  parse_octet (str_int b) = Ok b
  /\ contains_char "." (str_int b) = false
  /\ contains_char " " (str_int b) = false
  /\ contains_char "/" (str_int b) = false.
Proof.
  intros Hb. pose proof (octet_text_ok_all b Hb) as H. unfold octet_text_ok in H.
  apply andb_prop in H as [H H4]. apply andb_prop in H as [H H3].
  apply andb_prop in H as [H1 H2].
  apply negb_true_iff in H2, H3, H4.
  destruct (parse_octet (str_int b)) as [n|e]; [|discriminate].
  apply Z.eqb_eq in H1. subst n. auto.
Qed.

Lemma byte_range (n k : Z) : 0 <= Z.land (Z.shiftr n k) 255 <= 255.
Proof.
  assert (E : Z.land (Z.shiftr n k) 255 = Z.shiftr n k mod 256)
    by (change 255 with (Z.ones 8); apply Z.land_ones; lia).
  rewrite E.
  pose proof (Z.mod_pos_bound (Z.shiftr n k) 256 ltac:(lia)). lia.
Qed.

Lemma int_from_to_bytes4 (n : Z) :
  0 <= n <= ALL_ONES IPv4 -> int_from_bytes (to_bytes4 n) = n.
Proof.
  intros Hn. unfold ALL_ONES in Hn. simpl in Hn.
  unfold int_from_bytes, to_bytes4. cbn [fold_left].
  change 255 with (Z.ones 8). rewrite !Z.land_ones by lia.
  rewrite !Z.shiftr_div_pow2 by lia.
  change (2 ^ 8) with 256. change (2 ^ 16) with (256 * 256).
  change (2 ^ 24) with (256 * (256 * 256)).
  rewrite <- !Z.div_div by lia.
  pose proof (Z.div_mod n 256 ltac:(lia)) as H0.
  pose proof (Z.div_mod (n / 256) 256 ltac:(lia)) as H1.
  pose proof (Z.div_mod (n / 256 / 256) 256 ltac:(lia)) as H2.
  assert (H3 : (n / 256 / 256 / 256) mod 256 = n / 256 / 256 / 256).
  { apply Z.mod_small. split; [repeat apply Z.div_pos; lia|].
    repeat (apply Z.div_lt_upper_bound; [lia|]). lia. }
  rewrite H3. lia.
Qed.

(** The dotted text of a 32-bit integer. *)
Lemma string_from_ip_int_v4_eq (n : Z) :
  string_from_ip_int_v4 n
  = (str_int (Z.land (Z.shiftr n 24) 255) ++ "."
     ++ str_int (Z.land (Z.shiftr n 16) 255) ++ "."
     ++ str_int (Z.land (Z.shiftr n 8) 255) ++ "."
     ++ str_int (Z.land n 255))%string.
Proof. reflexivity. Qed.

Lemma string_from_ip_int_v4_chars (n : Z) (c : ascii) :
  (forall b, 0 <= b <= 255 -> contains_char c (str_int b) = false) ->
  c <> "."%char ->
  contains_char c (string_from_ip_int_v4 n) = false.
Proof.
  intros Hc Hdot. rewrite string_from_ip_int_v4_eq.
  assert (Hd : contains_char c "." = false).
  { simpl. destruct (Ascii.eqb_spec c "."%char); [contradiction | reflexivity]. }
  pose proof (byte_range n 24). pose proof (byte_range n 16).
  pose proof (byte_range n 8).
  assert (0 <= Z.land n 255 <= 255).
  { rewrite <- (Z.shiftr_0_r n) at 1 2. apply byte_range. }
  rewrite !contains_char_app, !Hc, Hd by assumption. reflexivity.
Qed.

Lemma is_empty_app_cons (a : string) (c : ascii) (s b : string) :
  is_empty (a ++ String c s ++ b) = false.
Proof. destruct a; reflexivity. Qed.

(** The text of an IPv4 address reads back as the address. *)
Lemma ip_address_of_str_v4 (n : Z) :
  0 <= n <= ALL_ONES IPv4 ->
  ip_address_of_str (string_from_ip_int_v4 n) = Ok (Address IPv4 n None).
Proof.
  intros Hn.
  pose proof (byte_range n 24) as H3. pose proof (byte_range n 16) as H2.
  pose proof (byte_range n 8) as H1.
  assert (H0 : 0 <= Z.land n 255 <= 255).
  { rewrite <- (Z.shiftr_0_r n) at 1 2. apply byte_range. }
  destruct (octet_text_facts _ H3) as (P3 & D3 & _ & _).
  destruct (octet_text_facts _ H2) as (P2 & D2 & _ & _).
  destruct (octet_text_facts _ H1) as (P1 & D1 & _ & _).
  destruct (octet_text_facts _ H0) as (P0 & D0 & _ & _).
  unfold ip_address_of_str, IPv4Address_of_str.
  rewrite string_from_ip_int_v4_chars;
    [| intros b Hb; apply octet_text_facts; exact Hb | discriminate].
  unfold ip_int_from_string_v4. rewrite string_from_ip_int_v4_eq.
  rewrite is_empty_app_cons.
  unfold split.
  rewrite (split_from_piece_sep "." "" _ _ "" D3).
  rewrite (split_from_piece_sep "." "" _ _ "" D2).
  rewrite (split_from_piece_sep "." "" _ _ "" D1).
  rewrite (split_from_piece "." "" _ "" D0).
  cbn [append List.length Nat.eqb negb mapM].
  rewrite P3, P2, P1, P0. cbn [bind catch_if].
  pose proof (int_from_to_bytes4 n Hn) as Hrt. unfold to_bytes4 in Hrt.
  rewrite Hrt. reflexivity.
Qed.

(** A gap text of two IPv4 addresses splits into its two sides. *)
Lemma split_gap_text_v4 (a b : Z) :
  split " - " (gap_text (Address IPv4 a None, Address IPv4 b None))
  = [string_from_ip_int_v4 a; string_from_ip_int_v4 b].
Proof.
  unfold gap_text, split. cbn [fst snd str_address addr_version addr_ip].
  assert (Hblank : forall n, contains_char " " (string_from_ip_int_v4 n) = false).
  { intros n. apply string_from_ip_int_v4_chars; [|discriminate].
    intros x Hx. apply octet_text_facts. exact Hx. }
  rewrite (split_from_piece_sep " " "- " _ _ "" (Hblank a)).
  rewrite (split_from_piece " " "- " _ "" (Hblank b)).
  reflexivity.
Qed.

(** ** The gaps of an IPv4 address space, from sweep to records *)

Lemma str_address_v4 (a : address) :
  addr_version a = IPv4 -> str_address a = string_from_ip_int_v4 (addr_ip a).
Proof. intros H. unfold str_address. rewrite H. reflexivity. Qed.

Lemma gap_text_v4 (iv : interval) :
  addr_version (fst iv) = IPv4 -> addr_version (snd iv) = IPv4 ->
  gap_text iv
  = gap_text (Address IPv4 (addr_ip (fst iv)) None,
              Address IPv4 (addr_ip (snd iv)) None).
Proof.
  intros H1 H2. unfold gap_text. cbn [fst snd].
  rewrite !str_address_v4 by (reflexivity || assumption). reflexivity.
Qed.

(** The text of a gap of IPv4 addresses is read back by
    [ip_range_to_cidr] as the two addresses it was written from. *)
Lemma gap_record_of_v4 (iv : interval) :
  addr_version (fst iv) = IPv4 -> addr_version (snd iv) = IPv4 ->
  0 <= addr_ip (fst iv) <= addr_ip (snd iv) ->
  addr_ip (snd iv) <= ALL_ONES IPv4 ->
  exists r, gap_record_of (gap_text iv) = Ok r /\ summarized_gap IPv4 iv r.
Proof.
  intros H1 H2 Hle Hmax.
  pose proof (ALL_ONES_le_v6 IPv4) as H46.
  destruct (summarize_ints (addr_ip (fst iv)) (addr_ip (snd iv)) IPv4
              Hle ltac:(lia) ltac:(left; split; [reflexivity|exact Hmax]))
    as (nets & Hnets & Hs).
  exists (GapRecord (gap_text iv) (map (fun net => Cidr (str_network net)) nets)).
  split.
  - unfold gap_record_of. rewrite (gap_text_v4 iv H1 H2) at 1.
    rewrite split_gap_text_v4. unfold ip_range_to_cidr.
    rewrite !ip_address_of_str_v4 by lia. cbn [bind addr_ip].
    destruct (Z.gtb_spec (addr_ip (fst iv)) (addr_ip (snd iv))); [lia|].
    rewrite Hnets. reflexivity.
  - split; [reflexivity|]. exists nets. cbn [cidr].
    split; [reflexivity|].
    split; [exact (summarizes_blocks _ _ _ _ Hs)|].
    split; [exact (summarizes_covers _ _ _ _ Hs)|].
    split; [exact (summarizes_disjoint _ _ _ _ Hs)|].
    exact (summarizes_no_merge _ _ _ _ Hs).
Qed.

Lemma gap_records_v4 (gaps : list interval) :
  Forall (fun iv =>
            addr_version (fst iv) = IPv4 /\ addr_version (snd iv) = IPv4
            /\ 0 <= addr_ip (fst iv) <= addr_ip (snd iv)
            /\ addr_ip (snd iv) <= ALL_ONES IPv4) gaps ->
  exists records,
    mapM gap_record_of (map gap_text gaps) = Ok records
    /\ Forall2 (summarized_gap IPv4) gaps records.
Proof.
  induction 1 as [|iv gaps (H1 & H2 & Hle & Hmax) _ (records & Hm & Hrec)].
  - exists []. split; [reflexivity | constructor].
  - destruct (gap_record_of_v4 iv H1 H2 Hle Hmax) as (r & Hr & Hsum).
    exists (r :: records). cbn [map mapM]. rewrite Hr, Hm. cbn [bind].
    split; [reflexivity | constructor; assumption].
Qed.

(** The gap finder on one IPv4 address space, when the sub-ranges that
    overlap it do not overlap one another and none of them ends at
    255.255.255.255: it returns one record per gap, in ascending order of
    the sweep; the gaps lie in the address space, an address of the space
    is in a gap exactly when no sub-range holds it, and the blocks of each
    record cover exactly its gap. *)
Theorem find_gaps_ipv4 (container : network) (sub_ranges : list network) :
  wf_network container -> net_version container = IPv4 ->
  Forall wf_network sub_ranges ->
  ForallOrdPairs disjoint_networks
    (filter (fun s => overlaps container s) sub_ranges) ->
  Forall (fun s => last_int s < ALL_ONES IPv4)
    (filter (fun s => overlaps container s) sub_ranges) ->
  exists gaps records,
    find_gaps container sub_ranges = Ok records
    /\ Forall2 (summarized_gap IPv4) gaps records
    /\ Forall (fun iv =>
                 first_int container <= addr_ip (fst iv)
                 /\ addr_ip (fst iv) <= addr_ip (snd iv)
                 /\ addr_ip (snd iv) <= last_int container) gaps
    /\ forall x, first_int container <= x <= last_int container ->
         ((exists iv, In iv gaps /\ in_interval x iv)
          <-> ~ exists s, In s sub_ranges /\ overlaps container s = true
                          /\ in_network x s).
Proof.
  intros Hc Hv Hwf Hdis Hmax.
  assert (Hscope : forall n, wf_network n -> net_version n = IPv4 -> unscoped n).
  { intros n Hn Hn4. unfold wf_network, wf_networkb, wf_addressb in Hn.
    unfold net_version in Hn4. unfold unscoped. rewrite Hn4 in Hn.
    destruct (addr_scope_id (network_address n)); [|reflexivity].
    rewrite !Bool.andb_false_r in Hn. discriminate. }
  assert (Hun : Forall unscoped (filter (fun s => overlaps container s) sub_ranges)).
  { pose proof (filter_Forall_both (fun s => overlaps container s) _ _ Hwf) as HR.
    eapply Forall_impl; [|exact HR]. simpl. intros s (Hs & Ho).
    apply Hscope; [exact Hs|].
    rewrite (overlaps_same_version container s Hc Hs Ho). exact Hv. }
  rewrite <- Hv in Hmax.
  destruct (space_gaps_cover container sub_ranges Hc (Hscope _ Hc Hv)
              Hwf Hun Hdis Hmax) as (gaps & Hgaps & Hin & Hpart).
  destruct (wf_network_range container Hc) as (_ & Hfirst & Hlast).
  rewrite <- (last_int_eq container Hc), Hv in Hlast.
  destruct (gap_records_v4 gaps) as (records & Hm & Hrec).
  { eapply Forall_impl; [|exact Hin]. simpl. rewrite Hv.
    intros iv (H1 & H2 & H3 & H4 & H5). repeat split; auto; lia. }
  exists gaps, records. unfold find_gaps, vnet_gaps. cbn [all_space_gaps].
  rewrite Hgaps. cbn [bind]. rewrite Hm.
  split; [reflexivity|]. split; [exact Hrec|]. split; [|exact Hpart].
  eapply Forall_impl; [|exact Hin]. simpl. tauto.
Qed.

(** Example 1 of the specification as an instance: the address space
    10.0.0.0/24 with the sub-ranges 10.0.0.0/26 and 10.0.0.128/26. *)
Example find_gaps_ipv4_example_1 :
  exists gaps records,
    find_gaps (Network (Address IPv4 167772160 None) 24)
      [Network (Address IPv4 167772160 None) 26;
       Network (Address IPv4 167772288 None) 26] = Ok records
    /\ Forall2 (summarized_gap IPv4) gaps records
    /\ Forall (fun iv =>
                 167772160 <= addr_ip (fst iv)
                 /\ addr_ip (fst iv) <= addr_ip (snd iv)
                 /\ addr_ip (snd iv) <= 167772415) gaps
    /\ forall x, 167772160 <= x <= 167772415 ->
         ((exists iv, In iv gaps /\ in_interval x iv)
          <-> ~ exists s,
                In s [Network (Address IPv4 167772160 None) 26;
                      Network (Address IPv4 167772288 None) 26]
                /\ overlaps (Network (Address IPv4 167772160 None) 24) s = true
                /\ in_network x s).
Proof.
  apply (find_gaps_ipv4
           (Network (Address IPv4 167772160 None) 24)
           [Network (Address IPv4 167772160 None) 26;
            Network (Address IPv4 167772288 None) 26]).
  - reflexivity.
  - reflexivity.
  - repeat constructor.
  - repeat constructor.
  - repeat constructor.
Defined.

(** ** The address counter: zero, and what the gap finder parses *)

Lemma num_addresses_pos n : wf_network n -> 1 <= num_addresses n.
Proof.
  intros H. rewrite (num_addresses_eq n H).
  destruct (wf_network_range n H) as (Hh & _ & _). unfold host_bits in Hh.
  assert (0 < 2 ^ (max_prefixlen (net_version n) - prefixlen n))
    by (apply Z.pow_pos_nonneg; lia).
  lia.
Qed.

(** The count 0 is the mark of a rejected text, and of nothing else: the
    address counter returns 0 exactly when [ip_network] rejects the text,
    which is exactly when it prints its one line; a text that is accepted
    counts at least one address, and nothing is printed for it.  The
    counter does one of the two on every text: it prints nothing and
    returns the number of addresses of the network the text is accepted
    as, an integer of at least 1, or it prints its line and returns 0. *)
Theorem count_ip_addresses_zero (cidr : string) :
  (snd (count_ip_addresses cidr) = Ok 0
   <-> exists e, ip_network cidr true = Raise e)
  /\ (fst (count_ip_addresses cidr) = ["Invalid CIDR block: " ++ cidr]%string
      <-> exists e, ip_network cidr true = Raise e)
  /\ (fst (count_ip_addresses cidr) = []
      <-> exists n, ip_network cidr true = Ok n)
  /\ ((exists n k,
         ip_network cidr true = Ok n
         /\ count_ip_addresses cidr = ([], Ok k)
         /\ k = num_addresses n /\ 1 <= k)
      \/ ((exists e, ip_network cidr true = Raise e)
          /\ count_ip_addresses cidr
             = (["Invalid CIDR block: " ++ cidr]%string, Ok 0))).
Proof.
  unfold count_ip_addresses.
  pose proof (ip_network_raises cidr true) as Hraise.
  destruct (ip_network cidr true) as [net|e] eqn:E.
  - apply ip_network_Ok in E. pose proof (num_addresses_pos net E) as Hpos.
    cbn [fst snd]. repeat split.
    + intros H. injection H as H. lia.
    + intros (e & He). discriminate.
    + discriminate.
    + intros (e & He). discriminate.
    + intros _. exists net. reflexivity.
    + left. exists net, (num_addresses net). auto.
  - simpl in Hraise. rewrite Hraise. cbn [fst snd]. repeat split.
    + intros _. exists e. reflexivity.
    + intros _. exists e. reflexivity.
    + discriminate.
    + intros (n & Hn). discriminate.
    + right. split; [exists e|]; reflexivity.
Qed.

(** What the strict parser accepts, the parser of the gap finder accepts as
    the same network. *)
Lemma ip_network_strict_accepted (text : string) (n : network) :
  ip_network text true = Ok n -> ip_network text false = Ok n.
Proof.
  unfold ip_network. intros H.
  pose proof (network_init_strictness IPv4 (FromStr text)) as H4.
  pose proof (network_init_strictness IPv6 (FromStr text)) as H6.
  destruct (network_init IPv4 (FromStr text) true) as [n4|e4].
  - rewrite H4. exact H.
  - cbn [catch_if] in H. destruct (is_Address_or_Netmask e4) eqn:E4;
      [|discriminate].
    rewrite H4. cbn [catch_if]. rewrite E4.
    destruct (network_init IPv6 (FromStr text) true) as [n6|e6].
    + rewrite H6. exact H.
    + cbn [catch_if] in H. destruct (is_Address_or_Netmask e6); discriminate.
Qed.

(** A prefix that the address counter counts without printing is a network
    for the gap finder, of as many addresses as were counted: the
    ["address_count"] of the report never counts an address the gap finder
    does not sweep. *)
Theorem counted_prefix_is_swept (cidr : string) (k : Z) :
  count_ip_addresses cidr = ([], Ok k) ->
  exists n, ip_network cidr false = Ok n /\ wf_network n /\ num_addresses n = k.
Proof.
  unfold count_ip_addresses. intros H.
  destruct (ip_network cidr true) as [net|e] eqn:E.
  - injection H as <-. exists net.
    split; [apply ip_network_strict_accepted; exact E|].
    split; [exact (ip_network_Ok _ _ _ E) | reflexivity].
  - destruct (is_ValueError e); discriminate.
Qed.

Example counted_prefix_is_swept_example :
  exists n, ip_network "10.0.0.0/24" false = Ok n /\ wf_network n
            /\ num_addresses n = 256.
Proof.
  apply (counted_prefix_is_swept "10.0.0.0/24" 256). vm_compute. reflexivity.
Defined.

(** ** IPv6 text read back *)

Lemma forall_from_spec (p : Z -> bool) (count : nat) : forall start x,
  forall_from p start count = true ->
  start <= x < start + Z.of_nat count -> p x = true.
Proof.
  induction count as [|k IH]; intros start x H Hx; [lia|].
  cbn [forall_from] in H. apply andb_prop in H as [H0 H].
  destruct (Z.eq_dec x start) as [->|Hne]; [exact H0|].
  apply (IH (start + 1)); [exact H | lia].
Qed.

Lemma hextets_text_ok :
  forall_from hextet_text_ok 0 (Z.to_nat 65536) = true.
Proof. vm_compute. reflexivity. Qed.

Lemma hextet_text_facts (h : Z) :
  0 <= h <= 65535 ->
  parse_hextet (hex_int h) = Ok h
  /\ is_empty (hex_int h) = false
  /\ (hex_int h = "0" -> h = 0)
  /\ contains_char ":" (hex_int h) = false
  /\ contains_char "." (hex_int h) = false
  /\ contains_char " " (hex_int h) = false
  /\ contains_char "/" (hex_int h) = false
  /\ contains_char "%" (hex_int h) = false.
Proof.
  intros Hh.
  pose proof (forall_from_spec _ _ 0 h hextets_text_ok
                ltac:(rewrite Z2Nat.id by lia; lia)) as H.
  unfold hextet_text_ok in H.
  repeat match type of H with
         | (_ && _)%bool = true => let H' := fresh "C" in apply andb_prop in H as [H H']
         end.
  repeat match goal with
         | C : negb _ = true |- _ => apply negb_true_iff in C
         end.
  destruct (parse_hextet (hex_int h)) as [n|e]; [|discriminate].
  apply Z.eqb_eq in H. subst n.
  repeat split; auto.
  intros E. rewrite E in *. simpl in C0.
  destruct (Z.eqb_spec h 0); [assumption | discriminate].
Qed.

(** *** The value of eight hextets *)

Lemma hextets_value_app acc ds es :
  hextets_value acc (ds ++ es) = hextets_value (hextets_value acc ds) es.
Proof. unfold hextets_value. apply fold_left_app. Qed.

Lemma hextets_value_acc ds : forall acc,
  hextets_value acc ds
  = acc * 2 ^ (16 * Z.of_nat (List.length ds)) + hextets_value 0 ds.
Proof.
  unfold hextets_value.
  induction ds as [|d ds IH]; intros acc.
  - simpl. lia.
  - cbn [fold_left List.length]. rewrite IH, (IH (0 * 2 ^ 16 + d)).
    rewrite Nat2Z.inj_succ.
    replace (16 * Z.succ (Z.of_nat (List.length ds)))
      with (16 + 16 * Z.of_nat (List.length ds)) by lia.
    rewrite Z.pow_add_r by lia. lia.
Qed.

Lemma hextets_value_zeros ds : forall acc,
  Forall (fun d => d = 0) ds ->
  hextets_value acc ds = acc * 2 ^ (16 * Z.of_nat (List.length ds)).
Proof.
  intros acc H. rewrite hextets_value_acc.
  assert (E : hextets_value 0 ds = 0).
  { unfold hextets_value. induction H as [|d ds -> _ IH]; [reflexivity|].
    simpl. exact IH. }
  lia.
Qed.

Lemma hextets_value_nonneg ds : forall acc,
  Forall (fun d => 0 <= d <= 65535) ds -> 0 <= acc -> 0 <= hextets_value acc ds.
Proof.
  unfold hextets_value. induction ds as [|d ds IH]; intros acc H Hacc; [exact Hacc|].
  inversion H; subst. cbn [fold_left]. apply IH; [assumption | lia].
Qed.

Lemma hextet_digits_range n : Forall (fun d => 0 <= d <= 65535) (hextet_digits n).
Proof.
  unfold hextet_digits. apply Forall_forall. intros d Hd.
  apply in_map_iff in Hd as (i & <- & _).
  assert (E : Z.land (Z.shiftr n (16 * (7 - i))) 65535
              = Z.shiftr n (16 * (7 - i)) mod 2 ^ 16)
    by (change 65535 with (Z.ones 16); apply Z.land_ones; lia).
  rewrite E.
  pose proof (Z.mod_pos_bound (Z.shiftr n (16 * (7 - i))) (2 ^ 16) ltac:(lia)).
  lia.
Qed.

Lemma hextet_digits_value n :
  0 <= n <= ALL_ONES IPv6 -> hextets_value 0 (hextet_digits n) = n.
Proof.
  intros Hn. unfold ALL_ONES in Hn. simpl max_prefixlen in Hn.
  unfold hextet_digits, hextets_value. cbn [map fold_left Z.sub Z.mul Z.add
    Z.opp Z.pos_sub Pos.mul Pos.add Pos.succ Z.succ_double Z.pred_double Z.double
    Pos.pred_double].
  change 65535 with (Z.ones 16). rewrite !Z.land_ones by lia.
  rewrite !Z.shiftr_div_pow2 by lia.
  set (B := 2 ^ 16) in *.
  assert (HB : B = 65536) by reflexivity.
  set (x1 := n / B).
  set (x2 := x1 / B). set (x3 := x2 / B). set (x4 := x3 / B).
  set (x5 := x4 / B). set (x6 := x5 / B). set (x7 := x6 / B).
  assert (E1 : n / 2 ^ 16 = x1) by reflexivity.
  assert (E2 : n / 2 ^ 32 = x2).
  { change (2 ^ 32) with (B * B). rewrite <- Z.div_div by lia. reflexivity. }
  assert (E3 : n / 2 ^ 48 = x3).
  { change (2 ^ 48) with (B * B * B). rewrite <- !Z.div_div by lia. reflexivity. }
  assert (E4 : n / 2 ^ 64 = x4).
  { change (2 ^ 64) with (B * B * B * B). rewrite <- !Z.div_div by lia.
    reflexivity. }
  assert (E5 : n / 2 ^ 80 = x5).
  { change (2 ^ 80) with (B * B * B * B * B). rewrite <- !Z.div_div by lia.
    reflexivity. }
  assert (E6 : n / 2 ^ 96 = x6).
  { change (2 ^ 96) with (B * B * B * B * B * B). rewrite <- !Z.div_div by lia.
    reflexivity. }
  assert (E7 : n / 2 ^ 112 = x7).
  { change (2 ^ 112) with (B * B * B * B * B * B * B).
    rewrite <- !Z.div_div by lia. reflexivity. }
  rewrite E2, E3, E4, E5, E6, E7. rewrite Z.pow_0_r, Z.div_1_r.
  pose proof (Z.div_mod n B ltac:(lia)) as D0. fold x1 in D0.
  pose proof (Z.div_mod x1 B ltac:(lia)) as D1. fold x2 in D1.
  pose proof (Z.div_mod x2 B ltac:(lia)) as D2. fold x3 in D2.
  pose proof (Z.div_mod x3 B ltac:(lia)) as D3. fold x4 in D3.
  pose proof (Z.div_mod x4 B ltac:(lia)) as D4. fold x5 in D4.
  pose proof (Z.div_mod x5 B ltac:(lia)) as D5. fold x6 in D5.
  pose proof (Z.div_mod x6 B ltac:(lia)) as D6. fold x7 in D6.
  assert (H7 : x7 mod B = x7).
  { apply Z.mod_small. rewrite <- E7. split; [apply Z.div_pos; lia|].
    apply Z.div_lt_upper_bound; [lia|]. change (2 ^ 112 * B) with (2 ^ 128). lia. }
  rewrite H7. rewrite HB in *. lia.
Qed.

Lemma shift_in_hextets_hex ds : forall acc,
  Forall (fun d => 0 <= d <= 65535) ds -> 0 <= acc ->
  shift_in_hextets acc (map hex_int ds) = Ok (hextets_value acc ds).
Proof.
  induction ds as [|d ds IH]; intros acc H Hacc; [reflexivity|].
  inversion H as [|? ? Hd Hds]; subst. cbn [map shift_in_hextets].
  destruct (hextet_text_facts d Hd) as (-> & _). cbn [bind].
  rewrite lor_shiftl_16 by lia. rewrite IH by (assumption || lia).
  reflexivity.
Qed.

(** *** Joining and splitting *)

Lemma split_join (c : ascii) (parts : list string) :
  parts <> [] -> Forall (fun p => contains_char c p = false) parts ->
  split (String c "") (join (String c "") parts) = parts.
Proof.
  intros Hne H. unfold split.
  induction H as [|p parts Hp Hparts IH]; [contradiction|].
  destruct parts as [|q parts].
  - cbn [join]. apply (split_from_piece c "" p "" Hp).
  - change (join (String c "") (p :: q :: parts))
      with (p ++ String c "" ++ join (String c "") (q :: parts))%string.
    rewrite (split_from_piece_sep c "" p _ "" Hp). cbn [append].
    f_equal. apply IH. discriminate.
Qed.

Lemma contains_char_join (c d : ascii) (parts : list string) :
  c <> d -> Forall (fun p => contains_char c p = false) parts ->
  contains_char c (join (String d "") parts) = false.
Proof.
  intros Hne H. induction H as [|p parts Hp Hparts IH]; [reflexivity|].
  destruct parts as [|q parts]; [exact Hp|].
  change (join (String d "") (p :: q :: parts))
    with (p ++ String d "" ++ join (String d "") (q :: parts))%string.
  rewrite !contains_char_app, Hp, IH. simpl.
  destruct (Ascii.eqb_spec c d); [contradiction | reflexivity].
Qed.

Lemma is_empty_join (d : ascii) (p q : string) (parts : list string) :
  is_empty (join (String d "") (p :: q :: parts)) = false.
Proof.
  change (join (String d "") (p :: q :: parts))
    with (p ++ String d "" ++ join (String d "") (q :: parts))%string.
  apply is_empty_app_cons.
Qed.

Lemma partition_char_absent (c : ascii) (s : string) :
  contains_char c s = false -> partition_char c s = (s, false, "").
Proof.
  induction s as [|d s IH]; intros H; [reflexivity|].
  apply contains_char_cons in H as [Hne H]. cbn [partition_char].
  destruct (Ascii.eqb_spec c d); [contradiction|]. rewrite IH by exact H.
  reflexivity.
Qed.

(** *** The run that is compressed *)

Lemma firstn_skipn_app_l {A : Type} (a b : nat) (l l' : list A) :
  (a + b <= List.length l)%nat ->
  firstn b (skipn a (l ++ l')) = firstn b (skipn a l).
Proof.
  intros H. rewrite skipn_app.
  replace (a - List.length l)%nat with 0%nat by lia. cbn [skipn].
  rewrite firstn_app. rewrite length_skipn.
  replace (b - (List.length l - a))%nat with 0%nat by lia.
  cbn [firstn]. apply app_nil_r.
Qed.

Lemma best_doublecolon_run (rest : list string) : forall done st,
  (let '(best_start, best_len, cur_start, cur_len) := st in
   zero_run done (best_start, best_len)
   /\ ((cur_start = -1 /\ cur_len = 0)
       \/ (0 <= cur_start /\ 0 < cur_len
           /\ cur_start + cur_len = Z.of_nat (List.length done)
           /\ Forall (fun h => h = "0") (skipn (Z.to_nat cur_start) done)))) ->
  zero_run (done ++ rest)
    (best_doublecolon (Z.of_nat (List.length done)) rest st).
Proof.
  induction rest as [|h rest IH]; intros done [[[bs bl] cs] cl] [Hbest Hcur].
  - cbn [best_doublecolon]. rewrite app_nil_r. exact Hbest.
  - cbn [best_doublecolon].
    assert (Hbest' : zero_run (done ++ [h]) (bs, bl)).
    { destruct Hbest as [Hle|(H1 & H2 & H3 & H4)]; [left; exact Hle|].
      right. rewrite length_app. cbn [List.length].
      repeat split; try lia.
      rewrite firstn_skipn_app_l by lia. exact H4. }
    assert (Hlen : Z.of_nat (List.length done) + 1
                   = Z.of_nat (List.length (done ++ [h]))).
    { rewrite length_app. cbn [List.length]. lia. }
    replace (done ++ h :: rest)%list with ((done ++ [h]) ++ rest)%list
      by (rewrite <- app_assoc; reflexivity).
    destruct (String.eqb_spec h "0") as [->|Hnz].
    + set (cs' := if cs =? -1 then Z.of_nat (List.length done) else cs).
      assert (Hcur' : 0 <= cs' /\ 0 < cl + 1
                      /\ cs' + (cl + 1) = Z.of_nat (List.length (done ++ ["0"]))
                      /\ Forall (fun h => h = "0")
                           (skipn (Z.to_nat cs') (done ++ ["0"]))).
      { unfold cs'. destruct Hcur as [[-> ->]|(C1 & C2 & C3 & C4)].
        - simpl Z.eqb. cbv iota. repeat split; try lia.
          rewrite Nat2Z.id, skipn_app, skipn_all, Nat.sub_diag. simpl.
          constructor; [reflexivity | constructor].
        - destruct (Z.eqb_spec cs (-1)); [lia|]. repeat split; try lia.
          rewrite skipn_app. apply Forall_app. split; [exact C4|].
          replace (Z.to_nat cs - List.length done)%nat with 0%nat by lia.
          simpl. constructor; [reflexivity | constructor]. }
      destruct Hcur' as (C1 & C2 & C3 & C4).
      destruct (Z.gtb_spec (cl + 1) bl) as [Hgt|Hle];
        rewrite Hlen; apply IH; (split; [|right; auto]); [|exact Hbest'].
      right. repeat split; try lia.
      rewrite firstn_all2; [exact C4|]. rewrite length_skipn. lia.
    + rewrite Hlen. apply IH. split; [exact Hbest' | left; auto].
Qed.

Lemma compress_hextets_run (hextets : list string) :
  zero_run hextets (best_doublecolon 0 hextets (-1, 0, -1, 0)).
Proof.
  apply (best_doublecolon_run hextets [] (-1, 0, -1, 0)).
  split; [left; lia | left; auto].
Qed.

(** *** The parser on the parts of a compressed text *)

Lemma find_skip_index_nonempty ip_str mid : forall i o,
  Forall (fun p => is_empty p = false) mid ->
  find_skip_index ip_str i mid o = Ok o.
Proof.
  induction mid as [|p mid IH]; intros i o H; [reflexivity|].
  inversion H as [|? ? Hp Hmid]; subst. cbn [find_skip_index]. rewrite Hp.
  apply IH. exact Hmid.
Qed.

Lemma find_skip_index_one ip_str a b : forall i,
  Forall (fun p => is_empty p = false) a ->
  Forall (fun p => is_empty p = false) b ->
  find_skip_index ip_str i (a ++ "" :: b) None = Ok (Some (i + Z.of_nat (List.length a))).
Proof.
  induction a as [|p a IH]; intros i Ha Hb.
  - cbn [app find_skip_index is_empty List.length].
    rewrite find_skip_index_nonempty by exact Hb. f_equal. f_equal. simpl. lia.
  - inversion Ha as [|? ? Hp Ha']; subst.
    cbn [app find_skip_index List.length]. rewrite Hp.
    rewrite IH by assumption. f_equal. f_equal. lia.
Qed.

Lemma last_Forall {A : Type} (P : A -> Prop) (l : list A) (d : A) :
  Forall P l -> P d -> P (last l d).
Proof.
  induction 1 as [|x l Hx Hl IH]; intros Hd; [exact Hd|].
  destruct l as [|y l]; [exact Hx|]. apply IH. exact Hd.
Qed.

Lemma last_Forall_ne {A : Type} (P : A -> Prop) (l : list A) (d : A) :
  l <> [] -> Forall P l -> P (last l d).
Proof.
  intros Hne H. induction H as [|x l Hx Hl IH]; [contradiction|].
  destruct l as [|y l]; [exact Hx|]. apply IH. discriminate.
Qed.

Lemma last_after {A : Type} (l l' : list A) (x d : A) :
  l' <> [] -> last (l ++ x :: l') d = last l' d.
Proof.
  intros Hne. induction l as [|y l IH].
  - destruct l'; [contradiction | reflexivity].
  - cbn [app]. rewrite <- IH. destruct l; reflexivity.
Qed.

Lemma hex_texts_facts (ds : list Z) :
  Forall (fun d => 0 <= d <= 65535) ds ->
  Forall (fun p => is_empty p = false) (map hex_int ds)
  /\ (forall c, In c [":"; "."; " "; "/"; "%"]%char ->
        Forall (fun p => contains_char c p = false) (map hex_int ds)).
Proof.
  intros H. split.
  - apply Forall_map. eapply Forall_impl; [|exact H]. simpl.
    intros d Hd. apply hextet_text_facts. exact Hd.
  - intros c Hc. apply Forall_map. eapply Forall_impl; [|exact H]. simpl.
    intros d Hd. destruct (hextet_text_facts d Hd) as (_ & _ & _ & H1 & H2 & H3 & H4 & H5).
    destruct Hc as [<-|[<-|[<-|[<-|[<-|[]]]]]]; assumption.
Qed.

(** The parts between which ["::"] stands, [dA] before and [dB] after, both
    present. *)
Lemma ip_int_from_parts_mid (dA dB : list Z) :
  dA <> [] -> dB <> [] ->
  Forall (fun d => 0 <= d <= 65535) dA -> Forall (fun d => 0 <= d <= 65535) dB ->
  Z.of_nat (List.length dA) + Z.of_nat (List.length dB) <= 7 ->
  ip_int_from_string_v6 (join ":" (map hex_int dA ++ "" :: map hex_int dB))
  = Ok (hextets_value
          (hextets_value 0 dA
           * 2 ^ (16 * (8 - Z.of_nat (List.length dA) - Z.of_nat (List.length dB))))
          dB).
Proof.
  intros HAne HBne HA HB Hlen.
  destruct (hex_texts_facts dA HA) as [HAe HAc].
  destruct (hex_texts_facts dB HB) as [HBe HBc].
  set (A := map hex_int dA) in *. set (B := map hex_int dB) in *.
  assert (HlA : List.length A = List.length dA) by apply length_map.
  assert (HlB : List.length B = List.length dB) by apply length_map.
  assert (HA' : A <> []) by (intros E; apply HAne; apply map_eq_nil in E; exact E).
  assert (HB' : B <> []) by (intros E; apply HBne; apply map_eq_nil in E; exact E).
  set (parts := (A ++ "" :: B)%list).
  assert (Hparts : forall c, In c [":"; "."; " "; "/"; "%"]%char ->
            Forall (fun p => contains_char c p = false) parts).
  { intros c Hc. apply Forall_app. split; [apply HAc; exact Hc|].
    constructor; [reflexivity | apply HBc; exact Hc]. }
  assert (Hl : Z.of_nat (List.length parts)
               = Z.of_nat (List.length dA) + 1 + Z.of_nat (List.length dB)).
  { unfold parts. rewrite length_app. cbn [List.length]. lia. }
  unfold ip_int_from_string_v6.
  assert (Hjoin : is_empty (join ":" parts) = false).
  { unfold parts. destruct A as [|p [|q A]]; [contradiction| |]; apply is_empty_join. }
  rewrite Hjoin.
  rewrite (split_join ":" parts) by
    (try (apply Hparts; simpl; auto); unfold parts; destruct A; discriminate).
  destruct (Z.ltb_spec (Z.of_nat (List.length parts)) 3) as [Hlt|_].
  { destruct dA; [contradiction|]. destruct dB; [contradiction|].
    cbn [List.length] in Hl. lia. }
  assert (Hdot : contains_char "." (last_part parts) = false).
  { unfold last_part. apply (last_Forall (fun p => contains_char "." p = false)).
    - apply Hparts. simpl. auto.
    - reflexivity. }
  rewrite Hdot. cbn [bind].
  destruct (Z.gtb_spec (Z.of_nat (List.length parts)) (HEXTET_COUNT + 1)) as [Hgt|_].
  { unfold HEXTET_COUNT in Hgt. lia. }
  assert (Hmid : removelast (tl parts) = (tl A ++ "" :: removelast B)%list).
  { unfold parts. destruct A as [|p A]; [contradiction|]. cbn [app tl].
    rewrite removelast_app by discriminate.
    f_equal. destruct B as [|q B]; [contradiction | reflexivity]. }
  rewrite Hmid.
  assert (HtlA : Forall (fun p => is_empty p = false) (tl A)).
  { destruct A; [constructor | inversion HAe; assumption]. }
  assert (HrlB : Forall (fun p => is_empty p = false) (removelast B)).
  { apply Forall_forall. intros x Hx. rewrite Forall_forall in HBe. apply HBe.
    clear -Hx. induction B as [|q B IH]; [destruct Hx|].
    destruct B as [|r B]; [destruct Hx|]. destruct Hx as [<-|Hx]; [left; reflexivity|].
    right. apply IH. exact Hx. }
  rewrite find_skip_index_one by assumption. cbn [bind].
  assert (HltA : 1 + Z.of_nat (List.length (tl A)) = Z.of_nat (List.length dA)).
  { rewrite <- HlA. destruct A; [contradiction|]. cbn [tl List.length]. lia. }
  rewrite HltA.
  assert (Hfirst : is_empty (first_part parts) = false).
  { unfold first_part, parts. destruct A as [|p A]; [contradiction|].
    inversion HAe; assumption. }
  assert (Hlast : is_empty (last_part parts) = false).
  { unfold last_part, parts. rewrite last_after by exact HB'.
    apply (last_Forall_ne (fun p => is_empty p = false)); assumption. }
  rewrite Hfirst, Hlast. cbn [bind]. unfold HEXTET_COUNT.
  rewrite Hl.
  replace (Z.of_nat (List.length dA) + 1 + Z.of_nat (List.length dB)
           - Z.of_nat (List.length dA) - 1)
    with (Z.of_nat (List.length dB)) by lia.
  destruct (Z.ltb_spec (8 - (Z.of_nat (List.length dA) + Z.of_nat (List.length dB))) 1)
    as [Hlt|_]; [lia|].
  cbn [bind]. rewrite Nat2Z.id.
  replace (Z.to_nat (Z.of_nat (List.length dA) + 1 + Z.of_nat (List.length dB)
                     - Z.of_nat (List.length dB)))
    with (S (List.length A)) by lia.
  unfold parts. rewrite <- HlA at 1.
  rewrite firstn_app, firstn_all, Nat.sub_diag. cbn [firstn]. rewrite app_nil_r.
  replace (skipn (S (List.length A)) (A ++ "" :: B)) with B.
  2:{ change (A ++ "" :: B)%list with (A ++ [""] ++ B)%list. rewrite app_assoc.
      rewrite skipn_app. rewrite skipn_all2 by (rewrite length_app; simpl; lia).
      rewrite length_app. cbn [List.length].
      replace (S (List.length A) - (List.length A + 1))%nat with 0%nat by lia.
      reflexivity. }
  unfold A, B. rewrite shift_in_hextets_hex by (assumption || lia). cbn [bind].
  pose proof (hextets_value_nonneg dA 0 HA ltac:(lia)) as Hnn.
  rewrite Z.shiftl_mul_pow2 by lia.
  rewrite shift_in_hextets_hex; [|assumption|].
  - cbn [catch_if]. f_equal. f_equal. f_equal. f_equal. lia.
  - apply Z.mul_nonneg_nonneg; [exact Hnn|]. apply Z.pow_nonneg. lia.
Qed.

(** ["::"] at the start, with parts after it. *)
Lemma ip_int_from_parts_leading (dB : list Z) :
  dB <> [] -> Forall (fun d => 0 <= d <= 65535) dB ->
  Z.of_nat (List.length dB) <= 7 ->
  ip_int_from_string_v6 (join ":" ("" :: "" :: map hex_int dB))
  = Ok (hextets_value 0 dB).
Proof.
  intros HBne HB Hlen.
  destruct (hex_texts_facts dB HB) as [HBe HBc].
  set (B := map hex_int dB) in *.
  assert (HlB : List.length B = List.length dB) by apply length_map.
  assert (HB' : B <> []) by (intros E; apply HBne; apply map_eq_nil in E; exact E).
  set (parts := ("" :: "" :: B)%list).
  assert (Hparts : forall c, In c [":"; "."; " "; "/"; "%"]%char ->
            Forall (fun p => contains_char c p = false) parts).
  { intros c Hc. constructor; [reflexivity|].
    constructor; [reflexivity | apply HBc; exact Hc]. }
  assert (Hl : Z.of_nat (List.length parts) = 2 + Z.of_nat (List.length dB)).
  { unfold parts. cbn [List.length]. lia. }
  unfold ip_int_from_string_v6.
  assert (Hjoin : is_empty (join ":" parts) = false) by apply is_empty_join.
  rewrite Hjoin.
  rewrite (split_join ":" parts) by
    (try (apply Hparts; simpl; auto); discriminate).
  destruct (Z.ltb_spec (Z.of_nat (List.length parts)) 3) as [Hlt|_].
  { destruct dB; [contradiction|]. cbn [List.length] in Hl. lia. }
  assert (Hdot : contains_char "." (last_part parts) = false).
  { unfold last_part. apply (last_Forall (fun p => contains_char "." p = false)).
    - apply Hparts. simpl. auto.
    - reflexivity. }
  rewrite Hdot. cbn [bind].
  destruct (Z.gtb_spec (Z.of_nat (List.length parts)) (HEXTET_COUNT + 1)) as [Hgt|_].
  { unfold HEXTET_COUNT in Hgt. lia. }
  assert (Hmid : removelast (tl parts) = ([] ++ "" :: removelast B)%list).
  { unfold parts. cbn [tl app]. destruct B as [|q B]; [contradiction | reflexivity]. }
  rewrite Hmid.
  assert (HrlB : Forall (fun p => is_empty p = false) (removelast B)).
  { apply Forall_forall. intros x Hx. rewrite Forall_forall in HBe. apply HBe.
    clear -Hx. induction B as [|q B IH]; [destruct Hx|].
    destruct B as [|r B]; [destruct Hx|]. destruct Hx as [<-|Hx]; [left; reflexivity|].
    right. apply IH. exact Hx. }
  rewrite find_skip_index_one by (constructor || assumption).
  cbn [bind List.length Z.of_nat Z.add Z.sub Z.opp Z.pos_sub Z.eqb negb].
  assert (Hfirst : is_empty (first_part parts) = true) by reflexivity.
  assert (Hlast : is_empty (last_part parts) = false).
  { unfold last_part, parts.
    change ("" :: "" :: B)%list with ([""] ++ "" :: B)%list.
    rewrite last_after by exact HB'.
    apply (last_Forall_ne (fun p => is_empty p = false)); assumption. }
  rewrite Hfirst, Hlast. cbn [bind]. unfold HEXTET_COUNT. rewrite Hl.
  replace (2 + Z.of_nat (List.length dB) - 1 - 1)
    with (Z.of_nat (List.length dB)) by lia.
  destruct (Z.ltb_spec (8 - (0 + Z.of_nat (List.length dB))) 1) as [Hlt|_]; [lia|].
  cbn [bind Z.to_nat firstn shift_in_hextets]. rewrite Z.shiftl_0_l.
  replace (Z.to_nat (2 + Z.of_nat (List.length dB) - Z.of_nat (List.length dB)))
    with 2%nat by lia.
  unfold parts. cbn [skipn]. unfold B.
  rewrite shift_in_hextets_hex by (assumption || lia). reflexivity.
Qed.

(** ["::"] at the end, with parts before it. *)
Lemma ip_int_from_parts_trailing (dA : list Z) :
  dA <> [] -> Forall (fun d => 0 <= d <= 65535) dA ->
  Z.of_nat (List.length dA) <= 7 ->
  ip_int_from_string_v6 (join ":" (map hex_int dA ++ [""; ""]))
  = Ok (hextets_value 0 dA * 2 ^ (16 * (8 - Z.of_nat (List.length dA)))).
Proof.
  intros HAne HA Hlen.
  destruct (hex_texts_facts dA HA) as [HAe HAc].
  set (A := map hex_int dA) in *.
  assert (HlA : List.length A = List.length dA) by apply length_map.
  assert (HA' : A <> []) by (intros E; apply HAne; apply map_eq_nil in E; exact E).
  set (parts := (A ++ [""; ""])%list).
  assert (Hparts : forall c, In c [":"; "."; " "; "/"; "%"]%char ->
            Forall (fun p => contains_char c p = false) parts).
  { intros c Hc. apply Forall_app. split; [apply HAc; exact Hc|].
    constructor; [reflexivity|]. constructor; [reflexivity | constructor]. }
  assert (Hl : Z.of_nat (List.length parts) = Z.of_nat (List.length dA) + 2).
  { unfold parts. rewrite length_app. cbn [List.length]. lia. }
  unfold ip_int_from_string_v6.
  assert (Hjoin : is_empty (join ":" parts) = false).
  { unfold parts. destruct A as [|p [|q A]]; [contradiction| |]; apply is_empty_join. }
  rewrite Hjoin.
  rewrite (split_join ":" parts) by
    (try (apply Hparts; simpl; auto); unfold parts; destruct A; discriminate).
  destruct (Z.ltb_spec (Z.of_nat (List.length parts)) 3) as [Hlt|_].
  { destruct dA; [contradiction|]. cbn [List.length] in Hl. lia. }
  assert (Hlp : last_part parts = "").
  { unfold last_part, parts. rewrite last_after by discriminate. reflexivity. }
  rewrite Hlp. cbn [contains_char bind].
  destruct (Z.gtb_spec (Z.of_nat (List.length parts)) (HEXTET_COUNT + 1)) as [Hgt|_].
  { unfold HEXTET_COUNT in Hgt. lia. }
  assert (Hmid : removelast (tl parts) = (tl A ++ "" :: [])%list).
  { unfold parts. destruct A as [|p A]; [contradiction|]. cbn [app tl].
    rewrite removelast_app by discriminate. reflexivity. }
  rewrite Hmid.
  assert (HtlA : Forall (fun p => is_empty p = false) (tl A)).
  { destruct A; [constructor | inversion HAe; assumption]. }
  rewrite find_skip_index_one by (constructor || assumption). cbn [bind].
  assert (HltA : 1 + Z.of_nat (List.length (tl A)) = Z.of_nat (List.length dA)).
  { rewrite <- HlA. destruct A; [contradiction|]. cbn [tl List.length]. lia. }
  rewrite HltA.
  assert (Hfirst : is_empty (first_part parts) = false).
  { unfold first_part, parts. destruct A as [|p A]; [contradiction|].
    inversion HAe; assumption. }
  rewrite Hfirst, Hlp. cbn [bind is_empty]. unfold HEXTET_COUNT. rewrite Hl.
  replace (Z.of_nat (List.length dA) + 2 - Z.of_nat (List.length dA) - 1 - 1)
    with 0 by lia.
  cbn [Z.eqb negb bind].
  replace (Z.of_nat (List.length dA) + 0) with (Z.of_nat (List.length dA)) by lia.
  destruct (Z.ltb_spec (8 - Z.of_nat (List.length dA)) 1) as [Hlt|_]; [lia|].
  cbn [bind]. rewrite Nat2Z.id.
  replace (Z.to_nat (Z.of_nat (List.length dA) + 2 - 0))
    with (List.length parts) by lia.
  rewrite skipn_all. unfold parts. rewrite <- HlA at 1.
  rewrite firstn_app, firstn_all, Nat.sub_diag. cbn [firstn]. rewrite app_nil_r.
  unfold A. rewrite shift_in_hextets_hex by (assumption || lia).
  cbn [bind shift_in_hextets catch_if].
  pose proof (hextets_value_nonneg dA 0 HA ltac:(lia)) as Hnn.
  rewrite Z.shiftl_mul_pow2 by lia. reflexivity.
Qed.

(** The text ["::"] alone. *)
Lemma ip_int_from_parts_all :
  ip_int_from_string_v6 (join ":" [""; ""; ""]) = Ok 0.
Proof. vm_compute. reflexivity. Qed.

(** Eight parts and no ["::"]. *)
Lemma ip_int_from_parts_full (ds : list Z) :
  List.length ds = 8%nat -> Forall (fun d => 0 <= d <= 65535) ds ->
  ip_int_from_string_v6 (join ":" (map hex_int ds)) = Ok (hextets_value 0 ds).
Proof.
  intros Hlen Hds.
  destruct (hex_texts_facts ds Hds) as [He Hc].
  set (parts := map hex_int ds) in *.
  assert (Hl : List.length parts = 8%nat) by (unfold parts; rewrite length_map; exact Hlen).
  unfold ip_int_from_string_v6.
  assert (Hjoin : is_empty (join ":" parts) = false).
  { destruct parts as [|p [|q parts]]; try discriminate. apply is_empty_join. }
  rewrite Hjoin.
  rewrite (split_join ":" parts) by
    (try (apply Hc; simpl; auto); destruct parts; discriminate).
  rewrite Hl. change (Z.of_nat 8 <? 3) with false. cbv iota.
  assert (Hdot : contains_char "." (last_part parts) = false).
  { unfold last_part. apply (last_Forall (fun p => contains_char "." p = false)).
    - apply Hc. simpl. auto.
    - reflexivity. }
  rewrite Hdot. cbn [bind]. rewrite Hl.
  change (Z.of_nat 8 >? HEXTET_COUNT + 1) with false. cbv iota.
  assert (Hmid : Forall (fun p => is_empty p = false) (removelast (tl parts))).
  { apply Forall_forall. intros x Hx. rewrite Forall_forall in He. apply He.
    destruct parts as [|p parts]; [destruct Hx|]. right. cbn [tl] in Hx.
    clear -Hx. induction parts as [|q B IH]; [destruct Hx|].
    destruct B as [|r B]; [destruct Hx|]. destruct Hx as [<-|Hx]; [left; reflexivity|].
    right. apply IH. exact Hx. }
  rewrite find_skip_index_nonempty by exact Hmid. cbn [bind].
  change (negb (Z.of_nat 8 =? HEXTET_COUNT)) with false. cbv iota.
  assert (Hfirst : is_empty (first_part parts) = false).
  { unfold first_part. destruct parts as [|p parts]; [discriminate|].
    inversion He; assumption. }
  assert (Hlast : is_empty (last_part parts) = false).
  { unfold last_part. apply (last_Forall_ne (fun p => is_empty p = false)).
    - destruct parts; discriminate.
    - exact He. }
  rewrite Hfirst, Hlast. cbn [bind].
  change (Z.to_nat (Z.of_nat 8)) with 8%nat.
  change (Z.to_nat (Z.of_nat 8 - 0)) with 8%nat.
  rewrite <- Hl, firstn_all, skipn_all. unfold parts.
  rewrite shift_in_hextets_hex by (assumption || lia).
  cbn [bind shift_in_hextets catch_if]. rewrite Z.shiftl_0_r. reflexivity.
Qed.

(** *** The text of an IPv6 integer *)

Lemma In_firstn {A : Type} (n : nat) (l : list A) (x : A) :
  In x (firstn n l) -> In x l.
Proof.
  intros H. rewrite <- (firstn_skipn n l). apply in_or_app. left. exact H.
Qed.

Lemma In_skipn {A : Type} (n : nat) (l : list A) (x : A) :
  In x (skipn n l) -> In x l.
Proof.
  intros H. rewrite <- (firstn_skipn n l). apply in_or_app. right. exact H.
Qed.

Lemma hextets_of_int_digits n : hextets_of_int n = map hex_int (hextet_digits n).
Proof. unfold hextets_of_int, hextet_digits. rewrite map_map. reflexivity. Qed.

Lemma compress_hextets_elems (hextets : list string) :
  Forall (fun p => p = "" \/ In p hextets) (compress_hextets hextets).
Proof.
  unfold compress_hextets.
  destruct (best_doublecolon 0 hextets (-1, 0, -1, 0)) as [bs bl].
  assert (Hall : Forall (fun p => p = "" \/ In p hextets) hextets).
  { apply Forall_forall. intros p Hp. right. exact Hp. }
  destruct (bl >? 1); [|exact Hall].
  assert (Hext : Forall (fun p => p = "" \/ In p hextets)
                   (if bs + bl =? Z.of_nat (List.length hextets)
                    then (hextets ++ [""])%list else hextets)).
  { destruct (_ =? _); [|exact Hall]. apply Forall_app. split; [exact Hall|].
    constructor; [left; reflexivity | constructor]. }
  set (ext := if bs + bl =? Z.of_nat (List.length hextets)
              then (hextets ++ [""])%list else hextets) in *.
  assert (Hparts : Forall (fun p => p = "" \/ In p hextets)
                     (firstn (Z.to_nat bs) ext ++ [""]
                      ++ skipn (Z.to_nat (bs + bl)) ext)).
  { rewrite Forall_forall in *. intros p Hp.
    apply in_app_or in Hp as [Hp|Hp]; [apply Hext; eapply In_firstn; exact Hp|].
    apply in_app_or in Hp as [[<-|[]]|Hp]; [left; reflexivity|].
    apply Hext. eapply In_skipn. exact Hp. }
  destruct (bs =? 0); [constructor; [left; reflexivity|]|]; exact Hparts.
Qed.

(** The text of an IPv6 integer holds none of the characters that end an
    address inside a longer text. *)
Lemma string_from_ip_int_v6_chars (n : Z) (c : ascii) :
  In c ["."; " "; "/"; "%"]%char ->
  contains_char c (string_from_ip_int_v6 n) = false.
Proof.
  intros Hc. unfold string_from_ip_int_v6. apply contains_char_join.
  - intros ->. destruct Hc as [E|[E|[E|[E|[]]]]]; discriminate.
  - pose proof (compress_hextets_elems (hextets_of_int n)) as H.
    eapply Forall_impl; [|exact H]. cbv beta. intros p [->|Hp]; [reflexivity|].
    rewrite hextets_of_int_digits in Hp. apply in_map_iff in Hp as (d & <- & Hd).
    pose proof (hextet_digits_range n) as Hr. rewrite Forall_forall in Hr.
    destruct (hextet_text_facts d (Hr d Hd)) as (_ & _ & _ & _ & H2 & H3 & H4 & H5).
    destruct Hc as [<-|[<-|[<-|[<-|[]]]]]; assumption.
Qed.

Lemma firstn_skipn_split {A : Type} (a l : nat) (ds : list A) :
  ds = (firstn a ds ++ firstn l (skipn a ds) ++ skipn (a + l) ds)%list.
Proof.
  rewrite <- (firstn_skipn a ds) at 1. f_equal.
  rewrite <- (firstn_skipn l (skipn a ds)) at 1. f_equal.
  rewrite skipn_skipn. f_equal. apply Nat.add_comm.
Qed.

(** The text of an IPv6 integer reads back as the integer. *)
Lemma ip_int_from_string_v6_text (n : Z) :
  0 <= n <= ALL_ONES IPv6 ->
  ip_int_from_string_v6 (string_from_ip_int_v6 n) = Ok n.
Proof.
  intros Hn. unfold string_from_ip_int_v6. rewrite hextets_of_int_digits.
  pose proof (hextet_digits_range n) as Hr.
  pose proof (hextet_digits_value n Hn) as Hval.
  assert (Hlen : List.length (hextet_digits n) = 8%nat) by reflexivity.
  set (ds := hextet_digits n) in *. clearbody ds.
  pose proof (compress_hextets_run (map hex_int ds)) as Hrun.
  unfold compress_hextets.
  destruct (best_doublecolon 0 (map hex_int ds) (-1, 0, -1, 0)) as [bs bl].
  destruct (Z.gtb_spec bl 1) as [Hgt|Hle].
  2:{ rewrite ip_int_from_parts_full by assumption. rewrite Hval. reflexivity. }
  destruct Hrun as [Hle|(Hs0 & Hl0 & Hend & Hzero)]; [lia|].
  rewrite length_map, Hlen in *. change (Z.of_nat 8) with 8 in *.
  set (a := Z.to_nat bs). set (l := Z.to_nat bl).
  assert (Ha : Z.of_nat a = bs) by (unfold a; lia).
  assert (Hl : Z.of_nat l = bl) by (unfold l; lia).
  pose proof (firstn_skipn_split a l ds) as Hds.
  set (dA := firstn a ds) in *. set (dZ := firstn l (skipn a ds)) in *.
  set (dB := skipn (a + l) ds) in *.
  assert (HlA : List.length dA = a) by (unfold dA; rewrite length_firstn; lia).
  assert (HlZ : List.length dZ = l).
  { unfold dZ. rewrite length_firstn, length_skipn. lia. }
  assert (HlB : List.length dB = (8 - a - l)%nat).
  { unfold dB. rewrite length_skipn. lia. }
  assert (HrA : Forall (fun d => 0 <= d <= 65535) dA).
  { apply Forall_forall. intros d Hd. rewrite Forall_forall in Hr. apply Hr.
    eapply In_firstn. exact Hd. }
  assert (HrB : Forall (fun d => 0 <= d <= 65535) dB).
  { apply Forall_forall. intros d Hd. rewrite Forall_forall in Hr. apply Hr.
    eapply In_skipn. exact Hd. }
  assert (HZ : Forall (fun d => d = 0) dZ).
  { fold a l in Hzero. rewrite skipn_map, firstn_map in Hzero. fold dZ in Hzero.
    apply Forall_forall. intros d Hd.
    assert (Hrd : 0 <= d <= 65535).
    { rewrite Forall_forall in Hr. apply Hr. unfold dZ in Hd.
      eapply In_skipn. eapply In_firstn. exact Hd. }
    rewrite Forall_forall in Hzero.
    apply (hextet_text_facts d Hrd). apply Hzero. apply in_map. exact Hd. }
  assert (Hn' : n = hextets_value (hextets_value 0 dA * 2 ^ (16 * bl)) dB).
  { rewrite <- Hval, Hds. rewrite !hextets_value_app.
    rewrite (hextets_value_zeros dZ _ HZ), HlZ, Hl. reflexivity. }
  assert (HfA : firstn a (map hex_int ds) = map hex_int dA)
    by (rewrite firstn_map; reflexivity).
  assert (HsB : skipn (a + l) (map hex_int ds) = map hex_int dB)
    by (rewrite skipn_map; reflexivity).
  assert (Hend' : Z.to_nat (bs + bl) = (a + l)%nat) by lia.
  rewrite Hend'.
  destruct (Z.eqb_spec (bs + bl) 8) as [E8|E8].
  - (* the run reaches the end *)
    rewrite firstn_app, length_map, Hlen.
    replace (a - 8)%nat with 0%nat by lia. cbn [firstn]. rewrite app_nil_r, HfA.
    rewrite skipn_app, length_map, Hlen.
    rewrite skipn_all2 by (rewrite length_map; lia).
    replace (a + l - 8)%nat with 0%nat by lia. cbn [skipn app].
    assert (dB = []) by (apply length_zero_iff_nil; lia).
    destruct (Z.eqb_spec bs 0) as [E0|E0].
    + assert (dA = []) by (apply length_zero_iff_nil; lia).
      subst dA dB. rewrite H0, H in *. cbn [map app].
      rewrite ip_int_from_parts_all. rewrite Hn'. reflexivity.
    + rewrite ip_int_from_parts_trailing;
        [| intros E; rewrite E in HlA; cbn [List.length] in HlA; lia | exact HrA | lia].
      rewrite Hn', H. cbn [hextets_value fold_left]. f_equal. f_equal. f_equal.
      lia.
  - (* hextets follow the run *)
    rewrite HfA, HsB.
    assert (HBne : dB <> []) by (intros E; rewrite E in HlB; cbn [List.length] in HlB; lia).
    destruct (Z.eqb_spec bs 0) as [E0|E0].
    + assert (HA0 : dA = []) by (apply length_zero_iff_nil; lia).
      rewrite HA0 in *. cbn [map app].
      rewrite ip_int_from_parts_leading by (assumption || lia).
      rewrite Hn'. cbn [hextets_value fold_left]. reflexivity.
    + cbn [app].
      rewrite ip_int_from_parts_mid;
        [| intros E; rewrite E in HlA; cbn [List.length] in HlA; lia | exact HBne
         | exact HrA | exact HrB | lia].
      rewrite Hn'. f_equal. f_equal. f_equal. f_equal. lia.
Qed.

(** ** Address text read back, for both families *)

Lemma IPv6Address_of_str_text (n : Z) :
  0 <= n <= ALL_ONES IPv6 ->
  IPv6Address_of_str (string_from_ip_int_v6 n) = Ok (Address IPv6 n None).
Proof.
  intros Hn. unfold IPv6Address_of_str, split_scope_id.
  rewrite string_from_ip_int_v6_chars by (simpl; auto).
  rewrite partition_char_absent
    by (apply string_from_ip_int_v6_chars; simpl; auto).
  cbn [negb bind]. rewrite ip_int_from_string_v6_text by exact Hn. reflexivity.
Qed.

(** A text without a dot is no IPv4 address. *)
Lemma IPv4Address_of_str_no_dot (s : string) :
  contains_char "." s = false ->
  exists e, IPv4Address_of_str s = Raise e /\ is_Address_or_Netmask e = true.
Proof.
  intros Hdot. unfold IPv4Address_of_str.
  destruct (contains_char "/" s); [eexists; split; reflexivity|].
  unfold ip_int_from_string_v4.
  destruct (is_empty s); [eexists; split; reflexivity|].
  unfold split. rewrite (split_from_piece "." "" s "" Hdot).
  cbn [List.length Nat.eqb negb bind]. eexists. split; reflexivity.
Qed.

Lemma ip_address_of_str_v6 (n : Z) :
  0 <= n <= ALL_ONES IPv6 ->
  ip_address_of_str (string_from_ip_int_v6 n) = Ok (Address IPv6 n None).
Proof.
  intros Hn. unfold ip_address_of_str.
  destruct (IPv4Address_of_str_no_dot (string_from_ip_int_v6 n))
    as (e & -> & He); [apply string_from_ip_int_v6_chars; simpl; auto|].
  cbn [catch_if]. rewrite He. rewrite IPv6Address_of_str_text by exact Hn.
  reflexivity.
Qed.

Lemma str_address_unscoped (a : address) :
  addr_scope_id a = None ->
  str_address a = match addr_version a with
                  | IPv4 => string_from_ip_int_v4 (addr_ip a)
                  | IPv6 => string_from_ip_int_v6 (addr_ip a)
                  end.
Proof. intros H. unfold str_address. rewrite H. reflexivity. Qed.

(** The text of an address without zone identifier reads back as the
    address. *)
Lemma ip_address_of_str_text (a : address) :
  wf_address a -> addr_scope_id a = None ->
  ip_address_of_str (str_address a) = Ok a.
Proof.
  intros Hwf Hs. pose proof (wf_address_range a Hwf) as Hr.
  rewrite str_address_unscoped by exact Hs.
  destruct a as [v n s]. cbn [addr_version addr_ip addr_scope_id] in *. subst s.
  destruct v; [apply ip_address_of_str_v4 | apply ip_address_of_str_v6]; exact Hr.
Qed.

Lemma str_address_chars (a : address) (c : ascii) :
  addr_scope_id a = None -> In c [" "; "/"]%char ->
  contains_char c (str_address a) = false.
Proof.
  intros Hs Hc. rewrite str_address_unscoped by exact Hs.
  destruct (addr_version a).
  - apply string_from_ip_int_v4_chars.
    + intros b Hb. destruct (octet_text_facts b Hb) as (_ & _ & H3 & H4).
      destruct Hc as [<-|[<-|[]]]; assumption.
    + destruct Hc as [<-|[<-|[]]]; discriminate.
  - apply string_from_ip_int_v6_chars. simpl. destruct Hc as [<-|[<-|[]]]; auto.
Qed.

(** The text of a gap splits into the texts of its two ends. *)
Lemma split_gap_text (iv : interval) :
  addr_scope_id (fst iv) = None -> addr_scope_id (snd iv) = None ->
  split " - " (gap_text iv) = [str_address (fst iv); str_address (snd iv)].
Proof.
  intros H1 H2. unfold gap_text, split.
  rewrite (split_from_piece_sep " " "- " _ _ ""
             (str_address_chars _ " " H1 ltac:(simpl; auto))).
  rewrite (split_from_piece " " "- " _ ""
             (str_address_chars _ " " H2 ltac:(simpl; auto))).
  reflexivity.
Qed.

(** The record of a gap whose addresses keep their family through [int]:
    IPv4 addresses, or IPv6 addresses from 2^32 on. *)
Lemma gap_record_of_gap (v : version) (iv : interval) :
  wf_address (fst iv) -> wf_address (snd iv) ->
  addr_version (fst iv) = v -> addr_version (snd iv) = v ->
  addr_scope_id (fst iv) = None -> addr_scope_id (snd iv) = None ->
  addr_ip (fst iv) <= addr_ip (snd iv) ->
  v = IPv4 \/ ALL_ONES IPv4 < addr_ip (fst iv) ->
  exists r, gap_record_of (gap_text iv) = Ok r /\ summarized_gap v iv r.
Proof.
  intros Hw1 Hw2 Hv1 Hv2 Hs1 Hs2 Hle Hfam.
  pose proof (wf_address_range _ Hw1) as Hr1.
  pose proof (wf_address_range _ Hw2) as Hr2.
  rewrite Hv1 in Hr1. rewrite Hv2 in Hr2.
  pose proof (ALL_ONES_le_v6 v) as H6.
  assert (Hints : (v = IPv4 /\ addr_ip (snd iv) <= ALL_ONES IPv4)
                  \/ (v = IPv6 /\ ALL_ONES IPv4 < addr_ip (fst iv))).
  { destruct Hfam as [->|Hhigh]; [left; split; [reflexivity | lia]|].
    destruct v; [left; split; [reflexivity | lia] | right; auto]. }
  destruct (summarize_ints (addr_ip (fst iv)) (addr_ip (snd iv)) v
              ltac:(lia) ltac:(lia) Hints) as (nets & Hnets & Hs).
  exists (GapRecord (gap_text iv) (map (fun net => Cidr (str_network net)) nets)).
  split.
  - unfold gap_record_of. rewrite (split_gap_text iv Hs1 Hs2).
    unfold ip_range_to_cidr.
    rewrite !ip_address_of_str_text by assumption. cbn [bind].
    destruct (Z.gtb_spec (addr_ip (fst iv)) (addr_ip (snd iv))); [lia|].
    rewrite Hnets. reflexivity.
  - split; [reflexivity|]. exists nets. cbn [cidr].
    split; [reflexivity|].
    split; [exact (summarizes_blocks _ _ _ _ Hs)|].
    split; [exact (summarizes_covers _ _ _ _ Hs)|].
    split; [exact (summarizes_disjoint _ _ _ _ Hs)|].
    exact (summarizes_no_merge _ _ _ _ Hs).
Qed.

(** ** The range summarizer: errors, and the range of one network *)

(** A text that is not an address gives one error entry, that of the first
    text rejected; nothing is raised. *)
Theorem ip_range_to_cidr_malformed (start_ip end_ip : string) (e : exn) :
  ip_address_of_str start_ip = Raise e
  \/ ((exists a, ip_address_of_str start_ip = Ok a)
      /\ ip_address_of_str end_ip = Raise e) ->
  ip_range_to_cidr start_ip end_ip = Ok [ErrorEntry (exn_msg e)].
Proof.
  unfold ip_range_to_cidr. intros [H|((a & Ha) & H)].
  - pose proof (ip_address_of_str_raises start_ip) as Hr.
    rewrite H in *. simpl in Hr. cbn [bind catch_if]. rewrite Hr. reflexivity.
  - pose proof (ip_address_of_str_raises end_ip) as Hr.
    rewrite Ha, H in *. simpl in Hr. cbn [bind catch_if]. rewrite Hr.
    reflexivity.
Qed.

Example ip_range_to_cidr_malformed_example :
  ip_range_to_cidr "10.0.0.1" "10.0.0.256"
  = Ok [ErrorEntry
          (MsgRepr "" "10.0.0.256" " does not appear to be an IPv4 or IPv6 address")].
Proof.
  apply (ip_range_to_cidr_malformed "10.0.0.1" "10.0.0.256"
           (Exn ValueError
              (MsgRepr "" "10.0.0.256"
                 " does not appear to be an IPv4 or IPv6 address"))).
  right. split; [eexists|]; vm_compute; reflexivity.
Defined.

(** The one way [ip_range_to_cidr] raises: the two texts are addresses, the
    first below 2^32 and the second at 2^32 or above, so that the integers
    come back as an IPv4 and an IPv6 address.  What is raised then is the
    [TypeError] of [summarize_address_range], which the [except ValueError]
    does not handle. *)
Theorem ip_range_to_cidr_raises (start_ip end_ip : string) :
  ((exists e, ip_range_to_cidr start_ip end_ip = Raise e)
   <-> exists a b,
         ip_address_of_str start_ip = Ok a /\ ip_address_of_str end_ip = Ok b
         /\ addr_ip a <= ALL_ONES IPv4 < addr_ip b)
  /\ forall e, ip_range_to_cidr start_ip end_ip = Raise e -> exn_cls e = TypeError.
Proof.
  assert (Hcls : forall e, ip_range_to_cidr start_ip end_ip = Raise e ->
                           exn_cls e = TypeError).
  { unfold ip_range_to_cidr. intros e H.
    destruct (bind (ip_address_of_str start_ip) _) as [x|e']; [discriminate|].
    cbn [catch_if] in H. unfold is_ValueError in H.
    destruct (exn_cls e') eqn:E; try discriminate.
    injection H as <-. exact E. }
  split; [|exact Hcls]. split.
  - intros (e & H). unfold ip_range_to_cidr in H.
    pose proof (ip_address_of_str_raises start_ip) as Hra.
    pose proof (ip_address_of_str_raises end_ip) as Hrb.
    destruct (ip_address_of_str start_ip) as [a|ea] eqn:Ea;
      [|simpl in Hra; cbn [bind catch_if] in H; rewrite Hra in H; discriminate].
    destruct (ip_address_of_str end_ip) as [b|eb] eqn:Eb;
      [|simpl in Hrb; cbn [bind catch_if] in H; rewrite Hrb in H; discriminate].
    cbn [bind] in H. exists a, b. split; [reflexivity|]. split; [reflexivity|].
    apply ip_address_of_str_Ok, wf_address_range in Ea, Eb.
    pose proof (ALL_ONES_le_v6 (addr_version a)).
    pose proof (ALL_ONES_le_v6 (addr_version b)).
    destruct (Z.gtb_spec (addr_ip a) (addr_ip b)) as [Hgt|Hle];
      [cbn [catch_if is_ValueError exn_cls] in H; discriminate|].
    destruct (Z_le_gt_dec (addr_ip b) (ALL_ONES IPv4)) as [Hb4|Hb6].
    + destruct (summarize_ints (addr_ip a) (addr_ip b) IPv4
                  ltac:(lia) ltac:(lia) ltac:(left; split; [reflexivity|lia]))
        as (nets & Hn & _).
      rewrite Hn in H. discriminate.
    + destruct (Z_le_gt_dec (addr_ip a) (ALL_ONES IPv4)) as [Ha4|Ha6]; [lia|].
      destruct (summarize_ints (addr_ip a) (addr_ip b) IPv6
                  ltac:(lia) ltac:(lia) ltac:(right; split; [reflexivity|lia]))
        as (nets & Hn & _).
      rewrite Hn in H. discriminate.
  - intros (a & b & Ea & Eb & Ha & Hb). unfold ip_range_to_cidr.
    rewrite Ea, Eb. cbn [bind].
    apply ip_address_of_str_Ok, wf_address_range in Ea, Eb.
    pose proof (ALL_ONES_le_v6 (addr_version b)).
    destruct (Z.gtb_spec (addr_ip a) (addr_ip b)); [lia|].
    rewrite ip_address_of_int_v4, ip_address_of_int_v6 by lia.
    cbn [bind]. unfold summarize_address_range. cbn [addr_version version_eqb negb].
    cbn [bind catch_if is_ValueError exn_cls]. eexists. reflexivity.
Qed.

(** Two greatest blocks of one range that start at the same address have
    the same number of host bits. *)
Lemma greatest_block_host_bits v l n m :
  greatest_block v l n -> greatest_block v l m -> first_int n = first_int m ->
  host_bits n = host_bits m.
Proof.
  assert (Hle : forall n m, greatest_block v l n -> greatest_block v l m ->
                  first_int n = first_int m -> host_bits m <= host_bits n).
  { clear n m. intros n m (Hn & Hvn & _ & Hln & Hmax) (Hm & Hvm & _ & Hlm & _) Hf.
    destruct (Z_le_gt_dec (host_bits m) (host_bits n)) as [|Hgt]; [assumption|].
    exfalso.
    destruct (wf_network_range m Hm) as (Hhm & _ & _). rewrite Hvm in Hhm.
    destruct (wf_network_facts m Hm) as (_ & _ & Halm).
    rewrite (last_int_eq m Hm) in Hlm.
    destruct (Hmax (host_bits m) ltac:(lia)) as [Hnot|Hbeyond].
    - apply Hnot. rewrite Hf. exact Halm.
    - lia. }
  intros Hn Hm Hf. pose proof (Hle n m Hn Hm Hf).
  pose proof (Hle m n Hm Hn (eq_sym Hf)). lia.
Qed.

(** A network is determined by its family, its first address and the
    number of its host bits, when its address has no zone identifier. *)
Lemma network_eq n m :
  unscoped n -> unscoped m -> net_version n = net_version m ->
  first_int n = first_int m -> host_bits n = host_bits m -> n = m.
Proof.
  destruct n as [[vn fn sn] pn], m as [[vm fm sm] pm].
  unfold unscoped, net_version, first_int, host_bits. simpl.
  intros -> -> -> -> H. unfold net_version in H. simpl in H. f_equal. lia.
Qed.

(** The summary of the range of one network is that network. *)
Lemma summarizes_network n nets :
  wf_network n -> unscoped n ->
  summarizes (net_version n) (last_int n) (first_int n) nets -> nets = [n].
Proof.
  intros Hn Hu H. pose proof (wf_first_le_last n Hn) as Hfl.
  inversion H as [f Hf | f m rest Hf Hfirst Hblock Hrest]; subst; [lia|].
  assert (Hself : greatest_block (net_version n) (last_int n) n).
  { repeat split; auto; try lia.
    intros h Hh. right. rewrite (last_int_eq n Hn).
    assert (2 ^ host_bits n < 2 ^ h).
    { destruct (wf_network_range n Hn) as (Hh0 & _ & _).
      apply Z.pow_lt_mono_r; lia. }
    lia. }
  pose proof (greatest_block_host_bits _ _ _ _ Hblock Hself Hfirst) as Hh.
  destruct Hblock as (Hm & Hvm & Hum & _ & _).
  assert (m = n) by (apply network_eq; auto). subst m.
  inversion Hrest as [f Hf' | f m rest' Hf' _ _ _]; subst; [reflexivity | lia].
Qed.

(** An IPv4 network has no zone identifier. *)
Lemma wf_ipv4_unscoped n : wf_network n -> net_version n = IPv4 -> unscoped n.
Proof.
  intros Hn Hv. unfold wf_network, wf_networkb, wf_addressb in Hn.
  unfold net_version in Hv. unfold unscoped. rewrite Hv in Hn.
  destruct (addr_scope_id (network_address n)); [|reflexivity].
  rewrite !Bool.andb_false_r in Hn. discriminate.
Qed.

(** The integers of a network whose addresses keep their family. *)
Lemma keeps_family_ints (n : network) :
  wf_network n -> keeps_family n ->
  (net_version n = IPv4 /\ last_int n <= ALL_ONES IPv4)
  \/ (net_version n = IPv6 /\ ALL_ONES IPv4 < first_int n).
Proof.
  intros Hn Hk. destruct (wf_network_range n Hn) as (_ & _ & Hl).
  rewrite <- (last_int_eq n Hn) in Hl. unfold keeps_family in Hk.
  destruct (net_version n).
  - left. split; [reflexivity | exact Hl].
  - right. split; [reflexivity|]. destruct Hk as [Hk|Hk]; [discriminate | exact Hk].
Qed.

(** The part of [ip_range_to_cidr] after the two texts are read, on the
    first and the last integer of a network: the summary is the network. *)
Lemma summarize_network_ints (n : network) :
  wf_network n -> unscoped n -> keeps_family n ->
  bind (ip_address_of_int (first_int n)) (fun first =>
    bind (ip_address_of_int (last_int n)) (fun last =>
      bind (summarize_address_range first last) (fun nets =>
        Ok (map (fun net => Cidr (str_network net)) nets))))
  = Ok [Cidr (str_network n)].
Proof.
  intros Hn Hu Hk. pose proof (wf_first_le_last n Hn) as Hfl.
  destruct (wf_network_range n Hn) as (_ & Hf0 & Hl).
  rewrite <- (last_int_eq n Hn) in Hl.
  pose proof (ALL_ONES_le_v6 (net_version n)) as H6.
  destruct (summarize_ints (first_int n) (last_int n) (net_version n)
              ltac:(lia) ltac:(lia) (keeps_family_ints n Hn Hk))
    as (nets & Hnets & Hs).
  rewrite Hnets. rewrite (summarizes_network n nets Hn Hu Hs). reflexivity.
Qed.

(** From a network to the range of its addresses and back: on the texts of
    the first and of the last address of a network, [ip_range_to_cidr]
    returns the one text of that network.  The network is of either family
    and has no zone identifier; an IPv6 network starts at 2^32 or above,
    below which [ip_range_to_cidr] takes its integers for IPv4 addresses.
    For a prefix length of the full width this is the range of a single
    address. *)
Theorem ip_range_to_cidr_network (n : network) :
  wf_network n -> unscoped n -> keeps_family n ->
  ip_range_to_cidr (str_address (network_address n))
                   (str_address (broadcast_address n))
  = Ok [Cidr (str_network n)].
Proof.
  intros Hn Hu Hk. pose proof (wf_first_le_last n Hn) as Hfl.
  destruct (wf_network_facts n Hn) as (Ha & _ & _).
  unfold ip_range_to_cidr.
  rewrite (ip_address_of_str_text _ Ha Hu).
  rewrite (ip_address_of_str_text _ (wf_broadcast n Hn) eq_refl).
  cbn [bind]. fold (first_int n) (last_int n).
  destruct (Z.gtb_spec (first_int n) (last_int n)); [lia|].
  rewrite (summarize_network_ints n Hn Hu Hk). reflexivity.
Qed.

Example ip_range_to_cidr_network_example :
  ip_range_to_cidr "10.0.0.64" "10.0.0.127" = Ok [Cidr "10.0.0.64/26"]
  /\ ip_range_to_cidr "2001:db8::" "2001:db8::ffff:ffff:ffff:ffff"
     = Ok [Cidr "2001:db8::/64"].
Proof.
  split.
  - apply (ip_range_to_cidr_network (Network (Address IPv4 167772224 None) 26));
      [reflexivity | reflexivity | left; reflexivity].
  - apply (ip_range_to_cidr_network
             (Network (Address IPv6 42540766411282592856903984951653826560 None) 64));
      [reflexivity | reflexivity | right; reflexivity].
Defined.

(** ** The sweep, whether or not sub-ranges overlap *)

(** One turn of the sweep that returns, read backwards. *)
Lemma sweep_step_inv v cursor gaps s st' :
  addr_version cursor = v -> addr_scope_id cursor = None ->
  net_version s = v -> unscoped s ->
  sweep_step (cursor, gaps) s = Ok st' ->
  st' = (Address v (last_int s + 1) None,
         if addr_ip cursor <? first_int s
         then (gaps ++ [(cursor, Address v (first_int s - 1) None)])%list
         else gaps).
Proof.
  intros Hcv Hcs Hsv Hss H. unfold sweep_step in H.
  apply bind_Ok in H as (gt & Hgt & H).
  apply bind_Ok in H as (gaps1 & Hgaps1 & H).
  apply bind_Ok in H as (c1 & Hc1 & H). injection H as <-.
  unfold addr_add in Hc1. apply address_of_int_Ok in Hc1 as [-> _].
  change (addr_version (broadcast_address s)) with (net_version s).
  fold (last_int s). rewrite Hsv. f_equal.
  unfold addr_gt, addr_lt in Hgt. unfold net_version in Hsv.
  rewrite Hsv, Hcv, version_eqb_refl in Hgt. cbn [negb bind] in Hgt.
  injection Hgt as <-.
  rewrite addr_eq_unscoped in Hgaps1 by (auto; congruence).
  fold (first_int s) in Hgaps1.
  destruct (Z.ltb_spec (first_int s) (addr_ip cursor));
    destruct (Z.eqb_spec (first_int s) (addr_ip cursor));
    destruct (Z.ltb_spec (addr_ip cursor) (first_int s));
    cbn [negb andb] in Hgaps1; try lia;
    try (injection Hgaps1 as <-; reflexivity).
  apply bind_Ok in Hgaps1 as (before & Hb & Hgaps1). injection Hgaps1 as <-.
  unfold addr_sub in Hb. apply address_of_int_Ok in Hb as [-> _].
  fold (first_int s). rewrite Hsv. reflexivity.
Qed.

(** A sweep that returns has computed [swept]. *)
Lemma sweep_inv_swept v l : forall st st',
  addr_version (fst st) = v -> addr_scope_id (fst st) = None ->
  Forall (fun s => net_version s = v /\ unscoped s) l ->
  sweep st l = Ok st' -> st' = swept v st l.
Proof.
  induction l as [|s l IH]; intros [cursor gaps] st' Hv Hs Hl H; simpl in H.
  - injection H as <-. reflexivity.
  - apply bind_Ok in H as (st1 & Hstep & H).
    inversion Hl as [|? ? [Hsv Hsu] Hl']; subst.
    apply (sweep_step_inv _ cursor gaps s st1 eq_refl Hs Hsv Hsu) in Hstep.
    subst st1. cbn [swept fst snd]. apply IH; auto.
Qed.

(** What the sweep needs of a subnet for the comparisons: of the family
    [v], well formed, without zone identifier. *)
Lemma sweep_step_raises v cursor gaps s :
  addr_version cursor = v -> addr_scope_id cursor = None -> 0 <= addr_ip cursor ->
  wf_network s -> net_version s = v -> unscoped s ->
  last_int s = ALL_ONES v ->
  exists e, sweep_step (cursor, gaps) s = Raise e
            /\ exn_cls e = AddressValueError.
Proof.
  intros Hv Hs Hu Hwf Hsv Hsu Hmax.
  destruct (wf_network_range s Hwf) as (_ & Hf0 & _).
  pose proof (wf_first_le_last s Hwf) as Hfl.
  pose proof (max_prefixlen_pos v) as Hbits.
  unfold sweep_step, addr_gt, addr_lt. unfold net_version in Hsv.
  rewrite Hsv, Hv, version_eqb_refl. cbn [negb bind].
  rewrite addr_eq_unscoped by (auto; congruence).
  fold (first_int s).
  unfold addr_add, addr_sub. fold (last_int s) (first_int s).
  change (addr_version (broadcast_address s)) with (addr_version (network_address s)).
  rewrite Hsv.
  assert (Hraise : exists e, address_of_int v (last_int s + 1) = Raise e
                             /\ exn_cls e = AddressValueError).
  { unfold address_of_int, check_int_address.
    destruct (Z.ltb_spec (last_int s + 1) 0); [lia|].
    destruct (Z.gtb_spec (last_int s + 1) (ALL_ONES v)); [|lia].
    cbn [bind]. eexists. split; reflexivity. }
  destruct Hraise as (e & He & Hcls).
  destruct (negb (first_int s <? addr_ip cursor)
            && negb (first_int s =? addr_ip cursor))%bool eqn:E.
  - assert (Hlt : addr_ip cursor < first_int s).
    { destruct (Z.ltb_spec (first_int s) (addr_ip cursor)),
        (Z.eqb_spec (first_int s) (addr_ip cursor)); simpl in E;
        try discriminate; lia. }
    assert (Hin : 0 <= first_int s - 1 <= ALL_ONES v) by lia.
    rewrite (address_of_int_in_range v (first_int s - 1) Hin).
    cbn [bind]. rewrite He. exists e. auto.
  - cbn [bind]. rewrite He. exists e. auto.
Qed.

(** The sweep over well-formed subnets of the cursor's family: it returns
    [swept] when every subnet ends below the last address of the family,
    and raises an [AddressValueError] when one ends at it. *)
Lemma sweep_result v l : forall st,
  addr_version (fst st) = v -> addr_scope_id (fst st) = None ->
  0 <= addr_ip (fst st) ->
  Forall (fun s => wf_network s /\ net_version s = v /\ unscoped s) l ->
  (Forall (fun s => last_int s < ALL_ONES v) l
   /\ sweep st l = Ok (swept v st l))
  \/ (Exists (fun s => last_int s = ALL_ONES v) l
      /\ exists e, sweep st l = Raise e /\ exn_cls e = AddressValueError).
Proof.
  induction l as [|s l IH]; intros [cursor gaps] Hv Hs Hu Hl.
  - left. split; [constructor | reflexivity].
  - inversion Hl as [|? ? (Hwf & Hsv & Hsu) Hl']; subst.
    cbn [fst snd] in *.
    destruct (wf_network_range s Hwf) as (_ & Hf0 & Hlast).
    rewrite <- (last_int_eq s Hwf), Hsv in Hlast.
    pose proof (wf_first_le_last s Hwf) as Hfl.
    destruct (Z.eq_dec (last_int s) (ALL_ONES (addr_version cursor))) as [Hmax|Hmax].
    + right. split; [left; exact Hmax|].
      destruct (sweep_step_raises _ cursor gaps s eq_refl Hs Hu Hwf Hsv Hsu Hmax)
        as (e & He & Hcls).
      exists e. cbn [sweep]. rewrite He. auto.
    + assert (Hsw : sweepable (addr_version cursor) s s).
      { unfold sweepable. repeat split; auto; lia. }
      cbn [sweep].
      rewrite (sweep_step_eq _ s cursor gaps s eq_refl Hs Hu Hsw).
      cbn [bind swept fst snd].
      assert (Hu' : 0 <= last_int s + 1) by lia.
      destruct (IH (Address (addr_version cursor) (last_int s + 1) None,
                    if addr_ip cursor <? first_int s
                    then (gaps ++ [(cursor,
                            Address (addr_version cursor) (first_int s - 1) None)])%list
                    else gaps) eq_refl eq_refl Hu' Hl')
        as [[Hall Hok]|[Hex Hraise]].
      * left. split; [constructor; [lia | exact Hall] | exact Hok].
      * right. split; [right; exact Hex | exact Hraise].
Qed.

Lemma swept_cursor v l : forall st,
  addr_version (fst st) = v -> addr_scope_id (fst st) = None ->
  addr_version (fst (swept v st l)) = v
  /\ addr_scope_id (fst (swept v st l)) = None.
Proof.
  induction l as [|s l IH]; intros st Hv Hs; cbn [swept]; [auto|].
  apply IH; reflexivity.
Qed.

Lemma sort_length l : List.length (sort_by_network_address l) = List.length l.
Proof.
  assert (Hins : forall x l, List.length (insert_by_network_address x l)
                             = S (List.length l)).
  { intros x. induction l0 as [|y l0 IH]; simpl; [reflexivity|].
    destruct (_ <? _); simpl; [rewrite IH|]; reflexivity. }
  induction l as [|x l IH]; simpl; [reflexivity|]. rewrite Hins, IH. reflexivity.
Qed.

(** The subnets the sweep of [c] meets: well formed, of the family of [c],
    without zone identifier, and sharing an address with [c]. *)
Lemma relevant_subnets_facts c subs :
  wf_network c -> Forall wf_network subs ->
  Forall unscoped (filter (fun s => overlaps c s) subs) ->
  Forall (fun s => wf_network s /\ net_version s = net_version c /\ unscoped s
                   /\ first_int s <= last_int c /\ first_int c <= last_int s)
    (sort_by_network_address (filter (fun s => overlaps c s) subs)).
Proof.
  intros Hc Hwf Hun. apply sort_Forall.
  apply (filter_Forall_both (fun s => overlaps c s)) in Hwf.
  rewrite Forall_forall in *. intros s Hs.
  destruct (Hwf s Hs) as [Hws Ho]. specialize (Hun s Hs).
  apply overlaps_spec in Ho as (Hv & H1 & H2); auto.
Qed.

(** One address space, swept: [space_gaps] returns [space_gaps_of] when
    every sub-range that overlaps the space ends below the last address of
    the family, and raises an [AddressValueError] when one ends at it. *)
Lemma space_gaps_result c subs :
  wf_network c -> unscoped c -> Forall wf_network subs ->
  Forall unscoped (filter (fun s => overlaps c s) subs) ->
  (Forall (fun s => last_int s < ALL_ONES (net_version c))
     (filter (fun s => overlaps c s) subs)
   /\ space_gaps subs [] c = Ok (space_gaps_of c subs))
  \/ (Exists (fun s => last_int s = ALL_ONES (net_version c))
        (filter (fun s => overlaps c s) subs)
      /\ exists e, space_gaps subs [] c = Raise e
                   /\ exn_cls e = AddressValueError).
Proof.
  intros Hc Hcu Hwf Hun.
  pose proof (relevant_subnets_facts c subs Hc Hwf Hun) as Hrel.
  destruct (wf_network_range c Hc) as (_ & Hc0 & _).
  destruct (sweep_result (net_version c)
              (sort_by_network_address (filter (fun s => overlaps c s) subs))
              (network_address c, []) eq_refl Hcu Hc0)
    as [[Hall Hok]|[Hex (e & He & Hcls)]].
  { eapply Forall_impl; [|exact Hrel]. simpl. tauto. }
  - left. split.
    { rewrite Forall_forall in *. intros s Hs. apply Hall.
      apply (proj2 (sort_In _ _)). exact Hs. }
    unfold space_gaps, space_gaps_of. rewrite Hok. cbn [bind].
    destruct (swept_cursor (net_version c)
                (sort_by_network_address (filter (fun s => overlaps c s) subs))
                (network_address c, []) eq_refl Hcu) as [Hv Hs].
    destruct (swept _ _ _) as [cursor gaps]. cbn [fst snd] in *.
    unfold addr_le, addr_lt.
    change (addr_version (broadcast_address c)) with (net_version c).
    rewrite Hv, version_eqb_refl. cbn [negb bind].
    rewrite addr_eq_unscoped by (auto; rewrite Hv; reflexivity).
    fold (last_int c).
    destruct (Z.ltb_spec (addr_ip cursor) (last_int c)),
      (Z.eqb_spec (addr_ip cursor) (last_int c)),
      (Z.leb_spec (addr_ip cursor) (last_int c)); simpl;
      lia || reflexivity.
  - right. split.
    { apply Exists_exists in Hex as (s & Hs & Hmax). apply Exists_exists.
      exists s. split; [apply (proj1 (sort_In _ _)); exact Hs | exact Hmax]. }
    exists e. unfold space_gaps. rewrite He. auto.
Qed.

Lemma space_gaps_Ok_of c subs gaps :
  wf_network c -> unscoped c -> Forall wf_network subs ->
  Forall unscoped (filter (fun s => overlaps c s) subs) ->
  space_gaps subs [] c = Ok gaps -> gaps = space_gaps_of c subs.
Proof.
  intros Hc Hcu Hwf Hun H.
  destruct (space_gaps_result c subs Hc Hcu Hwf Hun)
    as [[_ Hok]|[_ (e & He & _)]]; congruence.
Qed.

(** *** No free address is missed *)

Lemma swept_complete v x l : forall st,
  (forall s, In s l -> ~ in_network x s) ->
  (exists iv, In iv (snd st) /\ in_interval x iv) \/ addr_ip (fst st) <= x ->
  (exists iv, In iv (snd (swept v st l)) /\ in_interval x iv)
  \/ addr_ip (fst (swept v st l)) <= x.
Proof.
  induction l as [|s l IH]; intros [cursor gaps] Hfree Hx; cbn [swept]; [exact Hx|].
  cbn [fst snd] in *. apply IH; [intros t Ht; apply Hfree; right; exact Ht|].
  cbn [fst snd addr_ip].
  assert (Hs : ~ in_network x s) by (apply Hfree; left; reflexivity).
  unfold in_network in Hs.
  destruct Hx as [(iv & Hin & Hiv)|Hx].
  - left. exists iv. split; [|exact Hiv].
    destruct (_ <? _); [apply in_or_app; left|]; exact Hin.
  - destruct (Z_lt_ge_dec x (first_int s)) as [Hlt|Hge].
    + left. destruct (Z.ltb_spec (addr_ip cursor) (first_int s)); [|lia].
      exists (cursor, Address v (first_int s - 1) None).
      split; [apply in_or_app; right; left; reflexivity|].
      unfold in_interval. cbn [fst snd addr_ip]. lia.
    + right. lia.
Qed.

Lemma space_gaps_of_complete c subs x :
  in_network x c ->
  (forall s, In s subs -> overlaps c s = true -> ~ in_network x s) ->
  exists iv, In iv (space_gaps_of c subs) /\ in_interval x iv.
Proof.
  intros Hx Hfree. unfold space_gaps_of.
  destruct (swept_complete (net_version c) x
              (sort_by_network_address (filter (fun s => overlaps c s) subs))
              (network_address c, [])) as [(iv & Hin & Hiv)|Hcur].
  - intros s Hs. apply (proj1 (sort_In _ _)) in Hs.
    apply filter_In in Hs as [Hs Ho]. apply Hfree; assumption.
  - right. cbn [fst]. destruct Hx as [Hx _]. exact Hx.
  - exists iv. split; [|exact Hiv].
    destruct (_ <=? _); [apply in_or_app; left|]; exact Hin.
  - destruct (swept _ _ _) as [cursor gaps]. cbn [fst snd] in *.
    destruct Hx as [_ Hx].
    destruct (Z.leb_spec (addr_ip cursor) (last_int c)); [|lia].
    exists (cursor, broadcast_address c).
    split; [apply in_or_app; right; left; reflexivity|].
    unfold in_interval. cbn [fst snd]. fold (last_int c). lia.
Qed.

(** The records of [find_gaps] are those of the gaps of the sweep, one for
    one. *)
Lemma find_gaps_Ok_gaps c subs records :
  find_gaps c subs = Ok records ->
  exists gaps,
    space_gaps subs [] c = Ok gaps
    /\ Forall2 (fun iv r => gap r = gap_text iv) gaps records.
Proof.
  unfold find_gaps, vnet_gaps. intros H.
  apply bind_Ok in H as (gaps & Hgaps & H). cbn [all_space_gaps] in Hgaps.
  apply bind_Ok in Hgaps as (gaps1 & Hgaps1 & Hgaps). injection Hgaps as ->.
  exists gaps. split; [exact Hgaps1|].
  apply mapM_Ok in H. clear Hgaps1. revert records H.
  induction gaps as [|iv gaps IH]; intros records H; inversion H; subst;
    constructor; auto.
  eapply gap_record_of_Ok; eassumption.
Qed.

(** *** The gaps the sweep leaves *)

Lemma ForallOrdPairs_snoc {A : Type} (R : A -> A -> Prop) (l : list A) (x : A) :
  ForallOrdPairs R l -> Forall (fun a => R a x) l -> ForallOrdPairs R (l ++ [x]).
Proof.
  induction 1 as [|a l Ha Hl IH]; intros Hx; simpl.
  - constructor; constructor.
  - inversion Hx; subst. constructor; [|apply IH; assumption].
    apply Forall_app. split; [exact Ha | constructor; [assumption | constructor]].
Qed.

Lemma insert_sorted x l :
  ForallOrdPairs (fun a b => first_int a <= first_int b) l ->
  ForallOrdPairs (fun a b => first_int a <= first_int b)
    (insert_by_network_address x l).
Proof.
  induction 1 as [|y l Hy Hl IH]; simpl.
  - constructor; constructor.
  - fold (first_int y) (first_int x).
    destruct (Z.ltb_spec (first_int y) (first_int x)) as [Hlt|Hge].
    + constructor; [|exact IH].
      apply insert_Forall; [lia | exact Hy].
    + constructor; [|constructor; assumption].
      constructor; [exact Hge|].
      eapply Forall_impl; [|exact Hy]. simpl. intros t Ht. lia.
Qed.

(** The sort puts the relevant subnets in the order of their first
    addresses. *)
Lemma sort_sorted l :
  ForallOrdPairs (fun a b => first_int a <= first_int b)
    (sort_by_network_address l).
Proof.
  induction l as [|x l IH]; simpl; [constructor | apply insert_sorted; exact IH].
Qed.

Lemma swept_structure c l : forall st,
  ForallOrdPairs (fun a b => first_int a <= first_int b) l ->
  Forall (fun s => wf_network s /\ first_int s <= last_int c
                   /\ first_int c <= last_int s) l ->
  addr_version (fst st) = net_version c -> addr_scope_id (fst st) = None ->
  first_int c <= addr_ip (fst st) ->
  Forall (gap_within c) (snd st) ->
  ForallOrdPairs separated (snd st) ->
  Forall (fun iv => addr_ip (snd iv) + 1 < addr_ip (fst st)) (snd st) ->
  Forall (fun iv => Forall (fun s => addr_ip (snd iv) < first_int s) l) (snd st) ->
  first_int c <= addr_ip (fst (swept (net_version c) st l))
  /\ Forall (gap_within c) (snd (swept (net_version c) st l))
  /\ ForallOrdPairs separated (snd (swept (net_version c) st l))
  /\ Forall (fun iv => addr_ip (snd iv) + 1
                       < addr_ip (fst (swept (net_version c) st l)))
       (snd (swept (net_version c) st l)).
Proof.
  induction l as [|s l IH];
    intros [cursor gaps] Hsorted Hl Hv Hsc Hu Hin Hsep Hbelow Hnext;
    cbn [swept fst snd] in *; [auto|].
  inversion Hsorted as [|? ? Hs_le Hsorted']; subst.
  inversion Hl as [|? ? (Hwf & Hs1 & Hs2) Hl']; subst.
  pose proof (wf_first_le_last s Hwf) as Hfl.
  assert (Hhead : Forall (fun iv => addr_ip (snd iv) < first_int s) gaps).
  { eapply Forall_impl; [|exact Hnext]. simpl. intros iv Hiv.
    inversion Hiv; assumption. }
  assert (Htail : Forall (fun iv => Forall (fun t => addr_ip (snd iv) < first_int t) l)
                    gaps).
  { eapply Forall_impl; [|exact Hnext]. simpl. intros iv Hiv.
    inversion Hiv; assumption. }
  apply IH; cbn [fst snd addr_version addr_ip addr_scope_id]; auto; try lia.
  - (* within the address space *)
    destruct (Z.ltb_spec (addr_ip cursor) (first_int s)); [|exact Hin].
    apply Forall_app. split; [exact Hin|]. constructor; [|constructor].
    unfold gap_within. cbn [fst snd addr_version addr_ip addr_scope_id].
    repeat split; auto; lia.
  - (* separated *)
    destruct (Z.ltb_spec (addr_ip cursor) (first_int s)); [|exact Hsep].
    apply ForallOrdPairs_snoc; [exact Hsep|].
    eapply Forall_impl; [|exact Hbelow]. simpl. intros iv Hiv.
    unfold separated. cbn [fst]. exact Hiv.
  - (* below the new cursor *)
    destruct (Z.ltb_spec (addr_ip cursor) (first_int s)).
    + apply Forall_app. split.
      * eapply Forall_impl; [|exact Hhead]. simpl. intros iv Hiv. lia.
      * constructor; [|constructor]. cbn [snd addr_ip]. lia.
    + eapply Forall_impl; [|exact Hhead]. simpl. intros iv Hiv. lia.
  - (* before the subnets to come *)
    destruct (Z.ltb_spec (addr_ip cursor) (first_int s)); [|exact Htail].
    apply Forall_app. split; [exact Htail|]. constructor; [|constructor].
    cbn [snd addr_ip]. eapply Forall_impl; [|exact Hs_le]. simpl.
    intros t Ht. lia.
Qed.

Lemma space_gaps_of_structure c subs :
  wf_network c -> unscoped c -> Forall wf_network subs ->
  Forall unscoped (filter (fun s => overlaps c s) subs) ->
  Forall (gap_within c) (space_gaps_of c subs)
  /\ ForallOrdPairs separated (space_gaps_of c subs).
Proof.
  intros Hc Hcu Hwf Hun.
  pose proof (relevant_subnets_facts c subs Hc Hwf Hun) as Hrel.
  unfold space_gaps_of.
  destruct (swept_structure c
              (sort_by_network_address (filter (fun s => overlaps c s) subs))
              (network_address c, [])) as (Hu & Hin & Hsep & Hbelow);
    cbn [fst snd]; try (constructor; fail); try reflexivity; try exact Hcu.
  - apply sort_sorted.
  - eapply Forall_impl; [|exact Hrel]. simpl. tauto.
  - destruct (swept _ _ _) as [cursor gaps] eqn:E. cbn [fst snd] in *.
    assert (Hv : addr_version cursor = net_version c /\ addr_scope_id cursor = None).
    { pose proof (swept_cursor (net_version c)
                    (sort_by_network_address (filter (fun s => overlaps c s) subs))
                    (network_address c, []) eq_refl Hcu) as Hcur.
      rewrite E in Hcur. exact Hcur. }
    destruct Hv as [Hv Hsc].
    destruct (Z.leb_spec (addr_ip cursor) (last_int c)); [|auto].
    split.
    + apply Forall_app. split; [exact Hin|]. constructor; [|constructor].
      unfold gap_within. cbn [fst snd]. fold (last_int c).
      repeat split; auto; lia.
    + apply ForallOrdPairs_snoc; [exact Hsep|].
      eapply Forall_impl; [|exact Hbelow]. simpl. intros iv Hiv.
      unfold separated. cbn [fst]. exact Hiv.
Qed.

(** For a container without zone identifier and sub-ranges of which those
    that overlap it carry none, overlapping one another or not, the gap
    finder misses no free address: when it returns, every address of the
    container that no sub-range holds lies in the interval of one of its
    records, an interval within the container. *)
Theorem free_address_is_reported (container : network)
  (sub_ranges : list network) (records : list gap_record) (x : Z) :
  wf_network container -> unscoped container ->
  Forall wf_network sub_ranges ->
  Forall unscoped (filter (fun s => overlaps container s) sub_ranges) ->
  find_gaps container sub_ranges = Ok records ->
  in_network x container ->
  (forall s, In s sub_ranges -> overlaps container s = true -> ~ in_network x s) ->
  exists r iv,
    In r records /\ gap r = gap_text iv /\ gap_within container iv
    /\ in_interval x iv.
Proof.
  intros Hc Hcu Hwf Hun H Hx Hfree.
  apply find_gaps_Ok_gaps in H as (gaps & Hgaps & Hrec).
  apply space_gaps_Ok_of in Hgaps; auto. subst gaps.
  destruct (space_gaps_of_complete container sub_ranges x Hx Hfree)
    as (iv & Hin & Hiv).
  destruct (space_gaps_of_structure container sub_ranges Hc Hcu Hwf Hun) as [Hall _].
  rewrite Forall_forall in Hall. pose proof (Hall iv Hin) as Hw.
  clear -Hrec Hin Hiv Hw. induction Hrec as [|iv' r gaps records Hr Hrec IH].
  - destruct Hin.
  - destruct Hin as [->|Hin].
    + exists r, iv. split; [left; reflexivity | auto].
    + destruct (IH Hin) as (r' & iv'' & Hr' & Hg & Hi).
      exists r', iv''. split; [right; exact Hr' | auto].
Qed.

Example free_address_is_reported_example :
  exists r iv,
    In r [GapRecord "10.0.0.64 - 10.0.0.255"
            [Cidr "10.0.0.64/26"; Cidr "10.0.0.128/25"]]
    /\ gap r = gap_text iv
    /\ gap_within (Network (Address IPv4 167772160 None) 24) iv
    /\ in_interval 167772360 iv.
Proof.
  apply (free_address_is_reported
           (Network (Address IPv4 167772160 None) 24)
           [Network (Address IPv4 167772160 None) 25;
            Network (Address IPv4 167772160 None) 26]).
  - reflexivity.
  - reflexivity.
  - repeat constructor.
  - repeat constructor.
  - vm_compute. reflexivity.
  - unfold in_network. vm_compute. split; discriminate.
  - intros s [<-|[<-|[]]] _; unfold in_network; vm_compute;
      intros [H1 H2]; [apply H2 | apply H2]; reflexivity.
Defined.

(** The intervals of the records, for a container without zone identifier
    and sub-ranges of which those that overlap it carry none, overlapping
    one another or not: each lies within the container, with its first
    address not above its last; they come in ascending order, and at least
    one address lies between one and the next. *)
Theorem gaps_ascend_within (container : network) (sub_ranges : list network)
  (records : list gap_record) :
  wf_network container -> unscoped container ->
  Forall wf_network sub_ranges ->
  Forall unscoped (filter (fun s => overlaps container s) sub_ranges) ->
  find_gaps container sub_ranges = Ok records ->
  exists gaps,
    Forall2 (fun iv r => gap r = gap_text iv) gaps records
    /\ Forall (gap_within container) gaps
    /\ ForallOrdPairs separated gaps.
Proof.
  intros Hc Hcu Hwf Hun H.
  apply find_gaps_Ok_gaps in H as (gaps & Hgaps & Hrec).
  apply space_gaps_Ok_of in Hgaps; auto. subst gaps.
  exists (space_gaps_of container sub_ranges). split; [exact Hrec|].
  apply space_gaps_of_structure; assumption.
Qed.

Example gaps_ascend_within_example :
  exists gaps,
    Forall2 (fun iv r => gap r = gap_text iv) gaps
      [GapRecord "10.0.0.64 - 10.0.0.127" [Cidr "10.0.0.64/26"];
       GapRecord "10.0.0.192 - 10.0.0.255" [Cidr "10.0.0.192/26"]]
    /\ Forall (gap_within (Network (Address IPv4 167772160 None) 24)) gaps
    /\ ForallOrdPairs separated gaps.
Proof.
  apply (gaps_ascend_within
           (Network (Address IPv4 167772160 None) 24)
           [Network (Address IPv4 167772160 None) 26;
            Network (Address IPv4 167772288 None) 26]).
  - reflexivity.
  - reflexivity.
  - repeat constructor.
  - repeat constructor.
  - vm_compute. reflexivity.
Defined.

(** One turn of the sweep adds one gap at most, whatever the networks
    are. *)
Lemma sweep_step_length st s st' :
  sweep_step st s = Ok st' ->
  (List.length (snd st') <= S (List.length (snd st)))%nat.
Proof.
  destruct st as [cursor gaps]. unfold sweep_step. intros H.
  apply bind_Ok in H as (gt & _ & H). apply bind_Ok in H as (g1 & Hg1 & H).
  apply bind_Ok in H as (c1 & _ & H). injection H as <-. cbn [snd].
  destruct gt.
  - apply bind_Ok in Hg1 as (before & _ & Hg1). injection Hg1 as <-.
    rewrite length_app. cbn [List.length]. rewrite Nat.add_1_r. apply le_n.
  - injection Hg1 as <-. apply le_S, le_n.
Qed.

Lemma sweep_length l : forall st st',
  sweep st l = Ok st' ->
  (List.length (snd st') <= List.length (snd st) + List.length l)%nat.
Proof.
  induction l as [|s l IH]; intros st st' H; cbn [sweep] in H.
  - injection H as <-. apply Nat.le_add_r.
  - apply bind_Ok in H as (st1 & Hstep & H).
    apply sweep_step_length in Hstep. apply IH in H.
    cbn [List.length]. lia.
Qed.

(** There is at most one record for each sub-range that overlaps the
    container, and one more, whatever the container and the sub-ranges
    are. *)
Theorem gap_records_count (container : network) (sub_ranges : list network)
  (records : list gap_record) :
  find_gaps container sub_ranges = Ok records ->
  (List.length records
   <= S (List.length (filter (fun s => overlaps container s) sub_ranges)))%nat.
Proof.
  intros H.
  apply find_gaps_Ok_gaps in H as (gaps & Hgaps & Hrec).
  rewrite <- (Forall2_length Hrec). unfold space_gaps in Hgaps.
  apply bind_Ok in Hgaps as ([cursor g1] & Hsweep & Hgaps).
  apply bind_Ok in Hgaps as (le & _ & Hgaps).
  apply sweep_length in Hsweep. rewrite sort_length in Hsweep.
  cbn [snd List.length Nat.add] in Hsweep.
  destruct le; injection Hgaps as <-.
  - rewrite length_app. cbn [List.length]. rewrite Nat.add_1_r.
    apply le_n_S. exact Hsweep.
  - apply le_S. exact Hsweep.
Qed.

Example gap_records_count_example :
  (List.length
     [GapRecord "10.0.0.64 - 10.0.0.127" [Cidr "10.0.0.64/26"];
      GapRecord "10.0.0.192 - 10.0.0.255" [Cidr "10.0.0.192/26"]]
   <= S (List.length
           (filter (fun s => overlaps (Network (Address IPv4 167772160 None) 24) s)
              [Network (Address IPv4 167772160 None) 26;
               Network (Address IPv4 167772288 None) 26])))%nat.
Proof.
  apply (gap_records_count
           (Network (Address IPv4 167772160 None) 24)
           [Network (Address IPv4 167772160 None) 26;
            Network (Address IPv4 167772288 None) 26]).
  vm_compute. reflexivity.
Defined.

(** ** The gap finder on one address space, whatever the sub-ranges *)

Lemma wf_address_unscoped (a : address) :
  0 <= addr_ip a <= ALL_ONES (addr_version a) -> addr_scope_id a = None ->
  wf_address a.
Proof.
  destruct a as [v n s]. cbn [addr_ip addr_version addr_scope_id].
  intros H ->. apply wf_address_intro; auto.
Qed.

(** The gaps within an address space whose addresses keep their family all
    have a record. *)
Lemma gap_records_within c gaps :
  wf_network c -> keeps_family c -> Forall (gap_within c) gaps ->
  exists records,
    mapM gap_record_of (map gap_text gaps) = Ok records
    /\ Forall2 (summarized_gap (net_version c)) gaps records.
Proof.
  intros Hc Hk Hin.
  destruct (wf_network_range c Hc) as (_ & Hfirst & Hlast).
  rewrite <- (last_int_eq c Hc) in Hlast.
  induction Hin as [|iv gaps (H1 & H2 & H3 & H4 & H5 & H6 & H7) _ (records & Hm & Hrec)].
  - exists []. split; [reflexivity | constructor].
  - destruct (gap_record_of_gap (net_version c) iv) as (r & Hr & Hsum); auto.
    + apply wf_address_unscoped; [rewrite H1; lia | exact H3].
    + apply wf_address_unscoped; [rewrite H2; lia | exact H4].
    + destruct Hk as [Hk|Hk]; [left; exact Hk | right; lia].
    + exists (r :: records). cbn [map mapM]. rewrite Hr, Hm. cbn [bind].
      split; [reflexivity | constructor; assumption].
Qed.

Lemma space_gaps_of_records c subs :
  wf_network c -> unscoped c -> keeps_family c ->
  Forall wf_network subs ->
  Forall unscoped (filter (fun s => overlaps c s) subs) ->
  exists records,
    mapM gap_record_of (map gap_text (space_gaps_of c subs)) = Ok records
    /\ Forall2 (summarized_gap (net_version c)) (space_gaps_of c subs) records.
Proof.
  intros Hc Hcu Hk Hwf Hun. apply gap_records_within; auto.
  apply space_gaps_of_structure; assumption.
Qed.

(** When the gap finder raises on an address space of either family,
    without zone identifier as the sub-ranges that overlap it, and, for
    IPv6, starting at 2^32 or above: exactly when a sub-range that overlaps
    the space ends at the last address of the family, 255.255.255.255 for
    IPv4, the address after which the cursor cannot be put.  What is raised
    is the [AddressValueError] of the address constructor. *)
Theorem find_gaps_raises (container : network) (sub_ranges : list network) :
  wf_network container -> unscoped container -> keeps_family container ->
  Forall wf_network sub_ranges ->
  Forall unscoped (filter (fun s => overlaps container s) sub_ranges) ->
  ((exists e, find_gaps container sub_ranges = Raise e)
   <-> Exists (fun s => overlaps container s = true
                        /\ last_int s = ALL_ONES (net_version container))
         sub_ranges)
  /\ forall e, find_gaps container sub_ranges = Raise e ->
               exn_cls e = AddressValueError.
Proof.
  intros Hc Hcu Hk Hwf Hun.
  unfold find_gaps, vnet_gaps. cbn [all_space_gaps].
  destruct (space_gaps_result container sub_ranges Hc Hcu Hwf Hun)
    as [[Hall Hok]|[Hex (e & He & Hcls)]].
  - rewrite Hok. cbn [bind].
    destruct (space_gaps_of_records container sub_ranges Hc Hcu Hk Hwf Hun)
      as (records & Hm & _).
    rewrite Hm. split; [|discriminate]. split.
    + intros (e & He). discriminate.
    + intros Hex. exfalso. apply Exists_exists in Hex as (s & Hs & Ho & Hmax).
      rewrite Forall_forall in Hall.
      specialize (Hall s (proj2 (filter_In _ _ _) (conj Hs Ho))). lia.
  - rewrite He. cbn [bind]. split.
    + split; [|intros _; exists e; reflexivity].
      intros _. apply Exists_exists in Hex as (s & Hs & Hmax).
      apply filter_In in Hs as [Hs Ho]. apply Exists_exists.
      exists s. auto.
    + intros e' H. injection H as <-. exact Hcls.
Qed.

Example find_gaps_raises_example :
  ((exists e, find_gaps (Network (Address IPv4 4294967040 None) 24)
                [Network (Address IPv4 4294967168 None) 25] = Raise e)
   <-> Exists (fun s => overlaps (Network (Address IPv4 4294967040 None) 24) s = true
                        /\ last_int s
                           = ALL_ONES (net_version
                                         (Network (Address IPv4 4294967040 None) 24)))
         [Network (Address IPv4 4294967168 None) 25])
  /\ forall e, find_gaps (Network (Address IPv4 4294967040 None) 24)
                 [Network (Address IPv4 4294967168 None) 25] = Raise e ->
               exn_cls e = AddressValueError.
Proof.
  apply (find_gaps_raises
           (Network (Address IPv4 4294967040 None) 24)
           [Network (Address IPv4 4294967168 None) 25]).
  - reflexivity.
  - reflexivity.
  - left. reflexivity.
  - repeat constructor.
  - repeat constructor.
Defined.

(** On an address space of either family, whatever the sub-ranges are
    (the space and the sub-ranges that overlap it without zone identifier,
    an IPv6 space starting at 2^32 or above): when the gap finder returns,
    its records are those of the gaps of the sweep, one for one, and the
    CIDR blocks of each record are blocks of the family of the space that
    cover exactly the interval of that record, in ascending order, with no
    two neighbours that could be merged. *)
Theorem find_gaps_blocks (container : network) (sub_ranges : list network)
  (records : list gap_record) :
  wf_network container -> unscoped container -> keeps_family container ->
  Forall wf_network sub_ranges ->
  Forall unscoped (filter (fun s => overlaps container s) sub_ranges) ->
  find_gaps container sub_ranges = Ok records ->
  exists gaps,
    all_space_gaps sub_ranges [] [container] = Ok gaps
    /\ Forall2 (summarized_gap (net_version container)) gaps records.
Proof.
  intros Hc Hcu Hk Hwf Hun H.
  unfold find_gaps, vnet_gaps in H. cbn [all_space_gaps] in *.
  destruct (space_gaps_result container sub_ranges Hc Hcu Hwf Hun)
    as [[Hall Hok]|[Hex (e & He & Hcls)]].
  - rewrite Hok in *. cbn [bind] in *.
    destruct (space_gaps_of_records container sub_ranges Hc Hcu Hk Hwf Hun)
      as (records' & Hm & Hrec).
    rewrite Hm in H. injection H as <-.
    exists (space_gaps_of container sub_ranges). auto.
  - rewrite He in H. discriminate.
Qed.

Example find_gaps_blocks_example :
  exists gaps,
    all_space_gaps
      [Network (Address IPv6 42540766411282592856903984951653826560 None) 49;
       Network (Address IPv6 42540766411282592856903984951653826560 None) 50] []
      [Network (Address IPv6 42540766411282592856903984951653826560 None) 48]
    = Ok gaps
    /\ Forall2
         (summarized_gap
            (net_version
               (Network (Address IPv6 42540766411282592856903984951653826560 None) 48)))
         gaps
         [GapRecord "2001:db8:0:4000:: - 2001:db8:0:ffff:ffff:ffff:ffff:ffff"
            [Cidr "2001:db8:0:4000::/50"; Cidr "2001:db8:0:8000::/49"]].
Proof.
  apply (find_gaps_blocks
           (Network (Address IPv6 42540766411282592856903984951653826560 None) 48)
           [Network (Address IPv6 42540766411282592856903984951653826560 None) 49;
            Network (Address IPv6 42540766411282592856903984951653826560 None) 50]).
  - reflexivity.
  - reflexivity.
  - right. reflexivity.
  - repeat constructor.
  - repeat constructor.
  - vm_compute. reflexivity.
Defined.

(** An address space that no sub-range overlaps, the list of sub-ranges
    being empty for one, is one gap: the record holds the first and the
    last address of the space, and the one block of the space itself.  The
    space is of either family and has no zone identifier; an IPv6 space
    starts at 2^32 or above. *)
Theorem find_gaps_no_sub_range (container : network) (sub_ranges : list network) :
  wf_network container -> unscoped container -> keeps_family container ->
  Forall (fun s => overlaps container s = false) sub_ranges ->
  find_gaps container sub_ranges
  = Ok [GapRecord (gap_text (network_address container, broadcast_address container))
          [Cidr (str_network container)]].
Proof.
  intros Hc Hcu Hk Hnone.
  assert (Hfilter : filter (fun s => overlaps container s) sub_ranges = []).
  { induction Hnone as [|s l Hs Hl IH]; simpl; [reflexivity|].
    rewrite Hs. exact IH. }
  pose proof (wf_first_le_last container Hc) as Hfl.
  destruct (wf_network_facts container Hc) as (Ha & _ & _).
  unfold find_gaps, vnet_gaps. cbn [all_space_gaps]. unfold space_gaps.
  rewrite Hfilter. cbn [sort_by_network_address sweep bind].
  unfold addr_le, addr_lt. rewrite version_eqb_refl. cbn [negb bind].
  rewrite addr_eq_unscoped by (auto; reflexivity).
  fold (first_int container) (last_int container).
  replace ((first_int container <? last_int container)
           || (first_int container =? last_int container))%bool with true.
  2:{ destruct (Z.ltb_spec (first_int container) (last_int container)),
        (Z.eqb_spec (first_int container) (last_int container));
        simpl; try reflexivity; lia. }
  cbn [bind app map mapM]. unfold gap_record_of.
  rewrite (split_gap_text (network_address container, broadcast_address container)
             Hcu eq_refl).
  cbn [fst snd]. unfold ip_range_to_cidr.
  rewrite (ip_address_of_str_text _ Ha Hcu).
  rewrite (ip_address_of_str_text _ (wf_broadcast container Hc) eq_refl).
  cbn [bind]. fold (first_int container) (last_int container).
  destruct (Z.gtb_spec (first_int container) (last_int container)); [lia|].
  rewrite (summarize_network_ints container Hc Hcu Hk). reflexivity.
Qed.

Example find_gaps_no_sub_range_example :
  find_gaps (Network (Address IPv4 167772160 None) 24) []
  = Ok [GapRecord "10.0.0.0 - 10.0.0.255" [Cidr "10.0.0.0/24"]].
Proof.
  apply (find_gaps_no_sub_range (Network (Address IPv4 167772160 None) 24) []).
  - reflexivity.
  - reflexivity.
  - left. reflexivity.
  - constructor.
Defined.

(** ** Several address spaces, several virtual networks *)

Lemma sweep_step_app cursor g0 g s :
  sweep_step (cursor, (g0 ++ g)%list) s
  = match sweep_step (cursor, g) s with
    | Ok (c', g') => Ok (c', (g0 ++ g')%list)
    | Raise e => Raise e
    end.
Proof.
  unfold sweep_step.
  destruct (addr_gt (network_address s) cursor) as [[|]|e]; cbn [bind];
    [|destruct (addr_add _ _); reflexivity | reflexivity].
  destruct (addr_sub _ _) as [before|e]; cbn [bind]; [|reflexivity].
  destruct (addr_add _ _); cbn [bind]; [|reflexivity].
  rewrite app_assoc. reflexivity.
Qed.

Lemma sweep_app l : forall cursor g0 g,
  sweep (cursor, (g0 ++ g)%list) l
  = match sweep (cursor, g) l with
    | Ok (c', g') => Ok (c', (g0 ++ g')%list)
    | Raise e => Raise e
    end.
Proof.
  induction l as [|s l IH]; intros cursor g0 g; cbn [sweep]; [reflexivity|].
  rewrite sweep_step_app.
  destruct (sweep_step (cursor, g) s) as [[c1 g1]|e]; cbn [bind]; [|reflexivity].
  apply IH.
Qed.

(** [space_gaps] appends to the gaps it is given, and looks at nothing of
    them. *)
Lemma space_gaps_app subs g0 c :
  space_gaps subs g0 c
  = match space_gaps subs [] c with
    | Ok g => Ok (g0 ++ g)%list
    | Raise e => Raise e
    end.
Proof.
  unfold space_gaps. rewrite <- (app_nil_r g0) at 1. rewrite sweep_app.
  destruct (sweep _ _) as [[cursor g]|e]; cbn [bind]; [|reflexivity].
  destruct (addr_le _ _) as [[|]|e]; cbn [bind]; try reflexivity.
  rewrite app_assoc. reflexivity.
Qed.

Lemma all_space_gaps_concat subs spaces : forall g0 out,
  all_space_gaps subs g0 spaces = Ok out
  <-> exists gs, Forall2 (fun c g => space_gaps subs [] c = Ok g) spaces gs
                 /\ out = (g0 ++ List.concat gs)%list.
Proof.
  induction spaces as [|c spaces IH]; intros g0 out; cbn [all_space_gaps].
  - split.
    + intros H. injection H as <-. exists []. split; [constructor|].
      simpl. rewrite app_nil_r. reflexivity.
    + intros (gs & Hgs & ->). inversion Hgs; subst. simpl.
      rewrite app_nil_r. reflexivity.
  - rewrite space_gaps_app. split.
    + intros H. destruct (space_gaps subs [] c) as [g|e] eqn:E; [|discriminate].
      cbn [bind] in H. apply IH in H as (gs & Hgs & ->).
      exists (g :: gs). split; [constructor; assumption|].
      simpl. rewrite app_assoc. reflexivity.
    + intros (gs & Hgs & ->). inversion Hgs as [|? g ? gs' Hg Hgs']; subst.
      rewrite Hg. cbn [bind]. apply IH. exists gs'. split; [exact Hgs'|].
      simpl. rewrite app_assoc. reflexivity.
Qed.

Lemma mapM_app {A B : Type} (f : A -> result B) (a b : list A) (r : list B) :
  mapM f (a ++ b) = Ok r
  <-> exists ra rb, mapM f a = Ok ra /\ mapM f b = Ok rb /\ r = (ra ++ rb)%list.
Proof.
  revert r. induction a as [|x a IH]; intros r; simpl.
  - split.
    + intros H. exists [], r. auto.
    + intros (ra & rb & Ha & Hb & ->). injection Ha as <-. exact Hb.
  - destruct (f x) as [y|e]; cbn [bind].
    + split.
      * intros H. destruct (mapM f (a ++ b)) as [ys|e] eqn:E; [|discriminate].
        cbn [bind] in H. injection H as <-.
        destruct (proj1 (IH ys) eq_refl) as (ra & rb & Ha & Hb & ->).
        exists (y :: ra), rb. rewrite Ha. auto.
      * intros (ra & rb & Ha & Hb & ->).
        destruct (mapM f a) as [ys|e]; [|discriminate].
        cbn [bind] in Ha. injection Ha as <-.
        rewrite (proj2 (IH (ys ++ rb)%list)); [reflexivity|].
        exists ys, rb. auto.
    + split; [discriminate | intros (ra & rb & Ha & _); discriminate].
Qed.

Lemma mapM_concat {A B : Type} (f : A -> result B) (ls : list (list A))
  (r : list B) :
  mapM f (List.concat ls) = Ok r
  <-> exists rs, Forall2 (fun l rl => mapM f l = Ok rl) ls rs /\ r = List.concat rs.
Proof.
  revert r. induction ls as [|l ls IH]; intros r; simpl.
  - split.
    + intros H. injection H as <-. exists []. split; [constructor | reflexivity].
    + intros (rs & Hrs & ->). inversion Hrs; subst. reflexivity.
  - rewrite mapM_app. split.
    + intros (ra & rb & Ha & Hb & ->). apply IH in Hb as (rs & Hrs & ->).
      exists (ra :: rs). split; [constructor; assumption | reflexivity].
    + intros (rs & Hrs & ->). inversion Hrs as [|? ra ? rs' Ha Hrs']; subst.
      exists ra, (List.concat rs'). split; [exact Ha|]. split; [|reflexivity].
      apply IH. exists rs'. auto.
Qed.

(** The address spaces of a virtual network are swept one by one, each as
    if it were the only one: the records of the network are the records of
    its address spaces, one list after the other in the order of the
    address prefixes, and the network has records exactly when each of its
    address spaces has. *)
Theorem vnet_gaps_concat (address_spaces sub_ranges : list network)
  (records : list gap_record) :
  vnet_gaps address_spaces sub_ranges = Ok records
  <-> exists rs,
        Forall2 (fun c r => find_gaps c sub_ranges = Ok r) address_spaces rs
        /\ records = List.concat rs.
Proof.
  unfold vnet_gaps. split.
  - intros H. apply bind_Ok in H as (gaps & Hgaps & H).
    apply all_space_gaps_concat in Hgaps as (gs & Hgs & ->).
    cbn [app] in H. rewrite concat_map in H.
    apply mapM_concat in H as (rs & Hrs & ->).
    exists rs. split; [|reflexivity].
    clear -Hgs Hrs. revert rs Hrs.
    induction Hgs as [|c g spaces gs Hg Hgs IH]; intros rs Hrs;
      inversion Hrs; subst; constructor; auto.
    unfold find_gaps, vnet_gaps. cbn [all_space_gaps]. rewrite Hg.
    cbn [bind]. assumption.
  - intros (rs & Hrs & ->).
    assert (H : exists gs,
               Forall2 (fun c g => space_gaps sub_ranges [] c = Ok g) address_spaces gs
               /\ Forall2 (fun l rl => mapM gap_record_of l = Ok rl)
                    (map (map gap_text) gs) rs).
    { clear -Hrs. induction Hrs as [|c r spaces rs Hr Hrs (gs & Hgs & Hm)].
      - exists []. split; constructor.
      - unfold find_gaps, vnet_gaps in Hr. cbn [all_space_gaps] in Hr.
        destruct (space_gaps sub_ranges [] c) as [g|e] eqn:E; [|discriminate].
        cbn [bind] in Hr. exists (g :: gs).
        split; constructor; assumption. }
    destruct H as (gs & Hgs & Hm).
    rewrite (proj2 (all_space_gaps_concat sub_ranges address_spaces [] (List.concat gs)))
      by (exists gs; auto).
    cbn [bind]. rewrite concat_map. apply mapM_concat. exists rs. auto.
Qed.

Lemma mapM_Raise_In {A B : Type} (f : A -> result B) (l : list A) (x : A) (e : exn) :
  In x l -> f x = Raise e -> exists e', mapM f l = Raise e'.
Proof.
  induction l as [|y l IH]; intros Hin Hx; [destruct Hin|]. simpl.
  destruct Hin as [->|Hin].
  - rewrite Hx. eexists. reflexivity.
  - destruct (f y); cbn [bind]; [|eexists; reflexivity].
    destruct (IH Hin Hx) as (e' & ->). eexists. reflexivity.
Qed.

(** One text that [ip_network] rejects, among the address prefixes or the
    subnet prefixes of any one virtual network of the list, and
    [find_vnet_gaps] raises: no virtual network gets its gaps. *)
Theorem find_vnet_gaps_rejected_prefix (vnets : list vnet) (v : vnet)
  (text : string) (e : exn) :
  In v vnets ->
  In text (get_or_empty (address_prefixes v))
  \/ In text (flat_map (fun s => get_or_empty (subnet_address_prefixes s))
                (get_or_empty (subnets v))) ->
  ip_network text false = Raise e ->
  exists e', find_vnet_gaps vnets = Raise e'.
Proof.
  intros Hv Hin He. unfold find_vnet_gaps.
  assert (Hone : exists e1, find_gaps_of_vnet v = Raise e1).
  { unfold find_gaps_of_vnet. destruct Hin as [Hin|Hin].
    - destruct (mapM_Raise_In (fun cidr => ip_network cidr false) _ _ _ Hin He)
        as (e1 & ->).
      eexists. reflexivity.
    - destruct (mapM (fun cidr => ip_network cidr false)
                  (get_or_empty (address_prefixes v)));
        cbn [bind]; [|eexists; reflexivity].
      destruct (mapM_Raise_In (fun cidr => ip_network cidr false) _ _ _ Hin He)
        as (e1 & ->).
      eexists. reflexivity. }
  destruct Hone as (e1 & He1).
  exact (mapM_Raise_In find_gaps_of_vnet vnets v e1 Hv He1).
Qed.

Example find_vnet_gaps_rejected_prefix_example :
  exists e',
    find_vnet_gaps
      [Vnet "vnet-a" "westeurope" (Some ["10.0.0.0/24"]) 256 (Some []) [];
       Vnet "vnet-b" "westeurope" (Some ["10.1.0.0/16"]) 65536
         (Some [Subnet "front" (Some ["10.1.0.0/33"]) 0]) []]
    = Raise e'.
Proof.
  apply (find_vnet_gaps_rejected_prefix _
           (Vnet "vnet-b" "westeurope" (Some ["10.1.0.0/16"]) 65536
              (Some [Subnet "front" (Some ["10.1.0.0/33"]) 0]) [])
           "10.1.0.0/33"
           (Exn ValueError
              (MsgRepr "" "10.1.0.0/33"
                 " does not appear to be an IPv4 or IPv6 network"))).
  - right. left. reflexivity.
  - right. left. reflexivity.
  - vm_compute. reflexivity.
Defined.

Lemma find_gaps_of_vnet_again (v o : vnet) :
  find_gaps_of_vnet v = Ok o ->
  o = Vnet (vnet_name v) (vnet_location v) (address_prefixes v) (address_count v)
        (subnets v) (gaps o)
  /\ find_gaps_of_vnet o = Ok o.
Proof.
  unfold find_gaps_of_vnet. intros H.
  apply bind_Ok in H as (spaces & Hspaces & H).
  apply bind_Ok in H as (subs & Hsubs & H).
  apply bind_Ok in H as (records & Hrecords & H). injection H as <-.
  cbn [vnet_name vnet_location address_prefixes address_count subnets gaps].
  split; [reflexivity|]. rewrite Hspaces. cbn [bind]. rewrite Hsubs. cbn [bind].
  rewrite Hrecords. reflexivity.
Qed.

(** What [find_vnet_gaps] returns is the list it was given, virtual network
    by virtual network, with nothing changed but the gaps; the gaps that
    were there are not read, so that the function applied to its own result
    returns that result. *)
Theorem find_vnet_gaps_again (vnets out : list vnet) :
  find_vnet_gaps vnets = Ok out ->
  Forall2 (fun v o =>
             o = Vnet (vnet_name v) (vnet_location v) (address_prefixes v)
                   (address_count v) (subnets v) (gaps o)) vnets out
  /\ find_vnet_gaps out = Ok out.
Proof.
  unfold find_vnet_gaps. intros H. apply mapM_Ok in H.
  induction H as [|v o vnets out Hv H [IH1 IH2]].
  - split; [constructor | reflexivity].
  - apply find_gaps_of_vnet_again in Hv as [Hkeep Hagain].
    split; [constructor; assumption|].
    cbn [mapM]. rewrite Hagain. cbn [bind]. rewrite IH2. reflexivity.
Qed.

Example find_vnet_gaps_again_example :
  Forall2 (fun v o =>
             o = Vnet (vnet_name v) (vnet_location v) (address_prefixes v)
                   (address_count v) (subnets v) (gaps o))
    [Vnet "vnet-a" "westeurope" (Some ["10.0.0.0/24"]) 256
       (Some [Subnet "front" (Some ["10.0.0.0/26"]) 64;
              Subnet "back" (Some ["10.0.0.128/26"]) 64]) []]
    [Vnet "vnet-a" "westeurope" (Some ["10.0.0.0/24"]) 256
       (Some [Subnet "front" (Some ["10.0.0.0/26"]) 64;
              Subnet "back" (Some ["10.0.0.128/26"]) 64])
       [GapRecord "10.0.0.64 - 10.0.0.127" [Cidr "10.0.0.64/26"];
        GapRecord "10.0.0.192 - 10.0.0.255" [Cidr "10.0.0.192/26"]]]
  /\ find_vnet_gaps
       [Vnet "vnet-a" "westeurope" (Some ["10.0.0.0/24"]) 256
          (Some [Subnet "front" (Some ["10.0.0.0/26"]) 64;
                 Subnet "back" (Some ["10.0.0.128/26"]) 64])
          [GapRecord "10.0.0.64 - 10.0.0.127" [Cidr "10.0.0.64/26"];
           GapRecord "10.0.0.192 - 10.0.0.255" [Cidr "10.0.0.192/26"]]]
     = Ok [Vnet "vnet-a" "westeurope" (Some ["10.0.0.0/24"]) 256
             (Some [Subnet "front" (Some ["10.0.0.0/26"]) 64;
                    Subnet "back" (Some ["10.0.0.128/26"]) 64])
             [GapRecord "10.0.0.64 - 10.0.0.127" [Cidr "10.0.0.64/26"];
              GapRecord "10.0.0.192 - 10.0.0.255" [Cidr "10.0.0.192/26"]]].
Proof.
  apply (find_vnet_gaps_again
           [Vnet "vnet-a" "westeurope" (Some ["10.0.0.0/24"]) 256
              (Some [Subnet "front" (Some ["10.0.0.0/26"]) 64;
                     Subnet "back" (Some ["10.0.0.128/26"]) 64]) []]).
  vm_compute. reflexivity.
Defined.

(** ** Counting the addresses of the gaps *)

(** Two CIDR blocks that share an address are nested: the one with the
    longer prefix lies inside the other.  So a subnet that the gap finder
    keeps for an address space lies inside the space unless its prefix is
    shorter than that of the space. *)
Lemma overlapping_nested c s :
  wf_network c -> wf_network s -> overlaps c s = true ->
  prefixlen c <= prefixlen s ->
  first_int c <= first_int s /\ last_int s <= last_int c.
Proof.
  intros Hc Hs Ho Hp.
  apply overlaps_spec in Ho as (Hv & H1 & H2); auto.
  rewrite (last_int_eq c Hc), (last_int_eq s Hs) in *.
  destruct (wf_network_facts c Hc) as (_ & _ & Hac).
  destruct (wf_network_facts s Hs) as (_ & _ & Has).
  destruct (wf_network_range c Hc) as (Hhc & _ & _).
  destruct (wf_network_range s Hs) as (Hhs & _ & _).
  assert (Hg : host_bits s <= host_bits c) by (unfold host_bits; rewrite Hv; lia).
  set (u := 2 ^ host_bits s) in *. set (m := 2 ^ (host_bits c - host_bits s)).
  assert (Hu : 0 < u) by (apply Z.pow_pos_nonneg; lia).
  assert (Hm : 0 < m) by (apply Z.pow_pos_nonneg; lia).
  assert (Hpow : 2 ^ host_bits c = u * m).
  { unfold u, m. rewrite <- Z.pow_add_r by lia. f_equal. lia. }
  rewrite Hpow in *.
  apply Z.mod_divide in Hac; [|lia]. destruct Hac as [k Hk].
  apply Z.mod_divide in Has; [|lia]. destruct Has as [j Hj].
  rewrite Hk, Hj in *.
  assert (Hkj : m * k <= j) by nia.
  assert (Hjk : j + 1 <= m * k + m) by nia.
  split; nia.
Qed.






(** ** Network text read back, and counted *)

Lemma prefix_texts_ok (v : version) :
  forall_from (prefix_text_ok v) 0 (Z.to_nat (max_prefixlen v + 1)) = true.
Proof. destruct v; vm_compute; reflexivity. Qed.

Lemma prefix_text_facts (v : version) (p : Z) :
  0 <= p <= max_prefixlen v ->
  make_netmask v (MaskStr (str_int p)) = Ok p
  /\ contains_char "/" (str_int p) = false.
Proof.
  intros Hp.
  pose proof (forall_from_spec _ _ 0 p (prefix_texts_ok v) ltac:(lia)) as H.
  unfold prefix_text_ok in H. apply andb_prop in H as [H1 H2].
  apply negb_true_iff in H2. split; [|exact H2].
  destruct (make_netmask v (MaskStr (str_int p))) as [q|e]; [|discriminate].
  apply Z.eqb_eq in H1. subst q. reflexivity.
Qed.

Lemma IPv4Address_of_str_v4 (n : Z) :
  0 <= n <= ALL_ONES IPv4 ->
  IPv4Address_of_str (string_from_ip_int_v4 n) = Ok (Address IPv4 n None).
Proof.
  intros Hn. pose proof (ip_address_of_str_v4 n Hn) as H.
  unfold ip_address_of_str in H.
  pose proof (IPv4Address_of_str_Ok (string_from_ip_int_v4 n)) as H4.
  pose proof (IPv6Address_of_str_Ok (string_from_ip_int_v4 n)) as H6.
  destruct (IPv4Address_of_str (string_from_ip_int_v4 n)) as [a|e];
    [exact H|]. exfalso.
  cbn [catch_if] in H. destruct (is_Address_or_Netmask e); [|discriminate].
  destruct (IPv6Address_of_str (string_from_ip_int_v4 n)) as [a|e6].
  - injection H as ->. destruct (H6 _ eq_refl) as [_ Hv]. discriminate.
  - cbn [catch_if] in H. destruct (is_Address_or_Netmask e6); discriminate.
Qed.

(** The constructor of the family of an address reads its text back. *)
Lemma address_of_part_text (a : address) :
  wf_address a -> addr_scope_id a = None ->
  address_of_part (addr_version a) (AddrStr (str_address a)) = Ok a.
Proof.
  intros Hwf Hs. pose proof (wf_address_range a Hwf) as Hr.
  rewrite str_address_unscoped by exact Hs.
  destruct a as [v n s]. cbn [addr_version addr_ip addr_scope_id] in *. subst s.
  destruct v; cbn [address_of_part];
    [apply IPv4Address_of_str_v4 | apply IPv6Address_of_str_text]; exact Hr.
Qed.

Lemma split_slash (a m : string) :
  contains_char "/" a = false -> contains_char "/" m = false ->
  split "/" (a ++ "/" ++ m) = [a; m].
Proof.
  intros Ha Hm. unfold split.
  rewrite (split_from_piece_sep "/" "" a m "" Ha).
  rewrite (split_from_piece "/" "" m "" Hm). reflexivity.
Qed.

(** The constructor of the family of an address on the text of the address,
    a slash and a prefix length of the family. *)
Lemma network_init_cidr (a : address) (p : Z) (strict : bool) :
  wf_address a -> addr_scope_id a = None ->
  0 <= p <= max_prefixlen (addr_version a) ->
  network_init (addr_version a)
    (FromStr (str_address a ++ "/" ++ str_int p)%string) strict
  = if addr_ip a mod 2 ^ (max_prefixlen (addr_version a) - p) =? 0
    then Ok (Network a p)
    else if strict then
      Raise (Exn ValueError
               (Msg (str_network (Network a p) ++ " has host bits set")))
    else Ok (Network
               (Address (addr_version a)
                  (addr_ip a - addr_ip a mod 2 ^ (max_prefixlen (addr_version a) - p))
                  None) p).
Proof.
  intros Ha Hs Hp. pose proof (wf_address_range a Ha) as Hr.
  destruct (prefix_text_facts (addr_version a) p Hp) as [Hparse Hslash].
  pose proof (str_address_chars a "/" Hs ltac:(simpl; auto)) as Hslash_a.
  unfold network_init, split_addr_prefix, split_optional_netmask.
  rewrite !(split_slash _ _ Hslash_a Hslash).
  cbn [List.length]. change (Z.of_nat 2 >? 2) with false.
  cbn [bind]. rewrite (address_of_part_text a Ha Hs). cbn [bind].
  rewrite Hparse. cbn [bind].
  rewrite land_netmask by assumption.
  set (h := max_prefixlen (addr_version a) - p).
  assert (Hpos : 0 < 2 ^ h) by (apply Z.pow_pos_nonneg; unfold h; lia).
  pose proof (Z.mod_pos_bound (addr_ip a) (2 ^ h) Hpos) as Hmod.
  pose proof (Z.mod_le (addr_ip a) (2 ^ h) ltac:(lia) Hpos) as Hmle.
  destruct (Z.eqb_spec (addr_ip a mod 2 ^ h) 0) as [E|E].
  - rewrite E, Z.sub_0_r, Z.eqb_refl. reflexivity.
  - destruct (Z.eqb_spec (addr_ip a - addr_ip a mod 2 ^ h) (addr_ip a)) as [E'|E'];
      [lia|].
    cbn [negb]. destruct strict; [reflexivity|].
    rewrite address_of_int_in_range by lia. reflexivity.
Qed.

(** [ip_network] on such a text: the constructor of the family of the
    address decides, the IPv4 constructor having refused the text of an
    IPv6 address. *)
Lemma ip_network_cidr (a : address) (p : Z) (strict : bool) :
  wf_address a -> addr_scope_id a = None ->
  0 <= p <= max_prefixlen (addr_version a) ->
  ip_network (str_address a ++ "/" ++ str_int p)%string strict
  = network_init (addr_version a)
      (FromStr (str_address a ++ "/" ++ str_int p)%string) strict.
Proof.
  intros Ha Hs Hp. pose proof (network_init_cidr a p strict Ha Hs Hp) as Hinit.
  assert (Hpass : forall r : result network,
            r = network_init (addr_version a)
                  (FromStr (str_address a ++ "/" ++ str_int p)%string) strict ->
            forall handler, catch_if is_Address_or_Netmask r handler = r).
  { intros r -> handler. rewrite Hinit.
    destruct (_ =? 0); [reflexivity|]. destruct strict; reflexivity. }
  unfold ip_network. destruct (addr_version a) eqn:Hv.
  - apply Hpass. reflexivity.
  - assert (H4 : exists e,
              network_init IPv4 (FromStr (str_address a ++ "/" ++ str_int p)%string)
                strict = Raise e /\ is_Address_or_Netmask e = true).
    { destruct (prefix_text_facts IPv6 p Hp) as [_ Hslash].
      pose proof (str_address_chars a "/" Hs ltac:(simpl; auto)) as Hslash_a.
      destruct (IPv4Address_of_str_no_dot (str_address a)) as (e & He & Hcls).
      { rewrite str_address_unscoped, Hv by exact Hs.
        apply string_from_ip_int_v6_chars. simpl. auto. }
      exists e. split; [|exact Hcls].
      unfold network_init, split_addr_prefix, split_optional_netmask.
      rewrite !(split_slash _ _ Hslash_a Hslash).
      cbn [List.length]. change (Z.of_nat 2 >? 2) with false.
      cbn [bind address_of_part]. rewrite He. reflexivity. }
    destruct H4 as (e & -> & He). cbn [catch_if]. rewrite He.
    rewrite Hpass by reflexivity. reflexivity.
Qed.

(** The text [str(n)] of a network without zone identifier reads back as
    the network, with the strict parser and with the other. *)
Lemma ip_network_str_network (n : network) (strict : bool) :
  wf_network n -> unscoped n ->
  ip_network (str_network n) strict = Ok n.
Proof.
  intros Hn Hu. destruct (wf_network_facts n Hn) as (Ha & Hp & Hal).
  unfold str_network.
  rewrite (ip_network_cidr (network_address n) (prefixlen n) strict Ha Hu Hp).
  rewrite (network_init_cidr (network_address n) (prefixlen n) strict Ha Hu Hp).
  unfold host_bits, first_int, net_version in Hal. rewrite Hal.
  destruct n. reflexivity.
Qed.

(** The text of a network of either family, as [ip_range_to_cidr] writes
    it into the records, is a text the address counter accepts, and counts
    as that network. *)
Theorem count_ip_addresses_str_network (n : network) :
  wf_network n -> unscoped n ->
  count_ip_addresses (str_network n)
  = ([], Ok (2 ^ (max_prefixlen (net_version n) - prefixlen n))).
Proof.
  intros Hn Hu. unfold count_ip_addresses.
  rewrite (ip_network_str_network n true Hn Hu).
  rewrite (num_addresses_eq n Hn). reflexivity.
Qed.

Example count_ip_addresses_str_network_example :
  count_ip_addresses "2001:db8:0:8000::/49" = ([], Ok (2 ^ 79)).
Proof.
  change (count_ip_addresses
            (str_network
               (Network (Address IPv6 42540766411283197319813792266241179648 None) 49))
          = ([], Ok (2 ^ (max_prefixlen IPv6 - 49)))).
  apply (count_ip_addresses_str_network
           (Network (Address IPv6 42540766411283197319813792266241179648 None) 49));
    reflexivity.
Defined.

(** *** The address counter on every string *)

(** C9.  The address counter is total on strings: for every string it
    returns an integer that is not negative and never raises.  The integer
    is two to the power (width - prefix length) when the string is a valid
    strict CIDR, and 0 otherwise.  The strict [ip_network] decides which
    strings are valid; the texts ["address/length"] of the specification
    are pinned: for an address of either family and a prefix length of the
    family, the count is two to the power (width - length) when no host bit
    of the address is set, and 0 when one is. *)
Theorem count_ip_addresses_total (cidr : string) :
  (exists n : Z,
     snd (count_ip_addresses cidr) = Ok n /\ 0 <= n /\
     match ip_network cidr true with
     | Ok net => n = 2 ^ (max_prefixlen (net_version net) - prefixlen net)
     | Raise _ => n = 0
     end)
  /\ forall (a : address) (p : Z),
       wf_address a -> addr_scope_id a = None ->
       0 <= p <= max_prefixlen (addr_version a) ->
       cidr = (str_address a ++ "/" ++ str_int p)%string ->
       snd (count_ip_addresses cidr)
       = Ok (if addr_ip a mod 2 ^ (max_prefixlen (addr_version a) - p) =? 0
             then 2 ^ (max_prefixlen (addr_version a) - p)
             else 0).
Proof.
  split.
  - unfold count_ip_addresses.
    pose proof (ip_network_raises cidr true) as Hraise.
    destruct (ip_network cidr true) as [net|e] eqn:E.
    + apply ip_network_Ok in E. rewrite (num_addresses_eq net E).
      eexists. split; [reflexivity|]. split; [|reflexivity].
      apply Z.pow_nonneg. lia.
    + simpl in Hraise. rewrite Hraise. exists 0. simpl. auto with zarith.
  - intros a p Ha Hs Hp ->. unfold count_ip_addresses.
    rewrite (ip_network_cidr a p true Ha Hs Hp).
    rewrite (network_init_cidr a p true Ha Hs Hp).
    destruct (Z.eqb_spec (addr_ip a mod 2 ^ (max_prefixlen (addr_version a) - p)) 0)
      as [E|E]; [|reflexivity].
    cbn [snd]. rewrite num_addresses_eq by (apply wf_network_intro; assumption).
    reflexivity.
Qed.

Lemma count_ip_addresses_total_witness :
  snd (count_ip_addresses "10.0.0.0/24") = Ok 256
  /\ snd (count_ip_addresses "2001:db8::/48") = Ok (2 ^ 80)
  /\ snd (count_ip_addresses "10.0.0.5/24") = Ok 0.
Proof.
  split; [|split].
  - apply (proj2 (count_ip_addresses_total "10.0.0.0/24")
             (Address IPv4 167772160 None) 24);
      [reflexivity | reflexivity | vm_compute; split; discriminate | reflexivity].
  - apply (proj2 (count_ip_addresses_total "2001:db8::/48")
             (Address IPv6 42540766411282592856903984951653826560 None) 48);
      [reflexivity | reflexivity | vm_compute; split; discriminate | reflexivity].
  - apply (proj2 (count_ip_addresses_total "10.0.0.5/24")
             (Address IPv4 167772165 None) 24);
      [reflexivity | reflexivity | vm_compute; split; discriminate | reflexivity].
Defined.

(** *** The sum of the counts *)

Lemma sum_count_ip_addresses_from_spec (prefixes : list string) : forall total,
  sum_count_ip_addresses_from total prefixes
  = (map (fun c => "Invalid CIDR block: " ++ c)%string (filter rejected prefixes),
     Ok (total + sum_Z (map counted prefixes))).
Proof.
  induction prefixes as [|c prefixes IH]; intros total;
    cbn [sum_count_ip_addresses_from filter map].
  - unfold sum_Z. simpl. rewrite Z.add_0_r. reflexivity.
  - unfold count_ip_addresses, rejected at 1, counted at 1.
    pose proof (ip_network_raises c true) as Hraise.
    destruct (ip_network c true) as [n|e].
    + rewrite IH. cbn [app]. unfold sum_Z. cbn [fold_right]. f_equal. f_equal. lia.
    + simpl in Hraise. rewrite Hraise. rewrite IH. cbn [app map].
      unfold sum_Z. cbn [fold_right]. f_equal. f_equal. lia.
Qed.

(** The ["address_count"] of the report, for the prefixes of a virtual
    network or of a subnet: it never raises; a prefix that [ip_network]
    rejects adds nothing to the sum and one printed line, in the order of
    the prefixes, and the sum goes on with the next prefix; a prefix that is
    accepted adds the number of its addresses, also when the same addresses
    were counted for another prefix. *)
Theorem sum_count_ip_addresses_spec (prefixes : list string) :
  sum_count_ip_addresses prefixes
  = (map (fun c => "Invalid CIDR block: " ++ c)%string (filter rejected prefixes),
     Ok (sum_Z (map counted prefixes))).
Proof.
  unfold sum_count_ip_addresses. rewrite sum_count_ip_addresses_from_spec.
  reflexivity.
Qed.

(** The blocks of a summary count the addresses of the range, each once. *)
Lemma summarizes_sizes v l f nets :
  summarizes v l f nets -> f <= l + 1 ->
  sum_Z (map num_addresses nets) = l - f + 1.
Proof.
  induction 1 as [f Hf | f n rest Hfl Hfirst Hblock Hrest IH]; intros Hle.
  - unfold sum_Z. simpl. lia.
  - destruct Hblock as (Hwf & _ & _ & Hlast & _).
    cbn [map]. unfold sum_Z. cbn [fold_right]. fold (sum_Z (map num_addresses rest)).
    rewrite IH by lia.
    assert (Hnum : num_addresses n = last_int n - first_int n + 1) by reflexivity.
    lia.
Qed.

Lemma counted_str_network v nets :
  Forall (fun n => wf_network n /\ net_version n = v /\ unscoped n) nets ->
  filter rejected (map str_network nets) = []
  /\ map counted (map str_network nets) = map num_addresses nets.
Proof.
  induction 1 as [|n nets (Hn & _ & Hu) _ [IH1 IH2]]; cbn [map filter].
  - auto.
  - unfold rejected at 1, counted at 1.
    rewrite (ip_network_str_network n true Hn Hu). rewrite IH1, IH2. auto.
Qed.

(** From a range to its blocks and back to a number: whenever the two
    texts are addresses, the first not above the last, whose integers are
    both below 2^32 or both from 2^32 on, the CIDR texts that
    [ip_range_to_cidr] returns are texts the address counter accepts, and
    their counts add up to the number of addresses of the range. *)
Theorem ip_range_to_cidr_counts (start_ip end_ip : string) (a b : address) :
  ip_address_of_str start_ip = Ok a ->
  ip_address_of_str end_ip = Ok b ->
  addr_ip a <= addr_ip b ->
  addr_ip b <= ALL_ONES IPv4 \/ ALL_ONES IPv4 < addr_ip a ->
  exists texts,
    ip_range_to_cidr start_ip end_ip = Ok (map Cidr texts)
    /\ sum_count_ip_addresses texts = ([], Ok (addr_ip b - addr_ip a + 1)).
Proof.
  intros Ha Hb Hle Hfam. unfold ip_range_to_cidr. rewrite Ha, Hb. cbn [bind].
  apply ip_address_of_str_Ok, wf_address_range in Ha, Hb.
  pose proof (ALL_ONES_le_v6 (addr_version b)).
  destruct (Z.gtb_spec (addr_ip a) (addr_ip b)); [lia|].
  assert (Hv : exists v, (v = IPv4 /\ addr_ip b <= ALL_ONES IPv4)
                         \/ (v = IPv6 /\ ALL_ONES IPv4 < addr_ip a)).
  { destruct Hfam; [exists IPv4 | exists IPv6]; auto. }
  destruct Hv as (v & Hv).
  destruct (summarize_ints (addr_ip a) (addr_ip b) v ltac:(lia) ltac:(lia) Hv)
    as (nets & -> & Hs).
  exists (map str_network nets). cbn [catch_if]. rewrite map_map.
  split; [reflexivity|].
  unfold sum_count_ip_addresses. rewrite sum_count_ip_addresses_from_spec.
  destruct (counted_str_network v nets (summarizes_blocks _ _ _ _ Hs)) as [-> ->].
  rewrite (summarizes_sizes _ _ _ _ Hs) by lia. reflexivity.
Qed.

Example ip_range_to_cidr_counts_example :
  exists texts,
    ip_range_to_cidr "2001:db8::" "2001:db8::ff" = Ok (map Cidr texts)
    /\ sum_count_ip_addresses texts = ([], Ok 256).
Proof.
  apply (ip_range_to_cidr_counts "2001:db8::" "2001:db8::ff"
           (Address IPv6 42540766411282592856903984951653826560 None)
           (Address IPv6 42540766411282592856903984951653826815 None)).
  - vm_compute. reflexivity.
  - vm_compute. reflexivity.
  - vm_compute. discriminate.
  - right. vm_compute. reflexivity.
Defined.

(** ** The order of the sub-ranges *)

Lemma insert_insert x y l :
  first_int x <> first_int y ->
  insert_by_network_address x (insert_by_network_address y l)
  = insert_by_network_address y (insert_by_network_address x l).
Proof.
  intros Hne. induction l as [|z l IH]; cbn [insert_by_network_address].
  - fold (first_int x) (first_int y).
    destruct (Z.ltb_spec (first_int y) (first_int x)),
      (Z.ltb_spec (first_int x) (first_int y)); try reflexivity; lia.
  - fold (first_int x) (first_int y) (first_int z).
    destruct (Z.ltb_spec (first_int z) (first_int y)) as [Hzy|Hzy],
      (Z.ltb_spec (first_int z) (first_int x)) as [Hzx|Hzx];
      cbn [insert_by_network_address];
      fold (first_int x) (first_int y) (first_int z).
    + destruct (Z.ltb_spec (first_int z) (first_int x)); [|lia].
      destruct (Z.ltb_spec (first_int z) (first_int y)); [|lia].
      rewrite IH. reflexivity.
    + destruct (Z.ltb_spec (first_int z) (first_int x)); [lia|].
      destruct (Z.ltb_spec (first_int x) (first_int y)); [|lia].
      cbn [insert_by_network_address]. fold (first_int y) (first_int z).
      destruct (Z.ltb_spec (first_int z) (first_int y)); [reflexivity | lia].
    + destruct (Z.ltb_spec (first_int y) (first_int x)); [|lia].
      destruct (Z.ltb_spec (first_int z) (first_int y)); [lia|].
      cbn [insert_by_network_address]. fold (first_int x) (first_int z).
      destruct (Z.ltb_spec (first_int z) (first_int x)); [reflexivity | lia].
    + destruct (Z.ltb_spec (first_int y) (first_int x)),
        (Z.ltb_spec (first_int x) (first_int y)); try lia;
        cbn [insert_by_network_address];
        fold (first_int x) (first_int y) (first_int z).
      * destruct (Z.ltb_spec (first_int z) (first_int x)); [lia | reflexivity].
      * destruct (Z.ltb_spec (first_int z) (first_int y)); [lia | reflexivity].
Qed.

(** Subnets with different first addresses are sorted to the same list,
    in whatever order they were given. *)
Lemma sort_Permutation l l' :
  Permutation l l' -> NoDup (map first_int l) ->
  sort_by_network_address l = sort_by_network_address l'.
Proof.
  induction 1 as [|x l l' Hp IH|x y l|l l' l'' Hp1 IH1 Hp2 IH2]; intros Hnd.
  - reflexivity.
  - cbn [sort_by_network_address]. inversion Hnd; subst. rewrite IH by assumption.
    reflexivity.
  - cbn [sort_by_network_address]. apply insert_insert.
    inversion Hnd as [|? ? Hnot _]; subst. intros E. apply Hnot.
    left. symmetry. exact E.
  - rewrite IH1 by exact Hnd. apply IH2.
    eapply Permutation_NoDup; [|exact Hnd]. apply Permutation_map. exact Hp1.
Qed.

Lemma filter_Permutation {A : Type} (f : A -> bool) l l' :
  Permutation l l' -> Permutation (filter f l) (filter f l').
Proof.
  induction 1 as [|x l l' Hp IH|x y l|l l' l'' Hp1 IH1 Hp2 IH2]; simpl.
  - constructor.
  - destruct (f x); [constructor|]; exact IH.
  - destruct (f x), (f y); try apply Permutation_refl. apply perm_swap.
  - eapply Permutation_trans; eassumption.
Qed.

(** The order in which the sub-ranges are listed does not matter to the gap
    finder, as long as no two of those that overlap the container start at
    the same address. *)
Theorem find_gaps_order (container : network) (sub_ranges sub_ranges' : list network) :
  Permutation sub_ranges sub_ranges' ->
  NoDup (map first_int (filter (fun s => overlaps container s) sub_ranges)) ->
  find_gaps container sub_ranges = find_gaps container sub_ranges'.
Proof.
  intros Hp Hnd. unfold find_gaps, vnet_gaps. cbn [all_space_gaps].
  unfold space_gaps.
  rewrite (sort_Permutation _ _
             (filter_Permutation (fun s => overlaps container s) _ _ Hp) Hnd).
  reflexivity.
Qed.

Example find_gaps_order_example :
  find_gaps (Network (Address IPv4 167772160 None) 24)
    [Network (Address IPv4 167772160 None) 26;
     Network (Address IPv4 167772288 None) 26]
  = find_gaps (Network (Address IPv4 167772160 None) 24)
      [Network (Address IPv4 167772288 None) 26;
       Network (Address IPv4 167772160 None) 26].
Proof.
  apply (find_gaps_order (Network (Address IPv4 167772160 None) 24)).
  - apply perm_swap.
  - vm_compute. repeat constructor; simpl; intuition discriminate.
Defined.

(** Where two sub-ranges start at the same address the order does matter:
    the one listed last decides where the cursor is left. *)
Remark find_gaps_order_same_start :
  find_gaps (Network (Address IPv4 167772160 None) 24)
    [Network (Address IPv4 167772160 None) 25;
     Network (Address IPv4 167772160 None) 26]
  = Ok [GapRecord "10.0.0.64 - 10.0.0.255"
          [Cidr "10.0.0.64/26"; Cidr "10.0.0.128/25"]]
  /\ find_gaps (Network (Address IPv4 167772160 None) 24)
       [Network (Address IPv4 167772160 None) 26;
        Network (Address IPv4 167772160 None) 25]
     = Ok [GapRecord "10.0.0.128 - 10.0.0.255" [Cidr "10.0.0.128/25"]].
Proof. split; vm_compute; reflexivity. Qed.

(** A sub-range that shares an address with the container lies inside it,
    or holds all of it: two CIDR blocks never overlap in part. *)
Theorem relevant_subnet_nested (container s : network) :
  wf_network container -> wf_network s -> overlaps container s = true ->
  (first_int container <= first_int s /\ last_int s <= last_int container)
  \/ (first_int s <= first_int container /\ last_int container <= last_int s).
Proof.
  intros Hc Hs Ho.
  destruct (Z_le_gt_dec (prefixlen container) (prefixlen s)) as [Hle|Hgt].
  - left. apply overlapping_nested; assumption.
  - right. apply overlapping_nested; auto; [|lia].
    apply overlaps_spec in Ho as (Hv & H1 & H2); auto.
    apply overlaps_spec; auto.
Qed.

Example relevant_subnet_nested_example :
  (first_int (Network (Address IPv4 167772160 None) 24)
   <= first_int (Network (Address IPv4 167772288 None) 26)
   /\ last_int (Network (Address IPv4 167772288 None) 26)
      <= last_int (Network (Address IPv4 167772160 None) 24))
  \/ (first_int (Network (Address IPv4 167772288 None) 26)
      <= first_int (Network (Address IPv4 167772160 None) 24)
      /\ last_int (Network (Address IPv4 167772160 None) 24)
         <= last_int (Network (Address IPv4 167772288 None) 26)).
Proof.
  apply (relevant_subnet_nested
           (Network (Address IPv4 167772160 None) 24)
           (Network (Address IPv4 167772288 None) 26)); reflexivity.
Defined.

(** ** How many blocks a summary has *)

Lemma loop_nbits_aligned v f l :
  0 <= f <= l -> f mod 2 ^ loop_nbits v f l = 0.
Proof.
  intros [Hf Hfl]. pose proof (max_prefixlen_pos v) as HB.
  pose proof (loop_nbits_range v f l Hfl) as Hn.
  pose proof (count_righthand_zero_bits_range f (max_prefixlen v) ltac:(lia)) as Hc.
  pose proof (count_righthand_zero_bits_divides f (max_prefixlen v) Hf ltac:(lia))
    as Hd.
  apply Z.mod_divide in Hd; [|apply Z.pow_nonzero; lia].
  apply Z.mod_divide; [apply Z.pow_nonzero; lia|].
  destruct Hd as [q Hq].
  assert (Hle : loop_nbits v f l <= count_righthand_zero_bits f (max_prefixlen v))
    by (unfold loop_nbits; lia).
  exists (q * 2 ^ (count_righthand_zero_bits f (max_prefixlen v) - loop_nbits v f l)).
  rewrite <- Z.mul_assoc, <- Z.pow_add_r by lia.
  replace (count_righthand_zero_bits f (max_prefixlen v) - loop_nbits v f l
           + loop_nbits v f l)
    with (count_righthand_zero_bits f (max_prefixlen v)) by lia.
  exact Hq.
Qed.

(** A greatest block of a range is the block the loop builds at its first
    address. *)
Lemma greatest_block_last v l n :
  greatest_block v l n -> 0 <= first_int n <= l -> l <= ALL_ONES v ->
  last_int n = first_int n + 2 ^ loop_nbits v (first_int n) l - 1.
Proof.
  intros Hblock Hf Hl. set (f := first_int n) in *.
  pose proof (loop_nbits_range v f l ltac:(lia)) as Hn.
  pose proof (loop_nbits_aligned v f l Hf) as Hal.
  assert (Hinit : network_init v (FromPair f (max_prefixlen v - loop_nbits v f l)) true
                  = Ok (Network (Address v f None)
                          (max_prefixlen v - loop_nbits v f l))).
  { apply network_init_pair_Ok; [lia | lia|].
    replace (max_prefixlen v - (max_prefixlen v - loop_nbits v f l))
      with (loop_nbits v f l) by lia. exact Hal. }
  destruct (loop_block v f l _ ltac:(lia) Hinit) as (Hfirst & Hm & Hlast).
  pose proof (greatest_block_host_bits v l n _ Hblock Hm (eq_sym Hfirst)) as Hh.
  rewrite host_bits_pair in Hh.
  destruct Hblock as (Hwf & _).
  rewrite (last_int_eq n Hwf), Hh. fold f. f_equal. f_equal. f_equal. lia.
Qed.

Lemma steps_bound_pos v f l : 0 <= f <= l -> 1 <= steps_bound v f l.
Proof.
  intros Hf. unfold steps_bound. pose proof (max_prefixlen_pos v) as HB.
  destruct (Z.ltb_spec l f); [lia|]. cbv zeta.
  pose proof (Z.log2_nonneg (l - f + 1)).
  pose proof (count_righthand_zero_bits_range f (max_prefixlen v) ltac:(lia)).
  destruct (Z.leb_spec (Z.log2 (l - f + 1))
              (count_righthand_zero_bits f (max_prefixlen v))); lia.
Qed.

Lemma summarizes_length v l f nets :
  summarizes v l f nets -> 0 <= f -> l <= ALL_ONES v ->
  Z.of_nat (List.length nets) <= steps_bound v f l.
Proof.
  induction 1 as [f Hf | f n rest Hfl Hfirst Hblock Hrest IH]; intros Hf0 Hl.
  - unfold steps_bound. destruct (Z.ltb_spec l f); simpl; lia.
  - subst f.
    pose proof (greatest_block_last v l n Hblock ltac:(lia) Hl) as Hlast.
    destruct Hblock as (Hwf & _).
    pose proof (wf_first_le_last n Hwf) as Hle.
    cbn [List.length]. rewrite Nat2Z.inj_succ.
    destruct (Z.eq_dec (last_int n) (ALL_ONES v)) as [Hmax|Hmax].
    + inversion Hrest; subst; [|lia]. simpl.
      pose proof (steps_bound_pos v (first_int n) l ltac:(lia)). lia.
    + pose proof (steps_bound_decreases v (first_int n) l ltac:(lia) Hl
                    ltac:(lia)) as Hdec.
      replace (first_int n + 2 ^ loop_nbits v (first_int n) l)
        with (last_int n + 1) in Hdec by lia.
      specialize (IH ltac:(lia) Hl). lia.
Qed.

(** Whatever the two texts are, a list that [ip_range_to_cidr] returns is
    never empty and never long: it holds one entry at least, and at most
    twice the width of an IPv6 address and one, 257 entries, however many
    addresses the range has. *)
Theorem ip_range_to_cidr_length (start_ip end_ip : string)
  (entries : list cidr_entry) :
  ip_range_to_cidr start_ip end_ip = Ok entries ->
  (1 <= List.length entries <= 257)%nat.
Proof.
  unfold ip_range_to_cidr. intros H.
  pose proof (ip_address_of_str_raises start_ip) as Hra.
  pose proof (ip_address_of_str_raises end_ip) as Hrb.
  destruct (ip_address_of_str start_ip) as [a|ea] eqn:Ea.
  2:{ simpl in Hra. cbn [bind catch_if] in H. rewrite Hra in H.
      injection H as <-. simpl. lia. }
  destruct (ip_address_of_str end_ip) as [b|eb] eqn:Eb.
  2:{ simpl in Hrb. cbn [bind catch_if] in H. rewrite Hrb in H.
      injection H as <-. simpl. lia. }
  cbn [bind] in H.
  apply ip_address_of_str_Ok, wf_address_range in Ea, Eb.
  pose proof (ALL_ONES_le_v6 (addr_version a)).
  pose proof (ALL_ONES_le_v6 (addr_version b)).
  destruct (Z.gtb_spec (addr_ip a) (addr_ip b)) as [Hgt|Hle].
  { cbn [catch_if is_ValueError exn_cls] in H. injection H as <-. simpl. lia. }
  assert (Hsame : forall v,
            (v = IPv4 /\ addr_ip b <= ALL_ONES IPv4)
            \/ (v = IPv6 /\ ALL_ONES IPv4 < addr_ip a) ->
            (1 <= List.length entries <= 257)%nat).
  { intros v Hv.
    destruct (summarize_ints (addr_ip a) (addr_ip b) v ltac:(lia) ltac:(lia) Hv)
      as (nets & Hn & Hs).
    rewrite Hn in H. cbn [catch_if] in H. injection H as <-.
    rewrite length_map.
    assert (Hmax : addr_ip b <= ALL_ONES v) by (destruct Hv as [[-> ?]|[-> ?]]; lia).
    pose proof (summarizes_length _ _ _ _ Hs ltac:(lia) Hmax) as Hlen.
    pose proof (steps_bound_le v (addr_ip a) (addr_ip b) ltac:(lia) Hmax) as Hb.
    assert (max_prefixlen v <= 128) by (destruct v; simpl; lia).
    split; [|lia].
    inversion Hs; subst; [lia | simpl; lia]. }
  destruct (Z_le_gt_dec (addr_ip b) (ALL_ONES IPv4)) as [Hb4|Hb6].
  - apply (Hsame IPv4). left. auto.
  - destruct (Z_le_gt_dec (addr_ip a) (ALL_ONES IPv4)) as [Ha4|Ha6].
    + exfalso. rewrite ip_address_of_int_v4, ip_address_of_int_v6 in H by lia.
      cbn [bind] in H. unfold summarize_address_range in H.
      cbn [addr_version version_eqb negb bind catch_if is_ValueError exn_cls] in H.
      discriminate.
    + apply (Hsame IPv6). right. split; [reflexivity | lia].
Qed.

Example ip_range_to_cidr_length_example :
  (1 <= List.length [Cidr "10.0.0.64/26"; Cidr "10.0.0.128/25"] <= 257)%nat.
Proof.
  apply (ip_range_to_cidr_length "10.0.0.64" "10.0.0.255").
  vm_compute. reflexivity.
Defined.

(** ** Texts without a prefix length *)

(** A text that is an address and no more, of either family and without
    zone identifier, is the network of that one address: the address
    counter counts 1 for it. *)
Theorem count_ip_addresses_bare_address (a : address) :
  wf_address a -> addr_scope_id a = None ->
  count_ip_addresses (str_address a) = ([], Ok 1).
Proof.
  intros Ha Hs. pose proof (wf_address_range a Ha) as Hr.
  pose proof (str_address_chars a "/" Hs ltac:(simpl; auto)) as Hslash.
  assert (Hsplit : split "/" (str_address a) = [str_address a]).
  { unfold split. apply (split_from_piece "/" "" _ "" Hslash). }
  assert (Hmax : 0 <= max_prefixlen (addr_version a))
    by (destruct (addr_version a); cbv; discriminate).
  assert (Hinit : network_init (addr_version a) (FromStr (str_address a)) true
                  = Ok (Network a (max_prefixlen (addr_version a)))).
  { unfold network_init, split_addr_prefix, split_optional_netmask.
    rewrite !Hsplit. cbn [List.length hd]. change (Z.of_nat 1 >? 2) with false.
    cbn [bind hd]. rewrite (address_of_part_text a Ha Hs). cbn [bind make_netmask].
    rewrite (proj2 (Z.leb_le 0 _) Hmax), Z.leb_refl. cbn [andb negb bind].
    rewrite land_netmask by (auto; lia).
    rewrite Z.sub_diag, Z.pow_0_r, Z.mod_1_r, Z.sub_0_r, Z.eqb_refl. reflexivity. }
  assert (Hnet : ip_network (str_address a) true
                 = Ok (Network a (max_prefixlen (addr_version a)))).
  { unfold ip_network. destruct (addr_version a) eqn:Hv.
    - rewrite Hinit. reflexivity.
    - destruct (IPv4Address_of_str_no_dot (str_address a)) as (e & He & Hcls).
      { rewrite str_address_unscoped, Hv by exact Hs.
        apply string_from_ip_int_v6_chars. simpl. auto. }
      assert (H4 : network_init IPv4 (FromStr (str_address a)) true = Raise e).
      { unfold network_init, split_addr_prefix, split_optional_netmask.
        rewrite !Hsplit. cbn [List.length hd]. change (Z.of_nat 1 >? 2) with false.
        cbn [bind hd address_of_part]. rewrite He. reflexivity. }
      rewrite H4. cbn [catch_if]. rewrite Hcls, Hinit. reflexivity. }
  unfold count_ip_addresses. rewrite Hnet.
  rewrite num_addresses_eq by (apply (ip_network_Ok _ _ _ Hnet)).
  unfold net_version. cbn [network_address prefixlen].
  rewrite Z.sub_diag. reflexivity.
Qed.

Example count_ip_addresses_bare_address_example :
  count_ip_addresses "2001:db8::1" = ([], Ok 1).
Proof.
  change (count_ip_addresses
            (str_address (Address IPv6 42540766411282592856903984951653826561 None)) = ([], Ok 1)).
  apply (count_ip_addresses_bare_address (Address IPv6 42540766411282592856903984951653826561 None));
    reflexivity.
Defined.

(** ** An address with a prefix length, parsed and counted *)

(** The text of an address of either family, without zone identifier, a
    slash and a prefix length of the family, read by the two callers of
    [ip_network].  The gap finder clears the host bits and takes the
    network that holds the address.  The address counter counts the
    addresses of that network when no host bit is set, and prints the text
    as invalid and counts 0 when one is. *)
Theorem cidr_text (a : address) (p : Z) :
  wf_address a -> addr_scope_id a = None ->
  0 <= p <= max_prefixlen (addr_version a) ->
  ip_network (str_address a ++ "/" ++ str_int p)%string false
  = Ok (Network
          (Address (addr_version a)
             (addr_ip a - addr_ip a mod 2 ^ (max_prefixlen (addr_version a) - p))
             None) p)
  /\ count_ip_addresses (str_address a ++ "/" ++ str_int p)%string
     = if addr_ip a mod 2 ^ (max_prefixlen (addr_version a) - p) =? 0
       then ([], Ok (2 ^ (max_prefixlen (addr_version a) - p)))
       else (["Invalid CIDR block: "
              ++ (str_address a ++ "/" ++ str_int p)]%string, Ok 0).
Proof.
  intros Ha Hs Hp. split.
  - rewrite (ip_network_cidr a p false Ha Hs Hp).
    rewrite (network_init_cidr a p false Ha Hs Hp).
    destruct (Z.eqb_spec (addr_ip a mod 2 ^ (max_prefixlen (addr_version a) - p)) 0)
      as [E|E]; [|reflexivity].
    rewrite E, Z.sub_0_r. destruct a as [v n s].
    cbn [addr_version addr_ip addr_scope_id] in *. subst s. reflexivity.
  - unfold count_ip_addresses. rewrite (ip_network_cidr a p true Ha Hs Hp).
    rewrite (network_init_cidr a p true Ha Hs Hp).
    destruct (Z.eqb_spec (addr_ip a mod 2 ^ (max_prefixlen (addr_version a) - p)) 0)
      as [E|E]; [|reflexivity].
    rewrite num_addresses_eq by (apply wf_network_intro; assumption).
    reflexivity.
Qed.

Example cidr_text_example :
  (ip_network "10.0.0.5/24" false = Ok (Network (Address IPv4 167772160 None) 24)
   /\ count_ip_addresses "10.0.0.5/24"
      = (["Invalid CIDR block: 10.0.0.5/24"], Ok 0))
  /\ (ip_network "2001:db8::5/64" false
      = Ok (Network (Address IPv6 42540766411282592856903984951653826560 None) 64)
      /\ count_ip_addresses "2001:db8::5/64"
         = (["Invalid CIDR block: 2001:db8::5/64"], Ok 0)).
Proof.
  split.
  - apply (cidr_text (Address IPv4 167772165 None) 24);
      vm_compute; try reflexivity; split; discriminate.
  - apply (cidr_text (Address IPv6 42540766411282592856903984951653826565 None) 64);
      vm_compute; try reflexivity; split; discriminate.
Defined.

(** ** From the sweep to the records, and from the texts to the sweep *)

(** The gap finder keeps a gap as the text of its two addresses and hands
    that text to [ip_range_to_cidr], split at [" - "]: for addresses of
    either family without zone identifier the text splits into exactly the
    two address texts, and [ip_address] reads each back as the address it
    was written from. *)
Theorem gap_text_read_back (iv : interval) :
  wf_address (fst iv) -> wf_address (snd iv) ->
  addr_scope_id (fst iv) = None -> addr_scope_id (snd iv) = None ->
  exists start_ip end_ip,
    split " - " (gap_text iv) = [start_ip; end_ip]
    /\ ip_address_of_str start_ip = Ok (fst iv)
    /\ ip_address_of_str end_ip = Ok (snd iv).
Proof.
  intros Hw1 Hw2 Hs1 Hs2.
  exists (str_address (fst iv)), (str_address (snd iv)).
  split; [apply split_gap_text; assumption|].
  split; apply ip_address_of_str_text; assumption.
Qed.

Example gap_text_read_back_example :
  exists start_ip end_ip,
    split " - "
      (gap_text (Address IPv6 42540766411282592856903984951653826560 None, Address IPv6 42540766411282592856903984951653892095 None))
    = [start_ip; end_ip]
    /\ ip_address_of_str start_ip = Ok (Address IPv6 42540766411282592856903984951653826560 None)
    /\ ip_address_of_str end_ip = Ok (Address IPv6 42540766411282592856903984951653892095 None).
Proof.
  apply (gap_text_read_back
           (Address IPv6 42540766411282592856903984951653826560 None, Address IPv6 42540766411282592856903984951653892095 None));
    reflexivity.
Defined.

Lemma mapM_ip_network_str_network (nets : list network) (strict : bool) :
  Forall (fun n => wf_network n /\ unscoped n) nets ->
  mapM (fun cidr => ip_network cidr strict) (map str_network nets) = Ok nets.
Proof.
  induction 1 as [|n nets [Hn Hu] _ IH]; cbn [map mapM]; [reflexivity|].
  rewrite (ip_network_str_network n strict Hn Hu), IH. reflexivity.
Qed.

(** On a virtual network whose address prefixes, and whose subnets'
    address prefixes, are the texts of networks of either family,
    [find_vnet_gaps] sweeps exactly those networks: nothing is lost on the
    way from the texts, and the other keys of the virtual network are
    kept. *)
Theorem find_gaps_of_vnet_networks (v : vnet)
  (address_spaces sub_ranges : list network) :
  Forall (fun n => wf_network n /\ unscoped n) address_spaces ->
  Forall (fun n => wf_network n /\ unscoped n) sub_ranges ->
  get_or_empty (address_prefixes v) = map str_network address_spaces ->
  flat_map (fun s => get_or_empty (subnet_address_prefixes s))
    (get_or_empty (subnets v)) = map str_network sub_ranges ->
  find_gaps_of_vnet v
  = bind (vnet_gaps address_spaces sub_ranges)
      (fun records =>
         Ok (Vnet (vnet_name v) (vnet_location v) (address_prefixes v)
               (address_count v) (subnets v) records)).
Proof.
  intros Hspaces Hsubs Hp Hs. unfold find_gaps_of_vnet.
  rewrite Hp, Hs.
  rewrite (mapM_ip_network_str_network address_spaces false Hspaces).
  rewrite (mapM_ip_network_str_network sub_ranges false Hsubs).
  reflexivity.
Qed.

Example find_gaps_of_vnet_networks_example :
  find_gaps_of_vnet
    (Vnet "vnet" "westeurope" (Some ["10.0.0.0/24"; "2001:db8::/48"]) 0
       (Some [Subnet "a" (Some ["10.0.0.0/26"]) 0; Subnet "b" None 0]) [])
  = bind (vnet_gaps
            [Network (Address IPv4 167772160 None) 24;
             Network (Address IPv6 42540766411282592856903984951653826560 None) 48]
            [Network (Address IPv4 167772160 None) 26])
      (fun records =>
         Ok (Vnet "vnet" "westeurope" (Some ["10.0.0.0/24"; "2001:db8::/48"]) 0
               (Some [Subnet "a" (Some ["10.0.0.0/26"]) 0; Subnet "b" None 0])
               records)).
Proof.
  apply (find_gaps_of_vnet_networks
           (Vnet "vnet" "westeurope" (Some ["10.0.0.0/24"; "2001:db8::/48"]) 0
              (Some [Subnet "a" (Some ["10.0.0.0/26"]) 0; Subnet "b" None 0]) [])
           [Network (Address IPv4 167772160 None) 24;
            Network (Address IPv6 42540766411282592856903984951653826560 None) 48]
           [Network (Address IPv4 167772160 None) 26]).
  - repeat constructor.
  - repeat constructor.
  - vm_compute. reflexivity.
  - vm_compute. reflexivity.
Defined.

(** ** A virtual network without subnets *)

Lemma space_gaps_no_subnet (c : network) (gaps : list interval) :
  wf_network c -> unscoped c ->
  space_gaps [] gaps c
  = Ok (gaps ++ [(network_address c, broadcast_address c)])%list.
Proof.
  intros Hc Hcu. pose proof (wf_first_le_last c Hc) as Hfl.
  unfold space_gaps. cbn [filter sort_by_network_address sweep bind].
  unfold addr_le, addr_lt. rewrite version_eqb_refl. cbn [negb bind].
  rewrite addr_eq_unscoped by (auto; reflexivity).
  fold (first_int c) (last_int c).
  replace ((first_int c <? last_int c) || (first_int c =? last_int c))%bool
    with true.
  2:{ destruct (Z.ltb_spec (first_int c) (last_int c)),
        (Z.eqb_spec (first_int c) (last_int c));
        simpl; try reflexivity; lia. }
  reflexivity.
Qed.

Lemma all_space_gaps_no_subnet (cs : list network) : forall gaps,
  Forall (fun c => wf_network c /\ unscoped c /\ keeps_family c) cs ->
  all_space_gaps [] gaps cs
  = Ok (gaps ++ map (fun c => (network_address c, broadcast_address c)) cs)%list.
Proof.
  induction cs as [|c cs IH]; intros gaps H; cbn [all_space_gaps map].
  - rewrite app_nil_r. reflexivity.
  - inversion H as [|? ? (Hc & Hu & _) Hcs]; subst.
    rewrite (space_gaps_no_subnet c gaps Hc Hu). cbn [bind].
    rewrite (IH _ Hcs), <- app_assoc. reflexivity.
Qed.

(** The record of the gap that is a whole network. *)
Lemma gap_record_of_network (c : network) :
  wf_network c -> unscoped c -> keeps_family c ->
  gap_record_of (gap_text (network_address c, broadcast_address c))
  = Ok (GapRecord (gap_text (network_address c, broadcast_address c))
          [Cidr (str_network c)]).
Proof.
  intros Hc Hcu Hk. pose proof (wf_first_le_last c Hc) as Hfl.
  destruct (wf_network_facts c Hc) as (Ha & _ & _).
  unfold gap_record_of.
  rewrite (split_gap_text (network_address c, broadcast_address c) Hcu eq_refl).
  cbn [fst snd]. unfold ip_range_to_cidr.
  rewrite (ip_address_of_str_text _ Ha Hcu).
  rewrite (ip_address_of_str_text _ (wf_broadcast c Hc) eq_refl).
  cbn [bind]. fold (first_int c) (last_int c).
  destruct (Z.gtb_spec (first_int c) (last_int c)); [lia|].
  rewrite (summarize_network_ints c Hc Hcu Hk). reflexivity.
Qed.

(** A virtual network that has address prefixes and no subnet prefix, the
    key ["subnets"] missing or its list empty, or each subnet without the
    key ["address_prefixes"] or with an empty list: every address space
    comes back whole, one record for each in the order of the prefixes,
    with the first and the last address of the space as its gap and the
    text of the space as its one block.  Without address prefixes there is
    no record.  The address spaces are of either family, without zone
    identifier, an IPv6 space starting at 2^32 or above. *)
Theorem find_gaps_of_vnet_no_subnet (v : vnet) (address_spaces : list network) :
  Forall (fun c => wf_network c /\ unscoped c /\ keeps_family c) address_spaces ->
  get_or_empty (address_prefixes v) = map str_network address_spaces ->
  flat_map (fun s => get_or_empty (subnet_address_prefixes s))
    (get_or_empty (subnets v)) = [] ->
  find_gaps_of_vnet v
  = Ok (Vnet (vnet_name v) (vnet_location v) (address_prefixes v)
          (address_count v) (subnets v)
          (map (fun c =>
                  GapRecord (gap_text (network_address c, broadcast_address c))
                    [Cidr (str_network c)])
               address_spaces)).
Proof.
  intros Hspaces Hp Hs. unfold find_gaps_of_vnet. rewrite Hp, Hs.
  rewrite (mapM_ip_network_str_network address_spaces false)
    by (eapply Forall_impl; [|exact Hspaces]; simpl; tauto).
  cbn [mapM bind]. unfold vnet_gaps.
  rewrite (all_space_gaps_no_subnet address_spaces [] Hspaces). cbn [app bind].
  assert (Hrec : mapM gap_record_of
                   (map gap_text
                      (map (fun c => (network_address c, broadcast_address c))
                         address_spaces))
                 = Ok (map (fun c =>
                              GapRecord
                                (gap_text (network_address c, broadcast_address c))
                                [Cidr (str_network c)])
                         address_spaces)).
  { clear Hp Hs. induction Hspaces as [|c cs (Hc & Hu & Hk) _ IH]; cbn [map mapM];
      [reflexivity|].
    rewrite (gap_record_of_network c Hc Hu Hk), IH. reflexivity. }
  rewrite Hrec. reflexivity.
Qed.

Example find_gaps_of_vnet_no_subnet_example :
  find_gaps_of_vnet
    (Vnet "vnet" "westeurope" (Some ["10.0.0.0/24"; "2001:db8::/48"]) 0 None [])
  = Ok (Vnet "vnet" "westeurope" (Some ["10.0.0.0/24"; "2001:db8::/48"]) 0 None
          [GapRecord "10.0.0.0 - 10.0.0.255" [Cidr "10.0.0.0/24"];
           GapRecord "2001:db8:: - 2001:db8:0:ffff:ffff:ffff:ffff:ffff"
             [Cidr "2001:db8::/48"]]).
Proof.
  apply (find_gaps_of_vnet_no_subnet
           (Vnet "vnet" "westeurope" (Some ["10.0.0.0/24"; "2001:db8::/48"]) 0
              None [])
           [Network (Address IPv4 167772160 None) 24;
            Network (Address IPv6 42540766411282592856903984951653826560 None) 48]).
  - constructor;
      [split; [reflexivity | split; [reflexivity | left; reflexivity]]|].
    constructor;
      [split; [reflexivity | split; [reflexivity | right; reflexivity]]|].
    constructor.
  - vm_compute. reflexivity.
  - reflexivity.
Defined.

(** ** Instances *)

Lemma summarize_loop_terminates_witness :
  summarize_loop (loop_fuel IPv4) IPv4 1 4294967294 <> None.
Proof.
  apply (summarize_loop_terminates IPv4 1 4294967294).
  - lia.
  - vm_compute. discriminate.
Defined.

Lemma sweep_step_cursor_witness :
  Address IPv4 167772224 None
  = Address (net_version (Network (Address IPv4 167772160 None) 26))
      (last_int (Network (Address IPv4 167772160 None) 26) + 1) None.
Proof.
  apply (sweep_step_cursor (Address IPv4 167772288 None) []
           (Network (Address IPv4 167772160 None) 26)
           (Address IPv4 167772224 None) []).
  vm_compute. reflexivity.
Defined.

Lemma num_addresses_eq_witness :
  num_addresses (Network (Address IPv6 0 None) 0)
  = 2 ^ (max_prefixlen (net_version (Network (Address IPv6 0 None) 0))
         - prefixlen (Network (Address IPv6 0 None) 0)).
Proof.
  apply (num_addresses_eq (Network (Address IPv6 0 None) 0)). reflexivity.
Defined.

Lemma overlaps_spec_witness :
  overlaps (Network (Address IPv4 167772160 None) 24)
    (Network (Address IPv4 167772288 None) 26) = true
  <-> net_version (Network (Address IPv4 167772160 None) 24)
      = net_version (Network (Address IPv4 167772288 None) 26)
      /\ first_int (Network (Address IPv4 167772160 None) 24)
         <= last_int (Network (Address IPv4 167772288 None) 26)
      /\ first_int (Network (Address IPv4 167772288 None) 26)
         <= last_int (Network (Address IPv4 167772160 None) 24).
Proof.
  apply (overlaps_spec (Network (Address IPv4 167772160 None) 24)
           (Network (Address IPv4 167772288 None) 26)); reflexivity.
Defined.

Lemma ip_network_Ok_witness :
  wf_network (Network (Address IPv4 167772160 None) 24).
Proof.
  apply (ip_network_Ok "10.0.0.77/24" false
           (Network (Address IPv4 167772160 None) 24)).
  vm_compute. reflexivity.
Defined.
